(** * Verification of the redirect endpoint [api/r.js]

    The endpoint is one JavaScript module: [normalizeDest] (safe URL
    normalisation) and the exported asynchronous request handler.  This
    development embeds both in Rocq, together with a model of the platform
    functions they call ([RegExp.prototype.test], [decodeURIComponent],
    [encodeURIComponent], [String.prototype.trim/split/endsWith], and the
    WHATWG URL parser and serialiser behind [new URL]).

    Representation.  A JavaScript string is represented by the list of the
    bytes of its UTF-8 encoding ([jsstring]).  Every delimiter the code and
    the URL parser look at is ASCII, and percent-encoding works on UTF-8
    bytes, so all operations below are bytewise. *)

From Stdlib Require Import Ascii NArith Bool Lia.
From Stdlib Require String.
From stdpp Require Import base list strings gmap.

Local Open Scope char_scope.
Local Open Scope list_scope.

(** ** JavaScript strings *)

Abbreviation jsstring := (list ascii).

Definition str (s : string) : jsstring := String.list_ascii_of_string s.
Arguments str s%_stdpp.

Definition code (c : ascii) : nat := nat_of_ascii c.

Definition in_range (lo hi c : ascii) : bool :=
  (code lo <=? code c)%nat && (code c <=? code hi)%nat.

Definition is_upper (c : ascii) : bool := in_range "A" "Z" c.
Definition is_lower (c : ascii) : bool := in_range "a" "z" c.
Definition is_alpha (c : ascii) : bool := is_upper c || is_lower c.
Definition is_digit (c : ascii) : bool := in_range "0" "9" c.
Definition is_alnum (c : ascii) : bool := is_alpha c || is_digit c.
Definition is_hex_digit (c : ascii) : bool :=
  is_digit c || in_range "A" "F" c || in_range "a" "f" c.

Definition to_lower (c : ascii) : ascii :=
  if is_upper c then ascii_of_nat (code c + 32) else c.
Definition to_upper (c : ascii) : ascii :=
  if is_lower c then ascii_of_nat (code c - 32) else c.

Definition ascii_eqb (a b : ascii) : bool := Ascii.eqb a b.

Fixpoint jsstring_eqb (s t : jsstring) : bool :=
  match s, t with
  | [], [] => true
  | a :: s', b :: t' => ascii_eqb a b && jsstring_eqb s' t'
  | _, _ => false
  end.

(** [!s] for a string is true exactly for the empty string. *)
Definition truthy (s : jsstring) : bool :=
  match s with [] => false | _ :: _ => true end.

(** ** Regular expressions

    The two literals of the source use character classes, [*], [?],
    concatenation, the anchors [^] and [$] and the flag [i].  [Alt] and
    [Empty] are needed to take derivatives. *)

Inductive regex : Type :=
| Empty
| Eps
| Chr (c : ascii)
| Cls (ranges : list (ascii * ascii))
| Cat (r1 r2 : regex)
| Alt (r1 r2 : regex)
| Star (r : regex)
| Opt (r : regex).

Record RegExp : Type := mkRegExp {
  re_anchor_start : bool;
  re_body : regex;
  re_anchor_end : bool;
  re_ignoreCase : bool
}.

Definition chr_match (i : bool) (pat c : ascii) : bool :=
  if i then ascii_eqb (to_upper pat) (to_upper c) else ascii_eqb pat c.

Definition cls_match (i : bool) (ranges : list (ascii * ascii)) (c : ascii) : bool :=
  let hit x := existsb (fun r => in_range (fst r) (snd r) x) ranges in
  if i then hit c || hit (to_upper c) || hit (to_lower c) else hit c.

Fixpoint nullable (r : regex) : bool :=
  match r with
  | Empty => false
  | Eps => true
  | Chr _ => false
  | Cls _ => false
  | Cat r1 r2 => nullable r1 && nullable r2
  | Alt r1 r2 => nullable r1 || nullable r2
  | Star _ => true
  | Opt _ => true
  end.

Fixpoint deriv (i : bool) (c : ascii) (r : regex) : regex :=
  match r with
  | Empty => Empty
  | Eps => Empty
  | Chr p => if chr_match i p c then Eps else Empty
  | Cls rs => if cls_match i rs c then Eps else Empty
  | Cat r1 r2 =>
      if nullable r1 then Alt (Cat (deriv i c r1) r2) (deriv i c r2)
      else Cat (deriv i c r1) r2
  | Alt r1 r2 => Alt (deriv i c r1) (deriv i c r2)
  | Star r1 => Cat (deriv i c r1) (Star r1)
  | Opt r1 => deriv i c r1
  end.

(** A match starting at the first character: with [$] the whole input has
    to be consumed, without it any prefix may match. *)
Fixpoint match_here (i to_end : bool) (r : regex) (s : jsstring) : bool :=
  match s with
  | [] => nullable r
  | c :: s' => (negb to_end && nullable r) || match_here i to_end (deriv i c r) s'
  end.

Fixpoint match_from_any (i to_end : bool) (r : regex) (s : jsstring) : bool :=
  match_here i to_end r s ||
  match s with
  | [] => false
  | _ :: s' => match_from_any i to_end r s'
  end.

(** [re.test(s)] *)
Definition RegExp_test (re : RegExp) (s : jsstring) : bool :=
  if re_anchor_start re
  then match_here (re_ignoreCase re) (re_anchor_end re) (re_body re) s
  else match_from_any (re_ignoreCase re) (re_anchor_end re) (re_body re) s.

Fixpoint lit (s : jsstring) : regex :=
  match s with
  | [] => Eps
  | c :: s' => Cat (Chr c) (lit s')
  end.

(** [/^[a-zA-Z][a-zA-Z0-9+.-]*:\/\//] *)
Definition scheme_prefix_re : RegExp :=
  mkRegExp true
    (Cat (Cls [("a", "z"); ("A", "Z")])
      (Cat (Star (Cls [("a", "z"); ("A", "Z"); ("0", "9"); ("+", "+"); (".", "."); ("-", "-")]))
        (lit (str "://"))))
    false false.

(** [/^https?:$/i] *)
Definition http_protocol_re : RegExp :=
  mkRegExp true
    (Cat (lit (str "http")) (Cat (Opt (Chr "s")) (Chr ":")))
    true true.

(** Declarative meaning of a regular expression, used to state what the
    two literals accept. *)
Inductive matches (i : bool) : regex -> jsstring -> Prop :=
| M_eps : matches i Eps []
| M_chr p c : chr_match i p c = true -> matches i (Chr p) [c]
| M_cls rs c : cls_match i rs c = true -> matches i (Cls rs) [c]
| M_cat r1 r2 w1 w2 :
    matches i r1 w1 -> matches i r2 w2 -> matches i (Cat r1 r2) (w1 ++ w2)
| M_alt_l r1 r2 w : matches i r1 w -> matches i (Alt r1 r2) w
| M_alt_r r1 r2 w : matches i r2 w -> matches i (Alt r1 r2) w
| M_star_nil r : matches i (Star r) []
| M_star_app r w1 w2 :
    matches i r w1 -> matches i (Star r) w2 -> matches i (Star r) (w1 ++ w2)
| M_opt_none r : matches i (Opt r) []
| M_opt_some r w : matches i r w -> matches i (Opt r) w.

(** ** String built-ins used by the source *)

Definition hex_val (c : ascii) : option nat :=
  if is_digit c then Some (code c - 48)
  else if in_range "A" "F" c then Some (code c - 55)
  else if in_range "a" "f" c then Some (code c - 87)
  else None.

Definition hex_octet (h1 h2 : ascii) : option nat :=
  match hex_val h1, hex_val h2 with
  | Some a, Some b => Some (16 * a + b)
  | _, _ => None
  end.

Definition upper_hex_digit (n : nat) : ascii :=
  if (n <? 10)%nat then ascii_of_nat (48 + n) else ascii_of_nat (55 + n).

(** ["%XX"] with upper-case digits, as both [encodeURIComponent] and the URL
    standard's percent-encoding produce. *)
Definition percent_encode_byte (c : ascii) : jsstring :=
  ["%"; upper_hex_digit (code c / 16); upper_hex_digit (code c mod 16)].

Definition between (lo hi n : nat) : bool := (lo <=? n)%nat && (n <=? hi)%nat.

(** Well-formed UTF-8 sequences of two to four bytes (Unicode, table 3-7):
    no overlong forms, no surrogates, nothing above U+10FFFF. *)
Definition valid_utf8_multibyte (octets : list nat) : bool :=
  match octets with
  | [b0; b1] => between 194 223 b0 && between 128 191 b1
  | [b0; b1; b2] =>
      ((b0 =? 224)%nat && between 160 191 b1 && between 128 191 b2)
      || (between 225 236 b0 && between 128 191 b1 && between 128 191 b2)
      || ((b0 =? 237)%nat && between 128 159 b1 && between 128 191 b2)
      || (between 238 239 b0 && between 128 191 b1 && between 128 191 b2)
  | [b0; b1; b2; b3] =>
      ((b0 =? 240)%nat && between 144 191 b1 && between 128 191 b2 && between 128 191 b3)
      || (between 241 243 b0 && between 128 191 b1 && between 128 191 b2 && between 128 191 b3)
      || ((b0 =? 244)%nat && between 128 143 b1 && between 128 191 b2 && between 128 191 b3)
  | _ => false
  end.

(** Number of leading one bits of a byte of value 128 or more. *)
Definition leading_ones (b : nat) : nat :=
  if (b <? 192)%nat then 1
  else if (b <? 224)%nat then 2
  else if (b <? 240)%nat then 3
  else if (b <? 248)%nat then 4
  else 5.

(** The [Decode] operation of ECMAScript with an empty reserved set.
    [pending] holds the octets of a multi-byte sequence read so far and
    [need] the number of continuation escapes still expected.  [None] is
    the [URIError] exception. *)
Fixpoint decode_go (pending : list nat) (need : nat) (s : jsstring) : option jsstring :=
  match s with
  | [] => match need with 0 => Some [] | S _ => None end
  | c :: rest =>
      if ascii_eqb c "%" then
        match rest with
        | h1 :: h2 :: rest' =>
            match hex_octet h1 h2 with
            | None => None
            | Some b =>
                match need with
                | 0 =>
                    if (b <? 128)%nat then
                      option_map (cons (ascii_of_nat b)) (decode_go [] 0 rest')
                    else
                      let n := leading_ones b in
                      if (n =? 1)%nat || (4 <? n)%nat then None
                      else decode_go [b] (n - 1) rest'
                | S k =>
                    let octets := pending ++ [b] in
                    match k with
                    | 0 =>
                        if valid_utf8_multibyte octets
                        then option_map (app (map ascii_of_nat octets)) (decode_go [] 0 rest')
                        else None
                    | S _ => decode_go octets k rest'
                    end
                end
            end
        | _ => None
        end
      else
        match need with
        | 0 => option_map (cons c) (decode_go [] 0 rest)
        | S _ => None
        end
  end.

Definition decodeURIComponent (s : jsstring) : option jsstring := decode_go [] 0 s.

(** [A-Z a-z 0-9 - _ . ! ~ * ' ( )] *)
Definition uri_unreserved (c : ascii) : bool :=
  is_alnum c || existsb (ascii_eqb c) ["-"; "_"; "."; "!"; "~"; "*"; "'"; "("; ")"].

(** Every other byte is escaped.  The built-in throws [URIError] on a
    string with a lone surrogate; such a string has no UTF-8 encoding, so
    the function is total here, and the theorem that a tracker request is
    sent is stated for well-formed strings. *)
Definition encodeURIComponent (s : jsstring) : jsstring :=
  flat_map (fun c => if uri_unreserved c then [c] else percent_encode_byte c) s.

(** White space and line terminators of ECMAScript, in UTF-8: the six
    ASCII ones, U+00A0, U+1680, U+2000..U+200A, U+2028, U+2029, U+202F,
    U+205F, U+3000 and U+FEFF. *)
Definition is_ws1 (a : ascii) : bool :=
  between 9 13 (code a) || (code a =? 32)%nat.

Definition is_ws2 (a b : ascii) : bool :=
  (code a =? 194)%nat && (code b =? 160)%nat.

Definition is_ws3 (a b c : ascii) : bool :=
  ((code a =? 225)%nat && (code b =? 154)%nat && (code c =? 128)%nat)
  || ((code a =? 226)%nat && (code b =? 128)%nat
      && (between 128 138 (code c) || between 168 169 (code c) || (code c =? 175)%nat))
  || ((code a =? 226)%nat && (code b =? 129)%nat && (code c =? 159)%nat)
  || ((code a =? 227)%nat && (code b =? 128)%nat && (code c =? 128)%nat)
  || ((code a =? 239)%nat && (code b =? 187)%nat && (code c =? 191)%nat).

(** Strips white space from the front; with [backwards] the input is a
    reversed string and multi-byte sequences are read last byte first. *)
Fixpoint strip_ws (backwards : bool) (s : jsstring) : jsstring :=
  match s with
  | [] => []
  | a :: s1 =>
      if is_ws1 a then strip_ws backwards s1
      else
        match s1 with
        | [] => s
        | b :: s2 =>
            if (if backwards then is_ws2 b a else is_ws2 a b) then strip_ws backwards s2
            else
              match s2 with
              | [] => s
              | c :: s3 =>
                  if (if backwards then is_ws3 c b a else is_ws3 a b c)
                  then strip_ws backwards s3
                  else s
              end
        end
  end.

(** [s.trim()] *)
Definition trim (s : jsstring) : jsstring :=
  rev (strip_ws true (rev (strip_ws false s))).

(** [s.split(sep)] for a one-character separator; the result is never
    empty. *)
Fixpoint split (sep : ascii) (s : jsstring) : list jsstring :=
  match s with
  | [] => [[]]
  | c :: s' =>
      if ascii_eqb c sep then [] :: split sep s'
      else
        match split sep s' with
        | cur :: more => (c :: cur) :: more
        | [] => [[c]]
        end
  end.

(** [s.endsWith(t)] *)
Definition endsWith (s t : jsstring) : bool :=
  (length t <=? length s)%nat && jsstring_eqb (drop (length s - length t) s) t.

Definition startsWith (s t : jsstring) : bool :=
  jsstring_eqb (take (length t) s) t.

(** [s.indexOf(c) === -1] *)
Definition indexOf_is_minus1 (c : ascii) (s : jsstring) : bool :=
  negb (existsb (ascii_eqb c) s).

(** [arr.join(",")], which is what [String(arr)] gives for an array. *)
Fixpoint join_comma (l : list jsstring) : jsstring :=
  match l with
  | [] => []
  | [s] => s
  | s :: rest => s ++ "," :: join_comma rest
  end.

(** ** The URL standard: records, code point sets, encoders *)

Inductive host : Type :=
| Domain (d : jsstring)
| IPv4 (a : N)
| IPv6 (pieces : list N)
| OpaqueHost (h : jsstring)
| EmptyHost.

Inductive url_path : Type :=
| OpaquePath (p : jsstring)
| PathList (segments : list jsstring).

Record URL : Type := mkURL {
  url_scheme : jsstring;
  url_username : jsstring;
  url_password : jsstring;
  url_host : option host;
  url_port : option N;
  url_path_of : url_path;
  url_query : option jsstring;
  url_fragment : option jsstring
}.

Definition one_of (cs : list ascii) (c : ascii) : bool := existsb (ascii_eqb c) cs.

Definition is_c0_control_or_space (c : ascii) : bool := (code c <=? 32)%nat.
Definition is_tab_or_newline (c : ascii) : bool :=
  (code c =? 9)%nat || (code c =? 10)%nat || (code c =? 13)%nat.

(** Percent-encode sets.  A byte of 128 or more is part of a non-ASCII
    code point and belongs to every set. *)
Definition c0_control_set (c : ascii) : bool :=
  (code c <? 32)%nat || (126 <? code c)%nat.
Definition fragment_set (c : ascii) : bool :=
  c0_control_set c || one_of [" "; "034"; "<"; ">"; "`"] c.
Definition query_set (c : ascii) : bool :=
  c0_control_set c || one_of [" "; "034"; "#"; "<"; ">"] c.
Definition special_query_set (c : ascii) : bool :=
  query_set c || ascii_eqb c "'".
(** The path set of the current text of the standard, which has [^];
    parsers that follow an earlier text leave [^] in a path as it is. *)
Definition path_set (c : ascii) : bool :=
  query_set c || one_of ["?"; "^"; "`"; "{"; "}"] c.
Definition userinfo_set (c : ascii) : bool :=
  path_set c || one_of ["/"; ":"; ";"; "="; "@"; "["; "\"; "]"; "|"] c.

Definition utf8_percent_encode (set : ascii -> bool) (c : ascii) : jsstring :=
  if set c then percent_encode_byte c else [c].

Definition percent_encode_string (set : ascii -> bool) (s : jsstring) : jsstring :=
  flat_map (utf8_percent_encode set) s.

(** The URL standard's percent-decode: malformed escapes are kept. *)
Fixpoint percent_decode (s : jsstring) : jsstring :=
  match s with
  | [] => []
  | c :: rest =>
      if ascii_eqb c "%" then
        match rest with
        | h1 :: h2 :: rest' =>
            match hex_octet h1 h2 with
            | Some b => ascii_of_nat b :: percent_decode rest'
            | None => c :: percent_decode rest
            end
        | _ => c :: percent_decode rest
        end
      else c :: percent_decode rest
  end.

Definition forbidden_host_code_point (c : ascii) : bool :=
  (code c =? 0)%nat || is_tab_or_newline c
  || one_of [" "; "#"; "/"; ":"; "<"; ">"; "?"; "@"; "["; "\"; "]"; "^"; "|"] c.

Definition forbidden_domain_code_point (c : ascii) : bool :=
  forbidden_host_code_point c || (code c <? 32)%nat || ascii_eqb c "%"
  || (code c =? 127)%nat.

Definition is_special (scheme : jsstring) : bool :=
  existsb (jsstring_eqb scheme)
    [str "ftp"; str "file"; str "http"; str "https"; str "ws"; str "wss"].

Definition default_port (scheme : jsstring) : option N :=
  if jsstring_eqb scheme (str "ftp") then Some 21%N
  else if jsstring_eqb scheme (str "http") || jsstring_eqb scheme (str "ws") then Some 80%N
  else if jsstring_eqb scheme (str "https") || jsstring_eqb scheme (str "wss") then Some 443%N
  else None.

(** *** Numbers *)

Definition digit_val (radix : N) (c : ascii) : option N :=
  match hex_val c with
  | Some d => if (N.of_nat d <? radix)%N then Some (N.of_nat d) else None
  | None => None
  end.

Definition parse_radix (radix : N) (s : jsstring) : option N :=
  fold_left
    (fun acc c =>
       match acc, digit_val radix c with
       | Some n, Some d => Some (n * radix + d)%N
       | _, _ => None
       end)
    s (Some 0%N).

Definition lower_hex_digit (n : N) : ascii :=
  let k := N.to_nat n in
  if (k <? 10)%nat then ascii_of_nat (48 + k) else ascii_of_nat (87 + k).

Fixpoint N_to_radix_go (fuel : nat) (radix n : N) (acc : jsstring) : jsstring :=
  match fuel with
  | 0 => acc
  | S f =>
      let acc' := lower_hex_digit (n mod radix) :: acc in
      if (n / radix =? 0)%N then acc' else N_to_radix_go f radix (n / radix) acc'
  end.

(** Shortest representation; the fuel is the number of bits, which is at
    least the number of digits. *)
Definition N_to_radix (radix n : N) : jsstring :=
  N_to_radix_go (S (N.size_nat n)) radix n [].

Definition N_to_dec : N -> jsstring := N_to_radix 10.
Definition N_to_hex : N -> jsstring := N_to_radix 16.

(** *** IPv4 *)

Definition parse_ipv4_number (input : jsstring) : option N :=
  match input with
  | [] => None
  | c0 :: tl =>
      let '(radix, digits) :=
        match tl with
        | c1 :: tl' =>
            if ascii_eqb c0 "0" && (ascii_eqb c1 "x" || ascii_eqb c1 "X") then (16%N, tl')
            else if ascii_eqb c0 "0" then (8%N, tl)
            else (10%N, input)
        | [] => (10%N, input)
        end in
      parse_radix radix digits
  end.

(** The list of parts without a trailing empty part, unless it is the
    only one. *)
Definition drop_last_empty (all_parts : list jsstring) : list jsstring :=
  match last all_parts with
  | Some [] => if (1 <? length all_parts)%nat then removelast all_parts else all_parts
  | _ => all_parts
  end.

Definition ends_in_number (input : jsstring) : bool :=
  let parts := split "." input in
  match last parts with
  | Some [] =>
      if (length parts =? 1)%nat then false
      else
        match last (removelast parts) with
        | Some l =>
            (truthy l && forallb is_digit l)
            || match parse_ipv4_number l with Some _ => true | None => false end
        | None => false
        end
  | Some l =>
      (truthy l && forallb is_digit l)
      || match parse_ipv4_number l with Some _ => true | None => false end
  | None => false
  end.

Fixpoint sequence_options {A : Type} (l : list (option A)) : option (list A) :=
  match l with
  | [] => Some []
  | None :: _ => None
  | Some x :: rest => option_map (cons x) (sequence_options rest)
  end.

Definition ipv4_parse (input : jsstring) : option N :=
  let parts := drop_last_empty (split "." input) in
  if (4 <? length parts)%nat then None
  else
    match sequence_options (map parse_ipv4_number parts) with
    | None => None
    | Some numbers =>
        match last numbers with
        | None => None
        | Some final =>
            let front := removelast numbers in
            if existsb (fun n => (255 <? n)%N) front then None
            else if (256 ^ (5 - N.of_nat (length numbers)) <=? final)%N then None
            else
              Some (fold_left
                      (fun acc (p : nat * N) =>
                         (acc + snd p * 256 ^ (3 - N.of_nat (fst p)))%N)
                      (imap (fun i n => (i, n)) front) final)
        end
    end.

Definition ipv4_serialize (a : N) : jsstring :=
  N_to_dec (a / 16777216 mod 256) ++ "." ::
  N_to_dec (a / 65536 mod 256) ++ "." ::
  N_to_dec (a / 256 mod 256) ++ "." ::
  N_to_dec (a mod 256).

(** *** IPv6 *)

Definition piece_at (address : list N) (i : nat) : N := default 0%N (address !! i).

Fixpoint read_hex (limit : nat) (value : N) (len : nat) (s : jsstring)
  : N * nat * jsstring :=
  match limit, s with
  | S l, c :: rest =>
      match hex_val c with
      | Some d => read_hex l (value * 16 + N.of_nat d)%N (S len) rest
      | None => (value, len, s)
      end
  | _, _ => (value, len, s)
  end.

(** The digits of one part of an embedded IPv4 address: no leading zero,
    at most 255. *)
Fixpoint read_ipv4_piece (piece : option N) (s : jsstring) : option (option N * jsstring) :=
  match s with
  | c :: rest =>
      if is_digit c then
        let number := N.of_nat (code c - 48) in
        match piece with
        | None => read_ipv4_piece (Some number) rest
        | Some p =>
            if (p =? 0)%N then None
            else if (255 <? p * 10 + number)%N then None
            else read_ipv4_piece (Some (p * 10 + number)%N) rest
        end
      else Some (piece, s)
  | [] => Some (piece, s)
  end.

Fixpoint ipv6_embedded_ipv4 (fuel : nat) (address : list N) (pieceIndex numbersSeen : nat)
    (s : jsstring) : option (list N * nat) :=
  match s with
  | [] => if (numbersSeen =? 4)%nat then Some (address, pieceIndex) else None
  | c :: rest =>
      match fuel with
      | 0 => None
      | S fuel' =>
          let after_dot :=
            if (0 <? numbersSeen)%nat then
              if ascii_eqb c "." && (numbersSeen <? 4)%nat then Some rest else None
            else Some s in
          match after_dot with
          | None => None
          | Some s1 =>
              match s1 with
              | d :: _ =>
                  if is_digit d then
                    match read_ipv4_piece None s1 with
                    | Some (Some ipv4Piece, s2) =>
                        let address' :=
                          <[pieceIndex := (piece_at address pieceIndex * 256 + ipv4Piece)%N]> address in
                        let numbersSeen' := S numbersSeen in
                        let pieceIndex' :=
                          if (numbersSeen' =? 2)%nat || (numbersSeen' =? 4)%nat
                          then S pieceIndex else pieceIndex in
                        ipv6_embedded_ipv4 fuel' address' pieceIndex' numbersSeen' s2
                    | _ => None
                    end
                  else None
              | [] => None
              end
          end
      end
  end.

Fixpoint ipv6_loop (fuel : nat) (address : list N) (pieceIndex : nat)
    (compress : option nat) (s : jsstring) : option (list N * nat * option nat) :=
  match s with
  | [] => Some (address, pieceIndex, compress)
  | c :: rest =>
      match fuel with
      | 0 => None
      | S fuel' =>
          if (pieceIndex =? 8)%nat then None
          else if ascii_eqb c ":" then
            match compress with
            | Some _ => None
            | None => ipv6_loop fuel' address (S pieceIndex) (Some (S pieceIndex)) rest
            end
          else
            let '(value, len, s1) := read_hex 4 0%N 0 s in
            match s1 with
            | [] => Some (<[pieceIndex := value]> address, S pieceIndex, compress)
            | c1 :: s2 =>
                if ascii_eqb c1 "." then
                  if (len =? 0)%nat then None
                  else if (6 <? pieceIndex)%nat then None
                  else
                    match ipv6_embedded_ipv4 (S (length s)) address pieceIndex 0 s with
                    | Some (address', pieceIndex') => Some (address', pieceIndex', compress)
                    | None => None
                    end
                else if ascii_eqb c1 ":" then
                  match s2 with
                  | [] => None
                  | _ :: _ =>
                      ipv6_loop fuel' (<[pieceIndex := value]> address) (S pieceIndex) compress s2
                  end
                else None
            end
      end
  end.

Fixpoint ipv6_swap (swaps pieceIndex compress : nat) (address : list N) : list N :=
  match swaps with
  | 0 => address
  | S k =>
      if (pieceIndex =? 0)%nat then address
      else
        let j := compress + swaps - 1 in
        let a := piece_at address pieceIndex in
        let b := piece_at address j in
        ipv6_swap k (pieceIndex - 1) compress (<[j := a]> (<[pieceIndex := b]> address))
  end.

Definition ipv6_parse (input : jsstring) : option (list N) :=
  let zero := replicate 8 0%N in
  let start :=
    match input with
    | c :: rest =>
        if ascii_eqb c ":" then
          match rest with
          | c' :: rest' => if ascii_eqb c' ":" then Some (rest', 1, Some 1) else None
          | [] => None
          end
        else Some (input, 0, None)
    | [] => Some (input, 0, None)
    end in
  match start with
  | None => None
  | Some (s, pieceIndex, compress) =>
      match ipv6_loop (S (length s)) zero pieceIndex compress s with
      | None => None
      | Some (address, pieceIndex', compress') =>
          match compress' with
          | Some cp => Some (ipv6_swap (pieceIndex' - cp) 7 cp address)
          | None => if (pieceIndex' =? 8)%nat then Some address else None
          end
      end
  end.

(** Start and length of the first longest run of two or more zero
    pieces. *)
Fixpoint zero_run (l : list N) : nat :=
  match l with
  | x :: rest => if (x =? 0)%N then S (zero_run rest) else 0
  | [] => 0
  end.

Fixpoint find_compress (i : nat) (l : list N) (best : option (nat * nat)) : option (nat * nat) :=
  match l with
  | [] => best
  | _ :: rest =>
      let n := zero_run l in
      let best' :=
        if (1 <? n)%nat then
          match best with
          | Some (_, m) => if (m <? n)%nat then Some (i, n) else best
          | None => Some (i, n)
          end
        else best in
      find_compress (S i) rest best'
  end.

Fixpoint ipv6_serialize_go (compress : option nat) (ignore0 : bool) (i : nat)
    (l : list N) : jsstring :=
  match l with
  | [] => []
  | x :: rest =>
      if ignore0 && (x =? 0)%N then ipv6_serialize_go compress true (S i) rest
      else if match compress with Some cp => (cp =? i)%nat | None => false end then
        (if (i =? 0)%nat then [":"; ":"] else [":"]) ++ ipv6_serialize_go compress true (S i) rest
      else
        N_to_hex x ++ (if (i =? 7)%nat then [] else [":"])
        ++ ipv6_serialize_go compress false (S i) rest
  end.

Definition ipv6_serialize (address : list N) : jsstring :=
  ipv6_serialize_go (option_map fst (find_compress 0 address None)) false 0 address.

(** ** The URL parser and serialiser

    [unicodeToASCII] stands for the Unicode part of the standard's "domain
    to ASCII" (UTF-8 decoding followed by UTS #46 processing), which needs
    the Unicode tables.  It is only consulted for a domain that has a
    non-ASCII byte or a label starting with [xn--]; on every other domain
    the standard fixes the result to be the ASCII lower-casing. *)

Section URLStandard.

Variable unicodeToASCII : jsstring -> option jsstring.

Definition is_ascii_string (s : jsstring) : bool :=
  forallb (fun c => (code c <? 128)%nat) s.

Definition has_punycode_label (s : jsstring) : bool :=
  existsb (fun label => jsstring_eqb (map to_lower (take 4 label)) (str "xn--"))
          (split "." s).

(** The domains on which the standard fixes the result without the
    Unicode tables. *)
Definition plain_ascii_domain (domain : jsstring) : bool :=
  is_ascii_string domain && negb (has_punycode_label domain).

Definition domain_to_ASCII (domain : jsstring) : option jsstring :=
  let result :=
    if plain_ascii_domain domain
    then Some (map to_lower domain)
    else unicodeToASCII domain in
  match result with
  | Some [] => None
  | r => r
  end.

Definition opaque_host_parse (input : jsstring) : option host :=
  if existsb forbidden_host_code_point input then None
  else Some (OpaqueHost (percent_encode_string c0_control_set input)).

Definition host_parse (isOpaque : bool) (input : jsstring) : option host :=
  match input with
  | c :: rest =>
      if ascii_eqb c "[" then
        match last rest with
        | Some e =>
            if ascii_eqb e "]" then option_map IPv6 (ipv6_parse (removelast rest))
            else None
        | None => None
        end
      else if isOpaque then opaque_host_parse input
      else
        match domain_to_ASCII (percent_decode input) with
        | None => None
        | Some asciiDomain =>
            if existsb forbidden_domain_code_point asciiDomain then None
            else if ends_in_number asciiDomain then option_map IPv4 (ipv4_parse asciiDomain)
            else Some (Domain asciiDomain)
        end
  | [] => if isOpaque then opaque_host_parse input else None
  end.

Definition host_serialize (h : host) : jsstring :=
  match h with
  | Domain d => d
  | IPv4 a => ipv4_serialize a
  | IPv6 pieces => "[" :: ipv6_serialize pieces ++ ["]"]
  | OpaqueHost o => o
  | EmptyHost => []
  end.

(** *** Scheme *)

Definition is_scheme_char (c : ascii) : bool :=
  is_alnum c || one_of ["+"; "-"; "."] c.

(** Scheme state: the lower-cased scheme and the input after the colon. *)
Fixpoint scheme_state (buffer : jsstring) (input : jsstring) : option (jsstring * jsstring) :=
  match input with
  | [] => None
  | c :: rest =>
      if is_scheme_char c then scheme_state (buffer ++ [to_lower c]) rest
      else if ascii_eqb c ":" then Some (buffer, rest)
      else None
  end.

(** Scheme start state; without a base URL the no-scheme state fails. *)
Definition scheme_start_state (input : jsstring) : option (jsstring * jsstring) :=
  match input with
  | c :: rest => if is_alpha c then scheme_state [to_lower c] rest else None
  | [] => None
  end.

(** *** Authority *)

(** The code points that end the authority, the host and the port. *)
Definition ends_authority (special : bool) (c : ascii) : bool :=
  one_of ["/"; "?"; "#"] c || (special && ascii_eqb c "\").

Fixpoint split_credentials (passwordTokenSeen : bool) (username password : jsstring)
    (buffer : jsstring) : bool * jsstring * jsstring :=
  match buffer with
  | [] => (passwordTokenSeen, username, password)
  | c :: rest =>
      if ascii_eqb c ":" && negb passwordTokenSeen
      then split_credentials true username password rest
      else
        let encoded := utf8_percent_encode userinfo_set c in
        if passwordTokenSeen
        then split_credentials passwordTokenSeen username (password ++ encoded) rest
        else split_credentials passwordTokenSeen (username ++ encoded) password rest
  end.

(** Authority state.  The result is the credentials and the input the host
    state starts from (the buffer is read again). *)
Fixpoint authority_state (special atSignSeen passwordTokenSeen : bool)
    (username password buffer : jsstring) (input : jsstring)
  : option (jsstring * jsstring * jsstring) :=
  match input with
  | [] =>
      if atSignSeen && negb (truthy buffer) then None
      else Some (username, password, buffer)
  | c :: rest =>
      if ascii_eqb c "@" then
        let buffer' := if atSignSeen then str "%40" ++ buffer else buffer in
        let '(seen, u, p) := split_credentials passwordTokenSeen username password buffer' in
        authority_state special true seen u p [] rest
      else if ends_authority special c then
        if atSignSeen && negb (truthy buffer) then None
        else Some (username, password, buffer ++ input)
      else authority_state special atSignSeen passwordTokenSeen username password
             (buffer ++ [c]) rest
  end.

(** Port state: the port and the input the path start state reads. *)
Fixpoint port_state (special : bool) (scheme buffer : jsstring) (input : jsstring)
  : option (option N * jsstring) :=
  let finish rest :=
    match buffer with
    | [] => Some (None, rest)
    | _ :: _ =>
        match parse_radix 10 buffer with
        | None => None
        | Some port =>
            if (65535 <? port)%N then None
            else if match default_port scheme with
                    | Some d => (d =? port)%N
                    | None => false
                    end
            then Some (None, rest)
            else Some (Some port, rest)
        end
    end in
  match input with
  | [] => finish []
  | c :: rest =>
      if is_digit c then port_state special scheme (buffer ++ [c]) rest
      else if ends_authority special c then finish input
      else None
  end.

(** Host state: host, port and the input the path start state reads. *)
Fixpoint host_state (special insideBrackets : bool) (scheme buffer : jsstring)
    (input : jsstring) : option (host * option N * jsstring) :=
  match input with
  | [] =>
      if special && negb (truthy buffer) then None
      else
        match host_parse (negb special) buffer with
        | None => None
        | Some h => Some (h, None, [])
        end
  | c :: rest =>
      if ascii_eqb c ":" && negb insideBrackets then
        if negb (truthy buffer) then None
        else
          match host_parse (negb special) buffer with
          | None => None
          | Some h =>
              match port_state special scheme [] rest with
              | None => None
              | Some (port, rest') => Some (h, port, rest')
              end
          end
      else if ends_authority special c then
        if special && negb (truthy buffer) then None
        else
          match host_parse (negb special) buffer with
          | None => None
          | Some h => Some (h, None, input)
          end
      else
        let insideBrackets' :=
          if ascii_eqb c "[" then true
          else if ascii_eqb c "]" then false
          else insideBrackets in
        host_state special insideBrackets' scheme (buffer ++ [c]) rest
  end.

(** *** Path, query, fragment *)

Definition lower_eqb (s : jsstring) (t : string) : bool :=
  jsstring_eqb (map to_lower s) (str t).

Definition is_single_dot (s : jsstring) : bool :=
  lower_eqb s "." || lower_eqb s "%2e".

Definition is_double_dot (s : jsstring) : bool :=
  lower_eqb s ".." || lower_eqb s ".%2e" || lower_eqb s "%2e." || lower_eqb s "%2e%2e".

Definition is_windows_drive_letter (s : jsstring) : bool :=
  match s with
  | [a; b] => is_alpha a && (ascii_eqb b ":" || ascii_eqb b "|")
  | _ => false
  end.

Definition is_normalized_windows_drive_letter (s : jsstring) : bool :=
  match s with
  | [a; b] => is_alpha a && ascii_eqb b ":"
  | _ => false
  end.

Definition shorten_path (is_file : bool) (path : list jsstring) : list jsstring :=
  match path with
  | [seg] => if is_file && is_normalized_windows_drive_letter seg then path else []
  | _ => removelast path
  end.

(** What the path state does with a finished segment; [slash] tells that
    the segment was ended by a path separator. *)
Definition push_segment (is_file slash : bool) (buffer : jsstring) (path : list jsstring)
  : list jsstring :=
  if is_double_dot buffer then
    let path' := shorten_path is_file path in
    if slash then path' else path' ++ [[]]
  else if is_single_dot buffer then
    if slash then path else path ++ [[]]
  else
    let buffer' :=
      match path, buffer with
      | [], [a; b] => if is_file && is_windows_drive_letter buffer then [a; ":"] else buffer
      | _, _ => buffer
      end in
    path ++ [buffer'].

(** Path state: the path and the rest of the input, which is empty or
    starts with [?] or [#]. *)
Fixpoint path_state (special is_file : bool) (path : list jsstring) (buffer : jsstring)
    (input : jsstring) : list jsstring * jsstring :=
  match input with
  | [] => (push_segment is_file false buffer path, [])
  | c :: rest =>
      let slash := ascii_eqb c "/" || (special && ascii_eqb c "\") in
      if slash then path_state special is_file (push_segment is_file true buffer path) [] rest
      else if ascii_eqb c "?" || ascii_eqb c "#"
      then (push_segment is_file false buffer path, input)
      else path_state special is_file path (buffer ++ utf8_percent_encode path_set c) rest
  end.

(** Path start state. *)
Definition path_start_state (special is_file : bool) (input : jsstring)
  : list jsstring * jsstring :=
  match input with
  | [] => if special then path_state special is_file [] [] [] else ([], [])
  | c :: rest =>
      if special then
        if ascii_eqb c "/" || ascii_eqb c "\"
        then path_state special is_file [] [] rest
        else path_state special is_file [] [] input
      else if ascii_eqb c "?" || ascii_eqb c "#" then ([], input)
      else if ascii_eqb c "/" then path_state special is_file [] [] rest
      else path_state special is_file [] [] input
  end.

(** Opaque path state. *)
Fixpoint opaque_path_state (path : jsstring) (input : jsstring) : jsstring * jsstring :=
  match input with
  | [] => (path, [])
  | c :: rest =>
      if ascii_eqb c "?" || ascii_eqb c "#" then (path, input)
      else if ascii_eqb c " " then
        match rest with
        | d :: _ =>
            if ascii_eqb d "?" || ascii_eqb d "#"
            then opaque_path_state (path ++ str "%20") rest
            else opaque_path_state (path ++ [c]) rest
        | [] => opaque_path_state (path ++ [c]) rest
        end
      else opaque_path_state (path ++ utf8_percent_encode c0_control_set c) rest
  end.

(** Fragment state, entered after [#]. *)
Definition fragment_state (input : jsstring) : jsstring :=
  percent_encode_string fragment_set input.

(** Query state, entered after [?]: the buffer runs up to [#] or the end
    of the input. *)
Fixpoint query_state (special : bool) (buffer : jsstring) (input : jsstring)
  : jsstring * option jsstring :=
  let encoded :=
    percent_encode_string (if special then special_query_set else query_set) buffer in
  match input with
  | [] => (encoded, None)
  | c :: rest =>
      if ascii_eqb c "#" then (encoded, Some (fragment_state rest))
      else query_state special (buffer ++ [c]) rest
  end.

(** The states after the path: [input] is empty or starts with [?] or
    [#]. *)
Definition query_and_fragment (special : bool) (input : jsstring)
  : option jsstring * option jsstring :=
  match input with
  | [] => (None, None)
  | c :: rest =>
      if ascii_eqb c "?" then
        let '(q, f) := query_state special [] rest in (Some q, f)
      else (None, Some (fragment_state rest))
  end.

(** *** The state machine from the authority on *)

Definition parse_from_authority (scheme : jsstring) (input : jsstring) : option URL :=
  let special := is_special scheme in
  match authority_state special false false [] [] [] input with
  | None => None
  | Some (username, password, input1) =>
      match host_state special false scheme [] input1 with
      | None => None
      | Some (h, port, input2) =>
          let '(path, input3) := path_start_state special false input2 in
          let '(q, f) := query_and_fragment special input3 in
          Some (mkURL scheme username password (Some h) port (PathList path) q f)
      end
  end.

(** Special authority slashes state, then special authority ignore
    slashes state. *)
Fixpoint special_authority_ignore_slashes_state (input : jsstring) : jsstring :=
  match input with
  | c :: rest =>
      if ascii_eqb c "/" || ascii_eqb c "\"
      then special_authority_ignore_slashes_state rest
      else input
  | [] => []
  end.

Definition special_authority_slashes_state (input : jsstring) : jsstring :=
  match input with
  | c :: d :: rest =>
      if ascii_eqb c "/" && ascii_eqb d "/"
      then special_authority_ignore_slashes_state rest
      else special_authority_ignore_slashes_state input
  | _ => special_authority_ignore_slashes_state input
  end.

(** *** The [file] scheme *)

Definition finish_file (h : host) (path : list jsstring) (input : jsstring) : URL :=
  let '(q, f) := query_and_fragment true input in
  mkURL (str "file") [] [] (Some h) None (PathList path) q f.

(** File host state. *)
Fixpoint file_host_state (buffer : jsstring) (input : jsstring) : option URL :=
  let at_end rest :=
    if is_windows_drive_letter buffer then
      let '(path, input') := path_state true true [] buffer rest in
      Some (finish_file EmptyHost path input')
    else
      match buffer with
      | [] =>
          let '(path, input') := path_start_state true true rest in
          Some (finish_file EmptyHost path input')
      | _ :: _ =>
          match host_parse false buffer with
          | None => None
          | Some h =>
              let h' :=
                match h with
                | Domain d => if jsstring_eqb d (str "localhost") then EmptyHost else h
                | _ => h
                end in
              let '(path, input') := path_start_state true true rest in
              Some (finish_file h' path input')
          end
      end in
  match input with
  | [] => at_end []
  | c :: rest =>
      if one_of ["/"; "\"; "?"; "#"] c then at_end input
      else file_host_state (buffer ++ [c]) rest
  end.

(** File state and file slash state, without a base URL. *)
Definition file_state (input : jsstring) : option URL :=
  let to_path rest :=
    let '(path, input') := path_state true true [] [] rest in
    Some (finish_file EmptyHost path input') in
  match input with
  | c :: rest =>
      if ascii_eqb c "/" || ascii_eqb c "\" then
        match rest with
        | d :: rest' =>
            if ascii_eqb d "/" || ascii_eqb d "\" then file_host_state [] rest'
            else to_path rest
        | [] => to_path rest
        end
      else to_path input
  | [] => to_path input
  end.

(** *** The basic URL parser, without base URL and state override *)

Fixpoint drop_c0_space (s : jsstring) : jsstring :=
  match s with
  | c :: rest => if is_c0_control_or_space c then drop_c0_space rest else s
  | [] => []
  end.

Definition strip_c0_space (input : jsstring) : jsstring :=
  rev (drop_c0_space (rev (drop_c0_space input))).

Definition remove_tab_newline (input : jsstring) : jsstring :=
  filter (fun c => is_tab_or_newline c = false) input.

Definition basic_url_parse (input : jsstring) : option URL :=
  let input := remove_tab_newline (strip_c0_space input) in
  match scheme_start_state input with
  | None => None
  | Some (scheme, rest) =>
      if jsstring_eqb scheme (str "file") then file_state rest
      else if is_special scheme
      then parse_from_authority scheme (special_authority_slashes_state rest)
      else
        match rest with
        | c :: rest1 =>
            if ascii_eqb c "/" then
              (* path or authority state *)
              match rest1 with
              | d :: rest2 =>
                  if ascii_eqb d "/" then parse_from_authority scheme rest2
                  else
                    let '(path, input') := path_state false false [] [] rest1 in
                    let '(q, f) := query_and_fragment false input' in
                    Some (mkURL scheme [] [] None None (PathList path) q f)
              | [] =>
                  let '(path, input') := path_state false false [] [] rest1 in
                  Some (mkURL scheme [] [] None None (PathList path) None None)
              end
            else
              let '(path, input') := opaque_path_state [] rest in
              let '(q, f) := query_and_fragment false input' in
              Some (mkURL scheme [] [] None None (OpaquePath path) q f)
        | [] => Some (mkURL scheme [] [] None None (OpaquePath []) None None)
        end
  end.

(** *** Serialiser and getters *)

Definition path_serialize (p : url_path) : jsstring :=
  match p with
  | OpaquePath o => o
  | PathList segments => flat_map (fun seg => "/" :: seg) segments
  end.

Definition url_serialize (u : URL) : jsstring :=
  url_scheme u ++ ":" ::
  match url_host u with
  | Some h =>
      str "//"
      ++ (if truthy (url_username u) || truthy (url_password u)
          then url_username u
               ++ (if truthy (url_password u) then ":" :: url_password u else [])
               ++ ["@"]
          else [])
      ++ host_serialize h
      ++ match url_port u with
         | Some p => ":" :: N_to_dec p
         | None => []
         end
  | None =>
      match url_path_of u with
      | PathList ([] :: _ :: _) => str "/."
      | _ => []
      end
  end
  ++ path_serialize (url_path_of u)
  ++ match url_query u with Some q => "?" :: q | None => [] end
  ++ match url_fragment u with Some f => "#" :: f | None => [] end.

(** [new URL(input)]; [None] is the [TypeError] exception. *)
Definition URL_new (input : jsstring) : option URL := basic_url_parse input.

(** [u.protocol], [u.hostname], [u.toString()] *)
Definition URL_protocol (u : URL) : jsstring := url_scheme u ++ [":"].

Definition URL_hostname (u : URL) : jsstring :=
  match url_host u with
  | Some h => host_serialize h
  | None => []
  end.

Definition URL_toString (u : URL) : jsstring := url_serialize u.

End URLStandard.

(** ** The request, the response and the effects of the handler *)

(** A value of [req.query]: absent, a string, or an array of strings when
    the parameter is repeated. *)
Inductive jsvalue : Type :=
| Undefined
| JString (s : jsstring)
| JArray (l : list jsstring).

(** [!!v] *)
Definition js_truthy (v : jsvalue) : bool :=
  match v with
  | Undefined => false
  | JString s => truthy s
  | JArray _ => true
  end.

(** [String(v)] *)
Definition ToString (v : jsvalue) : jsstring :=
  match v with
  | Undefined => str "undefined"
  | JString s => s
  | JArray l => join_comma l
  end.

Record request : Type := mkRequest {
  req_query : option (gmap string jsvalue)
}.

Record response : Type := mkResponse {
  resp_status : nat;
  resp_headers : gmap jsstring jsstring;
  resp_body : jsstring
}.

(** What the tracker call does: [fetch] resolves with some status (2xx or
    not), rejects on a network error, rejects because the 700 ms timer
    aborted it, or cannot be called at all ([fetch] or [AbortController]
    missing, a synchronous exception). *)
Inductive fetch_outcome : Type :=
| Resolves (status : nat)
| RejectsNetwork
| RejectsAborted
| NotCallable.

(** The mutable state a run of the handler touches: the [res] object, the
    responses it has emitted, the outbound requests, the error log. *)
Record world : Type := mkWorld {
  statusCode : nat;
  headers : gmap jsstring jsstring;
  sent : list response;
  outbound : list jsstring;
  console : list jsstring
}.

Definition fresh_world : world := mkWorld 200 ∅ [] [] [].

Inductive outcome (A : Type) : Type :=
| Returned (a : A)
| Thrown (e : jsstring).
Arguments Returned {A} a.
Arguments Thrown {A} e.

(** State and exception monad of the handler. *)
Definition js (A : Type) : Type := world -> outcome A * world.

Definition ret {A : Type} (a : A) : js A := fun w => (Returned a, w).

Definition bind {A B : Type} (m : js A) (k : A -> js B) : js B :=
  fun w =>
    match m w with
    | (Returned a, w') => k a w'
    | (Thrown e, w') => (Thrown e, w')
    end.

Definition throw {A : Type} (e : jsstring) : js A := fun w => (Thrown e, w).

(** [try { m } catch (e) { h e }] *)
Definition try_catch {A : Type} (m : js A) (h : jsstring -> js A) : js A :=
  fun w =>
    match m w with
    | (Returned a, w') => (Returned a, w')
    | (Thrown e, w') => h e w'
    end.

Notation "x <- m ;; k" := (bind m (fun x => k))
  (at level 62, m at next level, right associativity).
Notation "m ;;; k" := (bind m (fun _ => k))
  (at level 62, right associativity).

(** [res.statusCode = n] *)
Definition set_statusCode (n : nat) : js unit :=
  fun w => (Returned tt, mkWorld n (headers w) (sent w) (outbound w) (console w)).

(** [res.setHeader(name, value)]; header names are case-insensitive and
    kept under their lower-case form. *)
Definition setHeader (name value : jsstring) : js unit :=
  fun w =>
    (Returned tt,
     mkWorld (statusCode w) (<[map to_lower name := value]> (headers w))
             (sent w) (outbound w) (console w)).

(** [res.end(body)] emits the response. *)
Definition res_end (body : jsstring) : js unit :=
  fun w =>
    (Returned tt,
     mkWorld (statusCode w) (headers w)
             (sent w ++ [mkResponse (statusCode w) (headers w) body])
             (outbound w) (console w)).

(** [console.error(msg, err)] *)
Definition console_error (msg : jsstring) : js unit :=
  fun w =>
    (Returned tt,
     mkWorld (statusCode w) (headers w) (sent w) (outbound w) (console w ++ [msg])).

(** [await fetch(url, { method: 'GET', signal }).catch(() => {})] between
    the creation of the abort timer and [clearTimeout]. *)
Definition await_fetch (fetch : jsstring -> fetch_outcome) (url : jsstring) : js unit :=
  fun w =>
    match fetch url with
    | NotCallable => (Thrown (str "ReferenceError"), w)
    | Resolves _ | RejectsNetwork | RejectsAborted =>
        (Returned tt,
         mkWorld (statusCode w) (headers w) (sent w) (outbound w ++ [url]) (console w))
    end.

(** ** The source: [normalizeDest] and the exported handler *)

Section Source.

Variable unicodeToASCII : jsstring -> option jsstring.

(** [function normalizeDest(raw)] *)
Definition normalizeDest (raw : jsvalue) : option jsstring :=
  if negb (js_truthy raw) then None
  else
    let raw := ToString raw in
    let raw :=
      match decodeURIComponent raw with
      | Some decoded => decoded
      | None => raw
      end in
    let raw :=
      if negb (RegExp_test scheme_prefix_re raw) then str "https://" ++ raw else raw in
    match URL_new unicodeToASCII raw with
    | Some u =>
        if negb (RegExp_test http_protocol_re (URL_protocol u)) then None
        else Some (URL_toString u)
    | None => None
    end.

(** [allowed.split(',').map(s => s.trim()).filter(Boolean)] *)
Definition allowedList (allowed : jsstring) : list jsstring :=
  filter (fun s => truthy s = true) (map trim (split "," allowed)).

(** [host === a || host.endsWith('.' + a)] *)
Definition host_matches (host a : jsstring) : bool :=
  jsstring_eqb host a || endsWith host ("." :: a).

(** The three statements of each early exit: status, content type, body. *)
Definition plain_text (status : nat) (message : string) : js unit :=
  set_statusCode status ;;;
  setHeader (str "content-type") (str "text/plain; charset=utf-8") ;;;
  res_end (str message).

Definition redirect_body (dest : jsstring) : jsstring :=
  str "<html><body>Redirecting… If you are not redirected automatically, <a href="
  ++ "034" :: dest ++ "034" :: str ">click here</a>.</body></html>".

Definition tracker_url (TRACKER_URL : jsstring) (rid : jsvalue) (dest : jsstring) : jsstring :=
  TRACKER_URL
  ++ (if indexOf_is_minus1 "?" TRACKER_URL then str "?" else str "&")
  ++ str "action=track&rid="
  ++ encodeURIComponent (ToString (if js_truthy rid then rid else JString []))
  ++ str "&dest=" ++ encodeURIComponent dest.

(** [module.exports = async (req, res) => { ... }] *)
Definition handler (fetch : jsstring -> fetch_outcome) (env : gmap string jsstring)
    (req : request) : js unit :=
  try_catch
    (let query := default ∅ (req_query req) in
     let rid := match query !! "rid"%stdpp with Some Undefined | None => JString [] | Some v => v end in
     let rawDest := default Undefined (query !! "dest"%stdpp) in
     if negb (js_truthy rawDest) then plain_text 400 "Missing dest parameter"
     else
       match normalizeDest rawDest with
       | None => plain_text 400 "Invalid dest URL"
       | Some dest =>
           if negb (truthy dest) then plain_text 400 "Invalid dest URL"
           else
             let allowed := default [] (env !! "ALLOWED_DOMAINS"%stdpp) in
             denied <-
               (if truthy (trim allowed) then
                  match URL_new unicodeToASCII dest with
                  | None => throw (str "TypeError")
                  | Some u =>
                      let host := URL_hostname u in
                      let ok := existsb (host_matches host) (allowedList allowed) in
                      ret (negb ok)
                  end
                else ret false) ;;
             if denied : bool then plain_text 403 "Destination domain not allowed"
             else
               let TRACKER_URL := default [] (env !! "TRACKER_URL"%stdpp) in
               (if truthy TRACKER_URL then
                  try_catch
                    (await_fetch fetch (tracker_url TRACKER_URL rid dest))
                    (fun _ => ret tt)
                else ret tt) ;;;
               set_statusCode 302 ;;;
               setHeader (str "Location") dest ;;;
               setHeader (str "Content-Type") (str "text/html; charset=utf-8") ;;;
               res_end (redirect_body dest)
       end)
    (fun err =>
       console_error (str "redirect error") ;;;
       try_catch
         (set_statusCode 500 ;;;
          setHeader (str "Content-Type") (str "text/plain; charset=utf-8") ;;;
          res_end (str "Server error"))
         (fun _ => ret tt)).

(** One run of the handler on a fresh [res]. *)
Definition serve (fetch : jsstring -> fetch_outcome) (env : gmap string jsstring)
    (req : request) : world :=
  snd (handler fetch env req fresh_world).

End Source.

(** ** Specification-side notions

    These follow the words of the specification; the theorems below
    relate them to the source. *)

(** "letter, followed by letters/digits/+/-/., followed by [://]" *)
Definition has_scheme_prefix (s : jsstring) : Prop :=
  exists a sch rest,
    s = a :: sch ++ str "://" ++ rest
    /\ is_alpha a = true
    /\ Forall (fun c => is_scheme_char c = true) sch.

(** "scheme exactly http or https (case-insensitive)" *)
Definition is_http_scheme (scheme : jsstring) : Prop :=
  map to_lower scheme = str "http" \/ map to_lower scheme = str "https".

(** "Percent-decode once; if decoding fails, keep the original raw string" *)
Definition decoded_once (raw s : jsstring) : Prop :=
  decodeURIComponent raw = Some s \/ (decodeURIComponent raw = None /\ s = raw).

(** "If the string does not match an URI-scheme prefix pattern, prepend
    [https://]" *)
Definition scheme_defaulted (s s' : jsstring) : Prop :=
  (has_scheme_prefix s /\ s' = s) \/ (~ has_scheme_prefix s /\ s' = str "https://" ++ s).

(** The string handed to the URL parser: the raw value after one
    percent-decode and scheme-defaulting. *)
Definition prepared (raw s' : jsstring) : Prop :=
  exists s, decoded_once raw s /\ scheme_defaulted s s'.

(** "host ends with ["." + entry]" *)
Definition is_subdomain_of (host entry : jsstring) : Prop :=
  exists prefix, host = prefix ++ "." :: entry.

(** The responses of the response table. *)
Definition text_plain (status : nat) (message : string) : response :=
  mkResponse status
    {[ str "content-type" := str "text/plain; charset=utf-8" ]}
    (str message).

Definition redirect_to (dest : jsstring) : response :=
  mkResponse 302
    (<[ str "content-type" := str "text/html; charset=utf-8" ]>
       {[ str "location" := dest ]})
    (redirect_body dest).

(** The inputs of one request: the two query parameters and the two
    environment variables, with the defaults of the source. *)
Definition dest_of (req : request) : jsvalue :=
  default Undefined (default ∅ (req_query req) !! "dest"%stdpp).

Definition rid_of (req : request) : jsvalue :=
  match default ∅ (req_query req) !! "rid"%stdpp with
  | Some Undefined | None => JString []
  | Some v => v
  end.

Definition allowed_of (env : gmap string jsstring) : jsstring :=
  default [] (env !! "ALLOWED_DOMAINS"%stdpp).

Definition tracker_of (env : gmap string jsstring) : jsstring :=
  default [] (env !! "TRACKER_URL"%stdpp).

(** "the destination's hostname is allowed if it exactly equals one list
    entry OR ends with ["." + entry]" *)
Definition hostname_allowed (entries : list jsstring) (host : jsstring) : Prop :=
  exists e, In e entries /\ (host = e \/ is_subdomain_of host e).

(** The requests the tracker notifier is expected to issue. *)
Definition expected_outbound (fetch : jsstring -> fetch_outcome) (env : gmap string jsstring)
    (req : request) (dest : jsstring) : list jsstring :=
  if truthy (tracker_of env) then
    match fetch (tracker_url (tracker_of env) (rid_of req) dest) with
    | NotCallable => []
    | _ => [tracker_url (tracker_of env) (rid_of req) dest]
    end
  else [].

(** "always lowercase": no ASCII upper-case letter. *)
Definition no_upper (s : jsstring) : Prop := Forall (fun c => is_upper c = false) s.

(** The scheme is exactly [http] or [https]. *)
Definition http_or_https (scheme : jsstring) : Prop :=
  scheme = str "http" \/ scheme = str "https".

(** An instance of the Unicode part that rejects every domain it is asked
    about.  It is used to run the model on destinations whose host is
    plain ASCII without [xn--] labels, which never consult it. *)
Definition ascii_only : jsstring -> option jsstring := fun _ => None.

(** The request [?dest=<dest>&rid=<rid>]. *)
Definition get_request (dest rid : string) : request :=
  mkRequest (Some (<["dest"%stdpp := JString (str dest)]>
                     (<["rid"%stdpp := JString (str rid)]> ∅))).

(** The environment with [ALLOWED_DOMAINS] set, and the one with
    [TRACKER_URL] set. *)
Definition allow_env (allowed : string) : gmap string jsstring :=
  {[ "ALLOWED_DOMAINS"%stdpp := str allowed ]}.

Definition tracker_env (url : string) : gmap string jsstring :=
  {[ "TRACKER_URL"%stdpp := str url ]}.

(** ** The shape of a parsed [http] or [https] URL *)

(** No code point of the string is in the percent-encode set, so
    percent-encoding leaves the string as it is. *)
Definition safe (set : ascii -> bool) (s : jsstring) : Prop :=
  Forall (fun c => set c = false) s.

(** A path segment as the path state of a special URL leaves it. *)
Definition segment_ok (seg : jsstring) : Prop :=
  safe path_set seg
  /\ Forall (fun c => ascii_eqb c "/" = false /\ ascii_eqb c "\" = false) seg
  /\ is_single_dot seg = false
  /\ is_double_dot seg = false.

Definition port_ok (scheme : jsstring) (port : option N) : Prop :=
  match port with
  | Some p => (p <= 65535)%N /\ default_port scheme <> Some p
  | None => True
  end.

Record canonical_http (unicodeToASCII : jsstring -> option jsstring) (u : URL) : Prop :=
  mkCanonical {
    ch_scheme : http_or_https (url_scheme u);
    ch_username : safe userinfo_set (url_username u);
    ch_password : safe userinfo_set (url_password u);
    ch_host : exists h b, url_host u = Some h /\ host_parse unicodeToASCII false b = Some h;
    ch_port : port_ok (url_scheme u) (url_port u);
    ch_path : exists segs, url_path_of u = PathList segs /\ segs <> [] /\ Forall segment_ok segs;
    ch_query :
      match url_query u with
      | Some q => safe special_query_set q
      | None => True
      end;
    ch_fragment :
      match url_fragment u with
      | Some f => safe fragment_set f
      | None => True
      end
  }.

(** The buffer of the path state of a special URL. *)
Definition buffer_ok (buffer : jsstring) : Prop :=
  safe path_set buffer
  /\ Forall (fun c => ascii_eqb c "/" = false /\ ascii_eqb c "\" = false) buffer.

(** The numbers [base .. base + 2^k - 1], to check a property of every
    byte or every port by evaluation. *)
Fixpoint upto (k : nat) (base : N) : list N :=
  match k with
  | 0 => [base]
  | S k' => upto k' base ++ upto k' (base + 2 ^ N.of_nat k')%N
  end.

(** What is checked of the decimal form of every byte. *)
Definition dec_byte_check (x : N) : bool :=
  let s := N_to_dec x in
  truthy s && forallb is_digit s
  && match parse_ipv4_number s with Some y => (y =? x)%N | None => false end
  && negb (jsstring_eqb (map to_lower (take 4 s)) (str "xn--")).

Definition dot_or_digit (c : ascii) : Prop := is_digit c = true \/ c = ".".

(** Code points that can stand in the middle of a host name without
    ending it: no [:], [@], brackets, authority terminator, control
    character or space. *)
Definition host_char (c : ascii) : bool :=
  negb (one_of [":"; "@"; "["; "]"; "/"; "?"; "#"; "\"] c)
  && negb (is_c0_control_or_space c).

Definition printable (c : ascii) : bool := negb (is_c0_control_or_space c).

(** The three parts of the serialisation of a URL with a host. *)
Definition credentials_part (username password : jsstring) : jsstring :=
  if truthy username || truthy password
  then username ++ (if truthy password then ":" :: password else []) ++ ["@"]
  else [].

Definition port_part (port : option N) : jsstring :=
  match port with
  | Some p => ":" :: N_to_dec p
  | None => []
  end.

Definition query_fragment_part (query fragment : option jsstring) : jsstring :=
  match query with Some q => "?" :: q | None => [] end
  ++ match fragment with Some f => "#" :: f | None => [] end.

(** An IPv6 address: eight pieces of sixteen bits. *)
Definition ipv6_address_ok (address : list N) : Prop :=
  length address = 8 /\ Forall (fun x => (x < 65536)%N) address.

(** ** Notions for the further properties of the handler *)

(** The representation invariant of [jsstring]: the bytes are well-formed
    UTF-8, as the encoding of a JavaScript string without lone surrogates
    is. *)
Fixpoint utf8_well_formed (s : jsstring) : bool :=
  match s with
  | [] => true
  | a :: s1 =>
      if (code a <? 128)%nat then utf8_well_formed s1
      else
        match s1 with
        | [] => false
        | b :: s2 =>
            if valid_utf8_multibyte [code a; code b] then utf8_well_formed s2
            else
              match s2 with
              | [] => false
              | c :: s3 =>
                  if valid_utf8_multibyte [code a; code b; code c] then utf8_well_formed s3
                  else
                    match s3 with
                    | [] => false
                    | d :: s4 =>
                        valid_utf8_multibyte [code a; code b; code c; code d]
                        && utf8_well_formed s4
                    end
              end
        end
  end.

(** Characters that end a header line or open or close an HTML tag:
    control characters, the space, DEL, [<] and [>]. *)
Definition line_or_tag_break (c : ascii) : bool :=
  is_c0_control_or_space c || (code c =? 127)%nat || one_of ["<"; ">"] c.

(** Characters with a meaning of their own in a query string. *)
Definition query_delimiter (c : ascii) : bool :=
  one_of ["&"; "="; "?"; "#"; "+"; "/"; " "] c.

(** The request whose [dest] parameter is repeated: [req.query.dest] is an
    array. *)
Definition repeated_dest_request (dests : list jsstring) : request :=
  mkRequest (Some {[ "dest"%stdpp := JArray dests ]}).

(** Characters that stand between the parts of a URL, and the space: a
    host name holds none of them. *)
Definition url_delimiter (c : ascii) : bool :=
  one_of ["/"; "?"; "#"; "@"; "\"; " "] c.

(** ** The link of the redirect body *)

(** The value of a double-quoted HTML attribute, given the text that
    follows the opening quote: the characters before the next double
    quote. *)
Fixpoint quoted_value (s : jsstring) : jsstring :=
  match s with
  | [] => []
  | c :: rest => if ascii_eqb c "034" then [] else c :: quoted_value rest
  end.

(** The request [?dest=<dest>] for a destination given as a [jsstring]. *)
Definition request_of_dest (dest : jsstring) : request :=
  mkRequest (Some {[ "dest"%stdpp := JString dest ]}).

(** A host name with three double quotes in it, written [%22] here:
    [x%22onmouseover=%22alert(1)%22.example.com]. *)
Definition quoted_host : jsstring :=
  str "x" ++ "034" :: str "onmouseover=" ++ "034" :: str "alert(1)" ++ "034"
  :: str ".example.com".

(** The normalised form of that destination. *)
Definition quoted_dest : jsstring := str "https://" ++ quoted_host ++ str "/".
(** ** Characters *)

Lemma ascii_eqb_eq a b : ascii_eqb a b = true <-> a = b.
Proof. unfold ascii_eqb. apply Ascii.eqb_eq. Qed.

Lemma ascii_eqb_refl a : ascii_eqb a a = true.
Proof. by apply ascii_eqb_eq. Qed.

Lemma jsstring_eqb_eq s t : jsstring_eqb s t = true <-> s = t.
Proof.
  revert t. induction s as [|a s IH]; intros [|b t]; simpl; try (split; [discriminate|congruence]); [done|].
  rewrite andb_true_iff, ascii_eqb_eq, IH. split; [intros [-> ->]; done|]. by intros [= -> ->].
Qed.

Lemma jsstring_eqb_refl s : jsstring_eqb s s = true.
Proof. by apply jsstring_eqb_eq. Qed.

(** ** Regular expressions: the matcher decides [matches] *)

Lemma nullable_matches i r : nullable r = true <-> matches i r [].
Proof.
  split.
  - induction r; simpl; intros H; try discriminate.
    + constructor.
    + apply andb_true_iff in H as [H1 H2].
      change (@nil ascii) with (@nil ascii ++ []). constructor; auto.
    + apply orb_true_iff in H as [H|H]; [apply M_alt_l|apply M_alt_r]; auto.
    + constructor.
    + constructor.
  - intros H. remember [] as w eqn:Hw.
    induction H; simpl; try discriminate; auto.
    + destruct w1; [|discriminate]. simpl in Hw. rewrite IHmatches1, IHmatches2; auto.
    + rewrite IHmatches; auto.
    + rewrite IHmatches, orb_true_r; auto.
Qed.

Lemma star_cons_inv i r c w :
  matches i (Star r) (c :: w) ->
  exists w1 w2, w = w1 ++ w2 /\ matches i r (c :: w1) /\ matches i (Star r) w2.
Proof.
  intros H. remember (Star r) as r' eqn:Hr. remember (c :: w) as cw eqn:Hcw.
  revert w Hcw. induction H; intros w' Hcw; try discriminate.
  injection Hr as ->.
  destruct w1 as [|a w1].
  - simpl in Hcw. apply IHmatches2; auto.
  - simpl in Hcw. injection Hcw as -> <-. eauto.
Qed.

Ltac invc H := inversion H; subst; clear H.

Ltac inv_matches :=
  match goal with
  | H : matches _ Empty _ |- _ => invc H
  | H : matches _ Eps _ |- _ => invc H
  | H : matches _ (Chr _) _ |- _ => invc H
  | H : matches _ (Cls _) _ |- _ => invc H
  | H : matches _ (Cat _ _) _ |- _ => invc H
  | H : matches _ (Alt _ _) _ |- _ => invc H
  | H : matches _ (Opt _) _ |- _ => invc H
  end.

Lemma matches_cat_cons i r1 r2 c w1 w2 :
  matches i r1 (c :: w1) -> matches i r2 w2 -> matches i (Cat r1 r2) (c :: w1 ++ w2).
Proof. intros H1 H2. change (c :: w1 ++ w2) with ((c :: w1) ++ w2). by constructor. Qed.

Lemma matches_cat_nil i r1 r2 w :
  matches i r1 [] -> matches i r2 w -> matches i (Cat r1 r2) w.
Proof. intros H1 H2. change w with ([] ++ w). by constructor. Qed.

Lemma matches_cat_inv i r1 r2 w :
  matches i (Cat r1 r2) w ->
  exists w1 w2, w = w1 ++ w2 /\ matches i r1 w1 /\ matches i r2 w2.
Proof. intros H. invc H. eauto. Qed.

Lemma deriv_matches i c r w : matches i (deriv i c r) w <-> matches i r (c :: w).
Proof.
  revert w. induction r as [| |p|rs|r1 IH1 r2 IH2|r1 IH1 r2 IH2|r IH|r IH]; intros w; simpl.
  - split; intros H; inv_matches.
  - split; intros H; inv_matches.
  - destruct (chr_match i p c) eqn:E; split; intros H; inv_matches;
      try constructor; congruence.
  - destruct (cls_match i rs c) eqn:E; split; intros H; inv_matches;
      try constructor; congruence.
  - destruct (nullable r1) eqn:E; split; intros H.
    + inv_matches.
      * inv_matches. apply matches_cat_cons; [by apply IH1|done].
      * apply matches_cat_nil; [by apply nullable_matches|by apply IH2].
    + apply matches_cat_inv in H as (w1 & w2 & Heq & H1 & H2).
      destruct w1 as [|a w1]; simpl in Heq.
      * subst. apply M_alt_r. by apply IH2.
      * injection Heq as <- ->. apply M_alt_l. constructor; [by apply IH1|done].
    + inv_matches. apply matches_cat_cons; [by apply IH1|done].
    + apply matches_cat_inv in H as (w1 & w2 & Heq & H1 & H2).
      destruct w1 as [|a w1]; simpl in Heq.
      * apply (nullable_matches i) in H1. congruence.
      * injection Heq as <- ->. constructor; [by apply IH1|done].
  - split; intros H; inv_matches;
      first [apply M_alt_l; by apply IH1 | apply M_alt_r; by apply IH2].
  - split; intros H.
    + inv_matches. change (c :: w1 ++ w2) with ((c :: w1) ++ w2).
      constructor; [by apply IH|done].
    + apply star_cons_inv in H as (w1 & w2 & -> & H1 & H2).
      constructor; [by apply IH|done].
  - split; intros H.
    + apply M_opt_some. by apply IH.
    + inv_matches. by apply IH.
Qed.

Lemma match_here_full i r s : match_here i true r s = true <-> matches i r s.
Proof.
  revert r. induction s as [|c s IH]; intros r; simpl.
  - apply nullable_matches.
  - rewrite IH. apply deriv_matches.
Qed.

Lemma match_here_prefix i r s :
  match_here i false r s = true <-> exists w rest, s = w ++ rest /\ matches i r w.
Proof.
  revert r. induction s as [|c s IH]; intros r; simpl.
  - rewrite nullable_matches. split.
    + intros H. by exists [], [].
    + intros (w & rest & Hs & H). symmetry in Hs. apply app_eq_nil in Hs as [-> ->]. done.
  - rewrite orb_true_iff, IH, nullable_matches. split.
    + intros [H | (w & rest & -> & H)].
      * by exists [], (c :: s).
      * exists (c :: w), rest. split; [done|]. by apply deriv_matches.
    + intros (w & rest & Hs & H). destruct w as [|a w]; simpl in Hs.
      * by left.
      * injection Hs as -> ->. right. exists w, rest. split; [done|]. by apply deriv_matches.
Qed.

(** ** What the two regular expressions of the source accept *)

Lemma matches_cls i rs w :
  matches i (Cls rs) w <-> exists c, w = [c] /\ cls_match i rs c = true.
Proof. split; [intros H; invc H; eauto | intros (c & -> & H); by constructor]. Qed.

Lemma matches_chr i p w :
  matches i (Chr p) w <-> exists c, w = [c] /\ chr_match i p c = true.
Proof. split; [intros H; invc H; eauto | intros (c & -> & H); by constructor]. Qed.

Lemma matches_star_cls i rs w :
  matches i (Star (Cls rs)) w <-> Forall (fun c => cls_match i rs c = true) w.
Proof.
  split.
  - intros H. remember (Star (Cls rs)) as r eqn:Hr.
    induction H; try discriminate; [constructor|].
    injection Hr as ->. apply matches_cls in H as (c & -> & Hc).
    simpl. constructor; auto.
  - induction 1 as [|c w Hc _ IH]; [constructor|].
    change (c :: w) with ([c] ++ w). constructor; [by constructor|done].
Qed.

Lemma matches_lit s w :
  matches false (lit s) w <-> w = s.
Proof.
  revert w. induction s as [|p s IH]; intros w; simpl.
  - split; [intros H; by invc H | intros ->; constructor].
  - split.
    + intros H. apply matches_cat_inv in H as (w1 & w2 & -> & H1 & H2).
      apply matches_chr in H1 as (c & -> & Hc). apply IH in H2 as ->.
      simpl in Hc. apply ascii_eqb_eq in Hc as ->. done.
    + intros ->. change (p :: s) with ([p] ++ s).
      constructor; [constructor; simpl; apply ascii_eqb_refl | by apply IH].
Qed.

Lemma alpha_class c : cls_match false [("a", "z"); ("A", "Z")] c = is_alpha c.
Proof. destruct c as [[] [] [] [] [] [] [] []]; reflexivity. Qed.

Lemma scheme_class c :
  cls_match false [("a", "z"); ("A", "Z"); ("0", "9"); ("+", "+"); (".", "."); ("-", "-")] c
  = is_scheme_char c.
Proof. destruct c as [[] [] [] [] [] [] [] []]; reflexivity. Qed.

Lemma scheme_prefix_re_spec s :
  RegExp_test scheme_prefix_re s = true <-> has_scheme_prefix s.
Proof.
  unfold RegExp_test, scheme_prefix_re; simpl re_anchor_start; cbv iota.
  simpl re_ignoreCase; simpl re_anchor_end; simpl re_body.
  rewrite match_here_prefix. split.
  - intros (w & rest & -> & H).
    apply matches_cat_inv in H as (w1 & w23 & -> & H1 & H).
    apply matches_cat_inv in H as (w2 & w3 & -> & H2 & H3).
    apply matches_cls in H1 as (a & -> & Ha). pose proof (alpha_class a) as Ea.
    assert (is_alpha a = true) by (rewrite <- Ea; exact Ha).
    apply matches_star_cls in H2. apply (matches_lit (str "://")) in H3 as ->.
    exists a, w2, rest. split; [|split; [done|]].
    + simpl. by rewrite <- !app_assoc.
    + eapply Forall_impl; [exact H2|]. intros c Hc. rewrite <- scheme_class. exact Hc.
  - intros (a & sch & rest & -> & Ha & Hsch).
    exists (a :: sch ++ str "://"), rest. split.
    + simpl. by rewrite <- !app_assoc.
    + change (a :: sch ++ str "://") with ([a] ++ sch ++ str "://").
      constructor; [constructor; etrans; [apply alpha_class|done]|].
      constructor; [|by apply (matches_lit (str "://"))].
      apply matches_star_cls. eapply Forall_impl; [exact Hsch|].
      intros c Hc. etrans; [apply scheme_class|exact Hc].
Qed.

Lemma chr_match_ci c :
  chr_match true "h" c = ascii_eqb (to_lower c) "h"
  /\ chr_match true "t" c = ascii_eqb (to_lower c) "t"
  /\ chr_match true "p" c = ascii_eqb (to_lower c) "p"
  /\ chr_match true "s" c = ascii_eqb (to_lower c) "s"
  /\ chr_match true ":" c = ascii_eqb (to_lower c) ":".
Proof. destruct c as [[] [] [] [] [] [] [] []]; repeat split; reflexivity. Qed.

Lemma chr_match_lower x c :
  In x ["h"; "t"; "p"; "s"; ":"] -> chr_match true x c = true <-> to_lower c = x.
Proof.
  intros Hx. destruct (chr_match_ci c) as (? & ? & ? & ? & ?).
  rewrite <- ascii_eqb_eq. simpl in Hx.
  destruct Hx as [<-|[<-|[<-|[<-|[<-|[]]]]]];
    match goal with E : ?l = _ |- ?l = true <-> _ => rewrite E end; reflexivity.
Qed.

Lemma matches_lit_ci s w :
  Forall (fun x => In x ["h"; "t"; "p"; "s"; ":"]) s ->
  matches true (lit s) w <-> map to_lower w = s.
Proof.
  intros Hs. revert w. induction Hs as [|x s Hx _ IH]; intros w; simpl.
  - split; [intros H; by invc H | intros H; destruct w; [constructor|discriminate]].
  - split.
    + intros H. apply matches_cat_inv in H as (w1 & w2 & -> & H1 & H2).
      apply matches_chr in H1 as (c & -> & Hc). apply IH in H2.
      apply chr_match_lower in Hc; [|done]. simpl. congruence.
    + intros H. destruct w as [|c w]; [discriminate|]. simpl in H.
      injection H as Hc Hw. change (c :: w) with ([c] ++ w).
      constructor; [constructor; by apply chr_match_lower | by apply IH].
Qed.

Lemma http_protocol_re_spec p :
  RegExp_test http_protocol_re p = true
  <-> map to_lower p = str "http:" \/ map to_lower p = str "https:".
Proof.
  assert (Hlit : Forall (fun x => In x ["h"; "t"; "p"; "s"; ":"]) (str "http")).
  { repeat constructor; simpl; tauto. }
  unfold RegExp_test, http_protocol_re.
  cbn [re_anchor_start re_ignoreCase re_anchor_end re_body].
  rewrite match_here_full. split.
  - intros H.
    apply matches_cat_inv in H as (w1 & w23 & -> & H1 & H).
    apply matches_cat_inv in H as (w2 & w3 & -> & H2 & H3).
    apply (matches_lit_ci _ _ Hlit) in H1.
    apply matches_chr in H3 as (c3 & -> & Hc3).
    apply chr_match_lower in Hc3; [|simpl; tauto].
    rewrite !map_app, H1. invc H2.
    + left. simpl. by rewrite Hc3.
    + right. apply matches_chr in H0 as (c2 & -> & Hc2).
      apply chr_match_lower in Hc2; [|simpl; tauto]. simpl. by rewrite Hc2, Hc3.
  - intros [H|H].
    + destruct p as [|c1 [|c2 [|c3 [|c4 [|c5 [|c6 p]]]]]]; try discriminate H.
      injection H as H1 H2 H3 H4 H5.
      change [c1; c2; c3; c4; c5] with ([c1; c2; c3; c4] ++ [] ++ [c5]).
      constructor; [apply (matches_lit_ci _ _ Hlit); simpl; congruence|].
      constructor; [constructor|].
      constructor. apply chr_match_lower; [simpl; tauto|done].
    + destruct p as [|c1 [|c2 [|c3 [|c4 [|c5 [|c6 [|c7 p]]]]]]]; try discriminate H.
      injection H as H1 H2 H3 H4 H5 H6.
      change [c1; c2; c3; c4; c5; c6] with ([c1; c2; c3; c4] ++ [c5] ++ [c6]).
      constructor; [apply (matches_lit_ci _ _ Hlit); simpl; congruence|].
      constructor; [apply M_opt_some; constructor; apply chr_match_lower; [simpl; tauto|done]|].
      constructor. apply chr_match_lower; [simpl; tauto|done].
Qed.

(** ** The handler, path by path *)

Section HandlerPaths.

Variable unicodeToASCII : jsstring -> option jsstring.
Variable fetch : jsstring -> fetch_outcome.
Variable env : gmap string jsstring.

Lemma plain_text_run status msg w :
  plain_text status msg w
  = (Returned tt,
     mkWorld status (<[str "content-type" := str "text/plain; charset=utf-8"]> (headers w))
       (sent w ++ [mkResponse status
                     (<[str "content-type" := str "text/plain; charset=utf-8"]> (headers w))
                     (str msg)])
       (outbound w) (console w)).
Proof. reflexivity. Qed.

Lemma serve_missing req :
  js_truthy (dest_of req) = false ->
  serve unicodeToASCII fetch env req
  = mkWorld 400 {[ str "content-type" := str "text/plain; charset=utf-8" ]}
      [text_plain 400 "Missing dest parameter"] [] [].
Proof.
  intros H. unfold serve, handler, try_catch. fold (dest_of req).
  rewrite H. cbn [negb]. rewrite plain_text_run. reflexivity.
Qed.

Lemma serve_invalid req :
  js_truthy (dest_of req) = true ->
  normalizeDest unicodeToASCII (dest_of req) = None ->
  serve unicodeToASCII fetch env req
  = mkWorld 400 {[ str "content-type" := str "text/plain; charset=utf-8" ]}
      [text_plain 400 "Invalid dest URL"] [] [].
Proof.
  intros H1 H2. unfold serve, handler, try_catch. fold (dest_of req).
  rewrite H1, H2. cbn [negb]. rewrite plain_text_run. reflexivity.
Qed.

Lemma endsWith_spec s t : endsWith s t = true <-> exists p, s = p ++ t.
Proof.
  unfold endsWith. rewrite andb_true_iff, Nat.leb_le, jsstring_eqb_eq. split.
  - intros [Hlen Hd]. exists (take (length s - length t) s).
    transitivity (take (length s - length t) s ++ drop (length s - length t) s);
      [symmetry; apply take_drop | by rewrite Hd].
  - intros [p ->]. rewrite length_app. split; [lia|].
    replace (length p + length t - length t) with (length p) by lia.
    by rewrite drop_app_length.
Qed.

Lemma host_matches_spec host e :
  host_matches host e = true <-> host = e \/ is_subdomain_of host e.
Proof.
  unfold host_matches, is_subdomain_of.
  by rewrite orb_true_iff, jsstring_eqb_eq, endsWith_spec.
Qed.

Lemma allowlist_some_spec entries host :
  existsb (host_matches host) entries = true <-> hostname_allowed entries host.
Proof.
  unfold hostname_allowed. rewrite existsb_exists.
  split; intros (e & He & H); exists e; (split; [done|]); by apply host_matches_spec.
Qed.

Lemma serve_denied req d u :
  js_truthy (dest_of req) = true ->
  normalizeDest unicodeToASCII (dest_of req) = Some d ->
  truthy d = true ->
  truthy (trim (allowed_of env)) = true ->
  URL_new unicodeToASCII d = Some u ->
  ~ hostname_allowed (allowedList (allowed_of env)) (URL_hostname u) ->
  serve unicodeToASCII fetch env req
  = mkWorld 403 {[ str "content-type" := str "text/plain; charset=utf-8" ]}
      [text_plain 403 "Destination domain not allowed"] [] [].
Proof.
  intros H1 H2 H3 H4 H5 H6. unfold serve, handler, try_catch.
  fold (dest_of req) (allowed_of env).
  rewrite H1, H2, H3. cbn [negb]. unfold bind at 1. rewrite H4, H5.
  rewrite <- allowlist_some_spec in H6. apply not_true_is_false in H6. rewrite H6.
  cbn [ret negb]. rewrite plain_text_run. reflexivity.
Qed.

Lemma serve_error req d :
  js_truthy (dest_of req) = true ->
  normalizeDest unicodeToASCII (dest_of req) = Some d ->
  truthy d = true ->
  truthy (trim (allowed_of env)) = true ->
  URL_new unicodeToASCII d = None ->
  serve unicodeToASCII fetch env req
  = mkWorld 500 {[ str "content-type" := str "text/plain; charset=utf-8" ]}
      [text_plain 500 "Server error"] [] [str "redirect error"].
Proof.
  intros H1 H2 H3 H4 H5. unfold serve, handler, try_catch.
  fold (dest_of req) (allowed_of env).
  rewrite H1, H2, H3. cbn [negb]. unfold bind at 1. rewrite H4, H5.
  reflexivity.
Qed.

Lemma serve_redirect req d :
  js_truthy (dest_of req) = true ->
  normalizeDest unicodeToASCII (dest_of req) = Some d ->
  truthy d = true ->
  (truthy (trim (allowed_of env)) = false
   \/ exists u, URL_new unicodeToASCII d = Some u
        /\ hostname_allowed (allowedList (allowed_of env)) (URL_hostname u)) ->
  serve unicodeToASCII fetch env req
  = mkWorld 302
      (<[ str "content-type" := str "text/html; charset=utf-8" ]> {[ str "location" := d ]})
      [redirect_to d] (expected_outbound fetch env req d) [].
Proof.
  intros H1 H2 H3 H4. unfold serve, handler, try_catch at 1.
  fold (dest_of req) (allowed_of env) (tracker_of env) (rid_of req).
  rewrite H1, H2, H3. cbn [negb]. unfold bind at 1.
  assert (Hguard :
    (if truthy (trim (allowed_of env))
     then match URL_new unicodeToASCII d with
          | Some u => ret (negb (existsb (host_matches (URL_hostname u))
                                   (allowedList (allowed_of env))))
          | None => throw (str "TypeError")
          end
     else ret false) fresh_world = (Returned false, fresh_world)).
  { destruct H4 as [-> | (u & -> & Hu)]; [done|].
    apply allowlist_some_spec in Hu. rewrite Hu. destruct (truthy (trim _)); reflexivity. }
  rewrite Hguard. unfold expected_outbound.
  destruct (truthy (tracker_of env)); [|reflexivity].
  unfold bind at 1, try_catch, await_fetch.
  destruct (fetch _); reflexivity.
Qed.

End HandlerPaths.

(** ** Facts about the URL parser *)

Lemma to_lower_not_upper c : is_upper (to_lower c) = false.
Proof. destruct c as [[] [] [] [] [] [] [] []]; reflexivity. Qed.

Lemma to_lower_id c : is_upper c = false -> to_lower c = c.
Proof. unfold to_lower. by intros ->. Qed.

Lemma map_to_lower_no_upper s : no_upper (map to_lower s).
Proof. apply Forall_forall. intros c Hc. apply list_elem_of_fmap in Hc as (x & -> & _). apply to_lower_not_upper. Qed.

Lemma map_to_lower_id s : no_upper s -> map to_lower s = s.
Proof.
  induction 1 as [|c s Hc _ IH]; [done|]. simpl. by rewrite to_lower_id, IH.
Qed.

Section ParserFacts.

Variable unicodeToASCII : jsstring -> option jsstring.

Local Abbreviation URL_new := (URL_new unicodeToASCII).
Local Abbreviation basic_url_parse := (basic_url_parse unicodeToASCII).
Local Abbreviation parse_from_authority := (parse_from_authority unicodeToASCII).
Local Abbreviation host_state := (host_state unicodeToASCII).
Local Abbreviation host_parse := (host_parse unicodeToASCII).
Local Abbreviation file_state := (file_state unicodeToASCII).
Local Abbreviation file_host_state := (file_host_state unicodeToASCII).
Local Abbreviation normalizeDest := (normalizeDest unicodeToASCII).

Lemma url_serialize_truthy u : truthy (url_serialize u) = true.
Proof. unfold url_serialize. by destruct (url_scheme u). Qed.

Lemma scheme_state_no_upper buffer input scheme rest :
  scheme_state buffer input = Some (scheme, rest) ->
  no_upper buffer -> no_upper scheme.
Proof.
  revert buffer. induction input as [|c input IH]; intros buffer; simpl; [done|].
  destruct (is_scheme_char c).
  - intros H Hb. apply (IH _ H). apply Forall_app. split; [done|].
    repeat constructor. apply to_lower_not_upper.
  - destruct (ascii_eqb c ":"); [|done]. by intros [= -> ->].
Qed.

Lemma scheme_start_state_no_upper input scheme rest :
  scheme_start_state input = Some (scheme, rest) -> no_upper scheme.
Proof.
  destruct input as [|c input]; simpl; [done|]. destruct (is_alpha c); [|done].
  intros H. apply (scheme_state_no_upper _ _ _ _ H).
  repeat constructor. apply to_lower_not_upper.
Qed.

Lemma finish_file_scheme h path input : url_scheme (finish_file h path input) = str "file".
Proof. unfold finish_file. by destruct (query_and_fragment true input). Qed.

Ltac break_let :=
  repeat match goal with
  | |- context [let '(_, _) := ?e in _] => destruct e
  end.

Lemma file_host_state_scheme buffer input u :
  file_host_state buffer input = Some u -> url_scheme u = str "file".
Proof.
  revert buffer. induction input as [|c input IH]; intros buffer;
    cbn [file_host_state].
  - destruct (is_windows_drive_letter buffer).
    + break_let. intros [= <-]. apply finish_file_scheme.
    + destruct buffer.
      * break_let. intros [= <-]. apply finish_file_scheme.
      * destruct (host_parse _ _); [|done]. break_let.
        intros [= <-]. apply finish_file_scheme.
  - destruct (one_of _ c); [|apply IH].
    destruct (is_windows_drive_letter buffer).
    + break_let. intros [= <-]. apply finish_file_scheme.
    + destruct buffer.
      * break_let. intros [= <-]. apply finish_file_scheme.
      * destruct (host_parse _ _); [|done]. break_let.
        intros [= <-]. apply finish_file_scheme.
Qed.

Lemma file_state_scheme input u :
  file_state input = Some u -> url_scheme u = str "file".
Proof.
  unfold file_state.
  assert (Hp : forall rest,
    (let '(path, input') := path_state true true [] [] rest in
     Some (finish_file EmptyHost path input')) = Some u -> url_scheme u = str "file").
  { intros rest. destruct (path_state _ _ _ _ _). intros [= <-]. apply finish_file_scheme. }
  destruct input as [|c rest]; [apply Hp|].
  destruct (_ || _); [|apply Hp].
  destruct rest as [|d rest']; [apply Hp|].
  destruct (_ || _); [apply file_host_state_scheme|apply Hp].
Qed.

(** A successful parse from the authority keeps the scheme and yields a
    host produced by the host parser. *)
Lemma host_state_host special insideBrackets scheme buffer input h port rest :
  host_state special insideBrackets scheme buffer input = Some (h, port, rest) ->
  exists b, host_parse (negb special) b = Some h.
Proof.
  revert insideBrackets buffer. induction input as [|c input IH]; intros ib buffer; simpl.
  - destruct (special && negb (truthy buffer)); [done|].
    destruct (host_parse _ buffer) eqn:E; [|done]. intros [= <- _ _]. eauto.
  - destruct (ascii_eqb c ":" && negb ib).
    + destruct (negb (truthy buffer)); [done|].
      destruct (host_parse _ buffer) eqn:E; [|done].
      destruct (port_state _ _ _ _) as [[? ?]|]; [|done]. intros [= <- _ _]. eauto.
    + destruct (ends_authority special c).
      * destruct (special && negb (truthy buffer)); [done|].
        destruct (host_parse _ buffer) eqn:E; [|done]. intros [= <- _ _]. eauto.
      * apply IH.
Qed.

Lemma parse_from_authority_inv scheme input u :
  parse_from_authority scheme input = Some u ->
  url_scheme u = scheme
  /\ exists h b, url_host u = Some h /\ host_parse (negb (is_special scheme)) b = Some h.
Proof.
  unfold parse_from_authority.
  destruct (authority_state _ _ _ _ _ _ _) as [[[username password] input1]|]; [|done].
  destruct (host_state _ _ _ _ _) as [[[h port] input2]|] eqn:E; [|done].
  destruct (path_start_state _ _ _) as [path input3].
  destruct (query_and_fragment _ _) as [q f].
  intros [= <-]. simpl. split; [done|].
  apply host_state_host in E as [b Hb]. eauto.
Qed.

Lemma http_or_https_special scheme : http_or_https scheme -> is_special scheme = true.
Proof. by intros [-> | ->]. Qed.

Lemma http_or_https_not_file scheme :
  http_or_https scheme -> jsstring_eqb scheme (str "file") = false.
Proof. by intros [-> | ->]. Qed.

Lemma basic_url_parse_scheme input u :
  basic_url_parse input = Some u ->
  exists rest,
    scheme_start_state (remove_tab_newline (strip_c0_space input)) = Some (url_scheme u, rest).
Proof.
  unfold basic_url_parse.
  destruct (scheme_start_state _) as [[scheme rest]|]; [|done].
  destruct (jsstring_eqb scheme (str "file")) eqn:Ef.
  { intros H. apply file_state_scheme in H. apply jsstring_eqb_eq in Ef. subst.
    rewrite H. eauto. }
  destruct (is_special scheme).
  { intros H. apply parse_from_authority_inv in H as [<- _]. eauto. }
  destruct rest as [|c rest1]; [intros [= <-]; simpl; eauto|].
  destruct (ascii_eqb c "/").
  - destruct rest1 as [|d rest2].
    + destruct (path_state _ _ _ _ _). intros [= <-]. simpl. eauto.
    + destruct (ascii_eqb d "/").
      * intros H. apply parse_from_authority_inv in H as [<- _]. eauto.
      * destruct (path_state _ _ _ _ _). destruct (query_and_fragment _ _).
        intros [= <-]. simpl. eauto.
  - destruct (opaque_path_state _ _). destruct (query_and_fragment _ _).
    intros [= <-]. simpl. eauto.
Qed.

Lemma basic_url_parse_no_upper input u :
  basic_url_parse input = Some u -> no_upper (url_scheme u).
Proof.
  intros H. apply basic_url_parse_scheme in H as [rest H].
  by apply scheme_start_state_no_upper in H.
Qed.

(** A parsed URL whose scheme is [http] or [https] comes out of the
    authority states, with a host from the (non-opaque) host parser. *)
Lemma basic_url_parse_http input u :
  basic_url_parse input = Some u ->
  http_or_https (url_scheme u) ->
  exists h b, url_host u = Some h /\ host_parse false b = Some h.
Proof.
  unfold basic_url_parse.
  destruct (scheme_start_state _) as [[scheme rest]|]; [|done].
  destruct (jsstring_eqb scheme (str "file")) eqn:Ef.
  { intros H Hs. apply file_state_scheme in H. rewrite H in Hs. by destruct Hs. }
  destruct (is_special scheme) eqn:Es.
  { intros H _. apply parse_from_authority_inv in H as [_ (h & b & Hh & Hb)].
    rewrite Es in Hb. eauto. }
  assert (Hno : forall u', url_scheme u' = scheme -> http_or_https (url_scheme u') -> False).
  { intros u' <- Hs. apply http_or_https_special in Hs. congruence. }
  intros H Hs. exfalso. apply (Hno u); [|done]. clear Hs Hno.
  destruct rest as [|c rest1]; [by injection H as <-|].
  destruct (ascii_eqb c "/").
  - destruct rest1 as [|d rest2].
    + destruct (path_state _ _ _ _ _). by injection H as <-.
    + destruct (ascii_eqb d "/").
      * by apply parse_from_authority_inv in H as [<- _].
      * destruct (path_state _ _ _ _ _). destruct (query_and_fragment _ _).
        by injection H as <-.
  - destruct (opaque_path_state _ _). destruct (query_and_fragment _ _).
    by injection H as <-.
Qed.

(** The protocol test of the source accepts exactly the two schemes. *)
Lemma protocol_test_spec u :
  RegExp_test http_protocol_re (URL_protocol u) = true <-> is_http_scheme (url_scheme u).
Proof.
  rewrite http_protocol_re_spec. unfold URL_protocol, is_http_scheme.
  rewrite map_app. simpl (map to_lower [":"]).
  change (str "http:") with (str "http" ++ [":"]).
  change (str "https:") with (str "https" ++ [":"]).
  split; (intros [H|H]; [left|right]).
  1,2: by apply app_inj_tail in H as [H _].
  all: by rewrite H.
Qed.

Lemma is_http_scheme_exact input u :
  basic_url_parse input = Some u ->
  is_http_scheme (url_scheme u) -> http_or_https (url_scheme u).
Proof.
  intros H Hs. apply basic_url_parse_no_upper, map_to_lower_id in H.
  unfold is_http_scheme in Hs. by rewrite H in Hs.
Qed.

End ParserFacts.

(** ** Host names are lower-case *)

Lemma lower_hex_digit_no_upper n : (n < 16)%N -> is_upper (lower_hex_digit n) = false.
Proof.
  intros H. unfold lower_hex_digit.
  assert (Hk : N.to_nat n < 16) by lia. revert Hk. generalize (N.to_nat n) as k.
  intros k Hk. do 16 (destruct k as [|k]; [reflexivity|]). lia.
Qed.

Lemma N_to_radix_go_no_upper fuel radix n acc :
  (0 < radix <= 16)%N -> no_upper acc -> no_upper (N_to_radix_go fuel radix n acc).
Proof.
  intros Hr. revert n acc. induction fuel as [|fuel IH]; intros n acc Hacc; simpl; [done|].
  assert (Hd : no_upper (lower_hex_digit (n mod radix) :: acc)).
  { constructor; [|done]. apply lower_hex_digit_no_upper.
    pose proof (N.mod_lt n radix). lia. }
  destruct (_ =? _)%N; [done|]. by apply IH.
Qed.

Lemma N_to_dec_no_upper n : no_upper (N_to_dec n).
Proof. apply N_to_radix_go_no_upper; [lia|constructor]. Qed.

Lemma N_to_hex_no_upper n : no_upper (N_to_hex n).
Proof. apply N_to_radix_go_no_upper; [lia|constructor]. Qed.

Lemma no_upper_app s t : no_upper s -> no_upper t -> no_upper (s ++ t).
Proof. intros. by apply Forall_app. Qed.

Lemma no_upper_cons c s : is_upper c = false -> no_upper s -> no_upper (c :: s).
Proof. by constructor. Qed.

Lemma ipv4_serialize_no_upper a : no_upper (ipv4_serialize a).
Proof.
  unfold ipv4_serialize.
  repeat first [apply no_upper_app | apply no_upper_cons; [reflexivity|]
               | apply N_to_dec_no_upper].
Qed.

Lemma ipv6_serialize_go_no_upper compress ignore0 i l :
  no_upper (ipv6_serialize_go compress ignore0 i l).
Proof.
  revert ignore0 i. induction l as [|x l IH]; intros ignore0 i; simpl; [constructor|].
  destruct (ignore0 && _); [apply IH|].
  destruct (match compress with Some _ => _ | None => _ end).
  - apply no_upper_app; [|apply IH]. destruct (i =? 0)%nat; repeat constructor.
  - apply no_upper_app; [apply N_to_hex_no_upper|].
    apply no_upper_app; [|apply IH]. destruct (i =? 7)%nat; repeat constructor.
Qed.

Section HostNames.

Variable unicodeToASCII : jsstring -> option jsstring.

(** UTS #46 maps upper-case letters to lower case and Punycode output is
    lower-case: the one assumption on the Unicode part. *)
Hypothesis unicodeToASCII_lower : forall s r, unicodeToASCII s = Some r -> no_upper r.

Lemma domain_to_ASCII_no_upper domain r :
  domain_to_ASCII unicodeToASCII domain = Some r -> no_upper r.
Proof.
  unfold domain_to_ASCII.
  destruct (plain_ascii_domain domain).
  - destruct (map to_lower domain) eqn:E; [done|]. intros [= <-].
    rewrite <- E. apply map_to_lower_no_upper.
  - destruct (unicodeToASCII domain) as [r'|] eqn:E; [|done].
    apply unicodeToASCII_lower in E. destruct r'; [done|]. by intros [= <-].
Qed.

Lemma host_parse_no_upper b h :
  host_parse unicodeToASCII false b = Some h -> no_upper (host_serialize h).
Proof.
  unfold host_parse. destruct b as [|c rest]; [done|].
  destruct (ascii_eqb c "[").
  - destruct (last rest) as [e|]; [|done]. destruct (ascii_eqb e "]"); [|done].
    destruct (ipv6_parse _) as [pieces|]; [|done]. intros [= <-]. simpl.
    apply no_upper_cons; [done|]. apply no_upper_app; [|by repeat constructor].
    apply ipv6_serialize_go_no_upper.
  - destruct (domain_to_ASCII _ _) as [ad|] eqn:E; [|done].
    apply domain_to_ASCII_no_upper in E.
    destruct (existsb _ ad); [done|]. destruct (ends_in_number ad).
    + destruct (ipv4_parse ad) as [a|]; [|done]. intros [= <-].
      apply ipv4_serialize_no_upper.
    + by intros [= <-].
Qed.

(** The host name of every parsed [http] or [https] URL is lower-case. *)
Lemma http_hostname_no_upper input u :
  URL_new unicodeToASCII input = Some u ->
  http_or_https (url_scheme u) ->
  no_upper (URL_hostname u).
Proof.
  intros H Hs. apply basic_url_parse_http in H as (h & b & Hh & Hb); [|done].
  unfold URL_hostname. rewrite Hh. by apply host_parse_no_upper in Hb.
Qed.

End HostNames.

(** ** The serialisation of an [http] or [https] URL and its re-parse *)

Lemma drop_c0_space_app A b B :
  is_c0_control_or_space b = false ->
  drop_c0_space (A ++ b :: B) = drop_c0_space A ++ b :: B.
Proof.
  intros Hb. induction A as [|a A IH]; simpl; [by rewrite Hb|].
  destruct (is_c0_control_or_space a); [apply IH|done].
Qed.

Lemma preprocess_prefix P X :
  P <> [] ->
  Forall (fun c => is_c0_control_or_space c = false) P ->
  remove_tab_newline (strip_c0_space (P ++ X))
  = P ++ remove_tab_newline (rev (drop_c0_space (rev X))).
Proof.
  intros Hne HP. unfold strip_c0_space.
  assert (Hfront : drop_c0_space (P ++ X) = P ++ X).
  { destruct P as [|p P]; [done|]. simpl. apply Forall_cons in HP as [-> _]. done. }
  rewrite Hfront, rev_app_distr.
  destruct (rev P) as [|b B] eqn:Er.
  { apply (f_equal (@rev ascii)) in Er. rewrite rev_involutive in Er. done. }
  assert (Hb : is_c0_control_or_space b = false).
  { assert (Hin : In b (rev P)) by (rewrite Er; by left).
    apply in_rev in Hin. rewrite Forall_forall in HP. apply HP.
    by apply list_elem_of_In. }
  rewrite (drop_c0_space_app _ _ _ Hb).
  rewrite <- Er.
  rewrite rev_app_distr, rev_involutive. simpl app.
  unfold remove_tab_newline. rewrite filter_app. f_equal.
  clear -HP. induction HP as [|c P Hc _ IH]; [done|].
  rewrite filter_cons. destruct (decide _) as [_|Hn]; [by rewrite IH|].
  exfalso. apply Hn. unfold is_c0_control_or_space in Hc. unfold is_tab_or_newline.
  apply Nat.leb_gt in Hc.
  repeat (apply orb_false_intro); apply Nat.eqb_neq; lia.
Qed.

Section SerialisedPrefix.

Variable unicodeToASCII : jsstring -> option jsstring.

Lemma url_serialize_prefix u h :
  url_host u = Some h ->
  exists tail, url_serialize u = url_scheme u ++ str "://" ++ tail.
Proof.
  intros Hh. unfold url_serialize. rewrite Hh. eexists.
  f_equal.
Qed.

Lemma URL_new_http_prefix scheme tail u :
  http_or_https scheme ->
  URL_new unicodeToASCII (scheme ++ str "://" ++ tail) = Some u ->
  url_scheme u = scheme.
Proof.
  intros Hs H. apply basic_url_parse_scheme in H as [rest H].
  rewrite app_assoc in H. rewrite preprocess_prefix in H.
  - destruct Hs as [-> | ->]; simpl in H; by injection H as <- _.
  - by destruct Hs as [-> | ->].
  - destruct Hs as [-> | ->]; repeat constructor.
Qed.

Lemma scheme_prefix_test_http scheme tail :
  http_or_https scheme ->
  RegExp_test scheme_prefix_re (scheme ++ str "://" ++ tail) = true.
Proof. intros [-> | ->]; destruct tail; reflexivity. Qed.

End SerialisedPrefix.

(** ** [decodeURIComponent] *)

Lemma decode_go_no_percent s :
  ~ In "%" s -> decode_go [] 0 s = Some s.
Proof.
  induction s as [|c s IH]; intros Hn; simpl; [done|].
  destruct (ascii_eqb c "%") eqn:E.
  - apply ascii_eqb_eq in E. subst. exfalso. apply Hn. by left.
  - rewrite IH; [done|]. intros Hin. apply Hn. by right.
Qed.

(** ** [normalizeDest] against the steps of the specification *)

Section Normalisation.

Variable unicodeToASCII : jsstring -> option jsstring.

Local Abbreviation URL_new := (URL_new unicodeToASCII).
Local Abbreviation normalizeDest := (normalizeDest unicodeToASCII).

Lemma prepared_iff raw s' :
  prepared raw s'
  <-> s' = (let s := default raw (decodeURIComponent raw) in
            if RegExp_test scheme_prefix_re s then s else str "https://" ++ s).
Proof.
  unfold prepared, decoded_once, scheme_defaulted. cbv zeta. split.
  - intros (s & Hd & Hs).
    assert (Es : default raw (decodeURIComponent raw) = s).
    { destruct Hd as [-> | [-> ->]]; done. }
    rewrite Es. destruct Hs as [[H ->] | [H ->]].
    + apply scheme_prefix_re_spec in H. by rewrite H.
    + destruct (RegExp_test scheme_prefix_re s) eqn:E; [|done].
      apply scheme_prefix_re_spec in E. done.
  - intros ->. exists (default raw (decodeURIComponent raw)). split.
    + destruct (decodeURIComponent raw); simpl; auto.
    + destruct (RegExp_test scheme_prefix_re _) eqn:E.
      * left. split; [by apply scheme_prefix_re_spec|done].
      * right. split; [|done]. intros H. apply scheme_prefix_re_spec in H. congruence.
Qed.

Lemma prepared_functional raw s1 s2 : prepared raw s1 -> prepared raw s2 -> s1 = s2.
Proof. rewrite !prepared_iff. congruence. Qed.

Lemma prepared_exists raw : exists s', prepared raw s'.
Proof. eexists. by apply prepared_iff. Qed.

Lemma normalizeDest_unfold v s' :
  js_truthy v = true ->
  prepared (ToString v) s' ->
  normalizeDest v
  = match URL_new s' with
    | Some u =>
        if RegExp_test http_protocol_re (URL_protocol u) then Some (URL_toString u) else None
    | None => None
    end.
Proof.
  intros Hv Hp. apply prepared_iff in Hp. cbv zeta in Hp. subst s'.
  unfold normalizeDest. rewrite Hv. cbn [negb].
  destruct (decodeURIComponent (ToString v)) as [decoded|]; cbn [default];
    destruct (RegExp_test scheme_prefix_re _); cbn [negb];
    (destruct (URL_new _); [|done]); by destruct (RegExp_test _ _).
Qed.

Lemma normalizeDest_truthy v d : normalizeDest v = Some d -> js_truthy v = true.
Proof. unfold normalizeDest. by destruct (js_truthy v). Qed.

Lemma normalizeDest_Some v d :
  normalizeDest v = Some d ->
  exists s' u,
    prepared (ToString v) s' /\ URL_new s' = Some u
    /\ http_or_https (url_scheme u) /\ d = URL_toString u.
Proof.
  intros H. pose proof (normalizeDest_truthy _ _ H) as Hv.
  destruct (prepared_exists (ToString v)) as [s' Hp].
  rewrite (normalizeDest_unfold _ _ Hv Hp) in H.
  destruct (URL_new s') as [u|] eqn:Eu; [|done].
  destruct (RegExp_test _ _) eqn:Et; [|done]. injection H as <-.
  exists s', u. repeat split; try done.
  apply protocol_test_spec in Et. by apply (is_http_scheme_exact _ _ _ Eu).
Qed.

Lemma normalizeDest_None v s' :
  js_truthy v = true ->
  prepared (ToString v) s' ->
  normalizeDest v = None <-> (forall u, URL_new s' = Some u -> ~ is_http_scheme (url_scheme u)).
Proof.
  intros Hv Hp. rewrite (normalizeDest_unfold _ _ Hv Hp).
  destruct (URL_new s') as [u|] eqn:Eu; [|done].
  destruct (RegExp_test _ _) eqn:Et.
  - apply protocol_test_spec in Et. split; [done|]. intros H. by destruct (H u).
  - split; [|done]. intros _ u' [= <-] Hs. apply protocol_test_spec in Hs. congruence.
Qed.

(** A normalised destination starts with [http://] or [https://] and is
    never empty. *)
Lemma normalizeDest_prefix v d :
  normalizeDest v = Some d ->
  exists scheme tail, http_or_https scheme /\ d = scheme ++ str "://" ++ tail.
Proof.
  intros H. apply normalizeDest_Some in H as (s' & u & _ & Hu & Hs & ->).
  destruct (basic_url_parse_http _ _ _ Hu Hs) as (h & b & Hh & _).
  destruct (url_serialize_prefix _ _ Hh) as [tail Ht]. eauto.
Qed.

Lemma normalizeDest_nonempty v d : normalizeDest v = Some d -> truthy d = true.
Proof.
  intros H. apply normalizeDest_Some in H as (s' & u & _ & _ & _ & ->).
  apply url_serialize_truthy.
Qed.

(** Re-parsing a normalised destination gives an [http] or [https] URL. *)
Lemma normalizeDest_reparse v d u :
  normalizeDest v = Some d -> URL_new d = Some u -> http_or_https (url_scheme u).
Proof.
  intros H Hu. apply normalizeDest_prefix in H as (scheme & tail & Hs & ->).
  by rewrite (URL_new_http_prefix _ _ _ _ Hs Hu).
Qed.

End Normalisation.

(** ** A parsed [http] or [https] URL is canonical *)

Lemma percent_encode_safe_userinfo c : forallb (fun x => negb (userinfo_set x)) (utf8_percent_encode userinfo_set c) = true.
Proof. destruct c as [[] [] [] [] [] [] [] []]; reflexivity. Qed.

Lemma percent_encode_safe_path c :
  forallb (fun x => negb (path_set x) && negb (ascii_eqb x "/") && negb (ascii_eqb x "\"))
          (utf8_percent_encode path_set c) = true
  \/ ascii_eqb c "/" = true \/ ascii_eqb c "\" = true.
Proof. destruct c as [[] [] [] [] [] [] [] []]; auto. Qed.

Lemma percent_encode_safe_special_query c :
  forallb (fun x => negb (special_query_set x)) (utf8_percent_encode special_query_set c) = true.
Proof. destruct c as [[] [] [] [] [] [] [] []]; reflexivity. Qed.

Lemma percent_encode_safe_fragment c :
  forallb (fun x => negb (fragment_set x)) (utf8_percent_encode fragment_set c) = true.
Proof. destruct c as [[] [] [] [] [] [] [] []]; reflexivity. Qed.

Lemma safe_of_forallb set s : forallb (fun x => negb (set x)) s = true -> safe set s.
Proof.
  intros H. apply Forall_forall. intros c Hc. rewrite forallb_forall in H.
  apply list_elem_of_In, H in Hc. by apply negb_true_iff in Hc.
Qed.

Lemma safe_app set s t : safe set s -> safe set t -> safe set (s ++ t).
Proof. intros. by apply Forall_app. Qed.

Lemma percent_encode_string_safe set s :
  (forall c, forallb (fun x => negb (set x)) (utf8_percent_encode set c) = true) ->
  safe set (percent_encode_string set s).
Proof.
  intros Hset. induction s as [|c s IH]; [constructor|].
  unfold percent_encode_string. simpl. apply safe_app; [|exact IH].
  apply safe_of_forallb, Hset.
Qed.

Lemma percent_encode_string_id set s : safe set s -> percent_encode_string set s = s.
Proof.
  induction 1 as [|c s Hc _ IH]; [done|].
  unfold percent_encode_string in *. simpl. unfold utf8_percent_encode at 1.
  by rewrite Hc, IH.
Qed.

Lemma split_credentials_safe seen username password buffer seen' username' password' :
  split_credentials seen username password buffer = (seen', username', password') ->
  safe userinfo_set username -> safe userinfo_set password ->
  safe userinfo_set username' /\ safe userinfo_set password'.
Proof.
  revert seen username password. induction buffer as [|c buffer IH];
    intros seen username password; simpl.
  - intros [= _ <- <-]. auto.
  - destruct (ascii_eqb c ":" && negb seen); [apply IH|].
    destruct seen; intros H Hu Hp; apply (IH _ _ _ H); try done;
      apply safe_app; try done; apply safe_of_forallb, percent_encode_safe_userinfo.
Qed.

Lemma authority_state_safe special atSignSeen seen username password buffer input
    username' password' input' :
  authority_state special atSignSeen seen username password buffer input
  = Some (username', password', input') ->
  safe userinfo_set username -> safe userinfo_set password ->
  safe userinfo_set username' /\ safe userinfo_set password'.
Proof.
  revert atSignSeen seen username password buffer.
  induction input as [|c input IH]; intros atSignSeen seen username password buffer; simpl.
  - destruct (atSignSeen && negb (truthy buffer)); [done|]. intros [= <- <- _]. auto.
  - destruct (ascii_eqb c "@").
    + destruct (split_credentials _ _ _ _) as [[seen1 u1] p1] eqn:E.
      intros H Hu Hp. apply (IH _ _ _ _ _ H); by apply (split_credentials_safe _ _ _ _ _ _ _ E).
    + destruct (ends_authority special c); [|apply IH].
      destruct (atSignSeen && negb (truthy buffer)); [done|]. intros [= <- <- _]. auto.
Qed.

Lemma port_finish_ok scheme buffer (r : jsstring) port rest :
  match buffer with
  | [] => Some (None, r)
  | _ :: _ =>
      match parse_radix 10 buffer with
      | Some port0 =>
          if (65535 <? port0)%N then None
          else if match default_port scheme with
                  | Some d => (d =? port0)%N
                  | None => false
                  end
               then Some (None, r) else Some (Some port0, r)
      | None => None
      end
  end = Some (port, rest) -> port_ok scheme port /\ rest = r.
Proof.
  destruct buffer; [by intros [= <- <-]|].
  destruct (parse_radix 10 _) as [p|]; [|done].
  destruct (65535 <? p)%N eqn:E1; [done|]. apply N.ltb_ge in E1.
  destruct (default_port scheme) as [d|] eqn:Ed.
  - destruct (d =? p)%N eqn:E2; [by intros [= <- <-]|]. apply N.eqb_neq in E2.
    intros [= <- <-]. split; [|done]. split; [done|]. congruence.
  - intros [= <- <-]. split; [|done]. split; [done|]. congruence.
Qed.

Lemma port_state_ok special scheme buffer input port rest :
  port_state special scheme buffer input = Some (port, rest) -> port_ok scheme port.
Proof.
  revert buffer. induction input as [|c input IH]; intros buffer; simpl.
  - intros H. by apply port_finish_ok in H as [H _].
  - destruct (is_digit c); [apply IH|].
    destruct (ends_authority special c); [|done].
    intros H. by apply port_finish_ok in H as [H _].
Qed.

Section Canonical.

Variable unicodeToASCII : jsstring -> option jsstring.

Local Abbreviation host_state := (host_state unicodeToASCII).
Local Abbreviation host_parse := (host_parse unicodeToASCII).
Local Abbreviation parse_from_authority := (parse_from_authority unicodeToASCII).
Local Abbreviation basic_url_parse := (basic_url_parse unicodeToASCII).

Lemma host_state_port special insideBrackets scheme buffer input h port rest :
  host_state special insideBrackets scheme buffer input = Some (h, port, rest) ->
  port_ok scheme port.
Proof.
  revert insideBrackets buffer. induction input as [|c input IH]; intros ib buffer; simpl.
  - destruct (special && negb (truthy buffer)); [done|].
    destruct (host_parse _ buffer); [|done]. by intros [= _ <- _].
  - destruct (ascii_eqb c ":" && negb ib).
    + destruct (negb (truthy buffer)); [done|].
      destruct (host_parse _ buffer); [|done].
      destruct (port_state _ _ _ _) as [[p r]|] eqn:E; [|done]. intros [= _ <- _].
      by apply port_state_ok in E.
    + destruct (ends_authority special c); [|apply IH].
      destruct (special && negb (truthy buffer)); [done|].
      destruct (host_parse _ buffer); [|done]. by intros [= _ <- _].
Qed.

(** Path segments *)

Lemma segment_ok_nil : segment_ok [].
Proof. repeat split; constructor. Qed.

Lemma shorten_path_ok path :
  Forall segment_ok path -> Forall segment_ok (shorten_path false path).
Proof.
  intros H. unfold shorten_path. destruct path as [|seg [|seg' path]]; [done|constructor|].
  cbn [andb]. revert H. generalize (seg :: seg' :: path). clear.
  induction l as [|x l IH]; [done|]. intros H. apply Forall_cons in H as [Hx Hl].
  simpl. destruct l; [constructor|]. constructor; [done|]. by apply IH.
Qed.

Lemma push_segment_ok slash buffer path :
  buffer_ok buffer -> Forall segment_ok path ->
  Forall segment_ok (push_segment false slash buffer path).
Proof.
  intros [Hb1 Hb2] Hp. unfold push_segment.
  destruct (is_double_dot buffer) eqn:E2.
  - pose proof (shorten_path_ok _ Hp) as Hs.
    destruct slash; [done|]. apply Forall_app. split; [done|].
    repeat constructor.
  - destruct (is_single_dot buffer) eqn:E1.
    + destruct slash; [done|]. apply Forall_app. split; [done|]. repeat constructor.
    + apply Forall_app. split; [done|]. constructor; [|constructor].
      cbn [andb]. assert (Hbuf : segment_ok buffer) by (by repeat split).
      by destruct path, buffer as [|? [|? [|? ?]]].
Qed.

Lemma push_segment_nonempty buffer path : push_segment false false buffer path <> [].
Proof.
  unfold push_segment.
  destruct (is_double_dot buffer); [by destruct (shorten_path _ _)|].
  destruct (is_single_dot buffer); by destruct path.
Qed.

Lemma buffer_ok_app buffer c :
  buffer_ok buffer ->
  ascii_eqb c "/" = false -> ascii_eqb c "\" = false ->
  buffer_ok (buffer ++ utf8_percent_encode path_set c).
Proof.
  intros [H1 H2] Hs Hb.
  destruct (percent_encode_safe_path c) as [H | [H | H]]; [|congruence|congruence].
  rewrite forallb_forall in H. split; apply Forall_app; (split; [done|]);
    apply Forall_forall; intros x Hx; apply list_elem_of_In, H in Hx;
    apply andb_true_iff in Hx as [Hx Hx3]; apply andb_true_iff in Hx as [Hx1 Hx2];
    apply negb_true_iff in Hx1, Hx2, Hx3; auto.
Qed.

Lemma path_state_ok path buffer input path' rest :
  path_state true false path buffer input = (path', rest) ->
  buffer_ok buffer -> Forall segment_ok path ->
  Forall segment_ok path' /\ path' <> []
  /\ (rest = [] \/ exists c r, rest = c :: r /\ (c = "?" \/ c = "#")).
Proof.
  revert path buffer. induction input as [|c input IH]; intros path buffer; simpl.
  - intros [= <- <-] Hb Hp. split; [by apply push_segment_ok|].
    split; [apply push_segment_nonempty|by left].
  - destruct (ascii_eqb c "/" || ascii_eqb c "\") eqn:Es.
    + intros H Hb Hp. apply (IH _ _ H); [split; constructor|by apply push_segment_ok].
    + apply orb_false_iff in Es as [Es1 Es2].
      destruct (ascii_eqb c "?" || ascii_eqb c "#") eqn:Eq.
      * intros [= <- <-] Hb Hp. split; [by apply push_segment_ok|].
        split; [apply push_segment_nonempty|]. right. exists c, input. split; [done|].
        apply orb_true_iff in Eq as [Eq|Eq]; apply ascii_eqb_eq in Eq; auto.
      * intros H Hb Hp. apply (IH _ _ H); [by apply buffer_ok_app|done].
Qed.

Lemma path_start_state_ok input path rest :
  path_start_state true false input = (path, rest) ->
  Forall segment_ok path /\ path <> []
  /\ (rest = [] \/ exists c r, rest = c :: r /\ (c = "?" \/ c = "#")).
Proof.
  assert (Hnil : buffer_ok []) by (split; constructor).
  unfold path_start_state. destruct input as [|c input].
  - intros H. by apply path_state_ok in H.
  - destruct (_ || _); intros H; by apply path_state_ok in H.
Qed.

Lemma query_state_safe buffer input q f :
  query_state true buffer input = (q, f) ->
  safe special_query_set q
  /\ match f with Some f' => safe fragment_set f' | None => True end.
Proof.
  revert buffer. induction input as [|c input IH]; intros buffer; simpl.
  - intros [= <- <-]. split; [|done].
    apply percent_encode_string_safe, percent_encode_safe_special_query.
  - destruct (ascii_eqb c "#"); [|apply IH]. intros [= <- <-]. split.
    + apply percent_encode_string_safe, percent_encode_safe_special_query.
    + apply percent_encode_string_safe, percent_encode_safe_fragment.
Qed.

Lemma query_and_fragment_safe input q f :
  query_and_fragment true input = (q, f) ->
  match q with Some q' => safe special_query_set q' | None => True end
  /\ match f with Some f' => safe fragment_set f' | None => True end.
Proof.
  unfold query_and_fragment. destruct input as [|c input]; [by intros [= <- <-]|].
  destruct (ascii_eqb c "?").
  - destruct (query_state _ _ _) as [q0 f0] eqn:E. intros [= <- <-].
    by apply query_state_safe in E.
  - intros [= <- <-]. split; [done|].
    apply percent_encode_string_safe, percent_encode_safe_fragment.
Qed.

Lemma parse_from_authority_canonical scheme input u :
  http_or_https scheme ->
  parse_from_authority scheme input = Some u ->
  canonical_http unicodeToASCII u.
Proof.
  intros Hs. unfold parse_from_authority.
  rewrite (http_or_https_special _ Hs).
  destruct (authority_state _ _ _ _ _ _ _) as [[[username password] input1]|] eqn:Ea; [|done].
  destruct (host_state _ _ _ _ _) as [[[h port] input2]|] eqn:Eh; [|done].
  destruct (path_start_state _ _ _) as [path input3] eqn:Ep.
  destruct (query_and_fragment _ _) as [q f] eqn:Eq.
  intros [= <-].
  apply authority_state_safe in Ea as [Hu Hp]; [|constructor|constructor].
  pose proof (host_state_port _ _ _ _ _ _ _ _ Eh) as Hport.
  apply host_state_host in Eh as [b Hb].
  apply path_start_state_ok in Ep as (Hpath & Hne & _).
  apply query_and_fragment_safe in Eq as [Hq Hf].
  constructor; simpl; eauto.
Qed.

Lemma basic_url_parse_canonical input u :
  basic_url_parse input = Some u ->
  http_or_https (url_scheme u) ->
  canonical_http unicodeToASCII u.
Proof.
  unfold basic_url_parse.
  destruct (scheme_start_state _) as [[scheme rest]|]; [|done].
  destruct (jsstring_eqb scheme (str "file")) eqn:Ef.
  { intros H Hs. apply file_state_scheme in H. rewrite H in Hs. by destruct Hs. }
  destruct (is_special scheme) eqn:Es.
  { intros H Hs. pose proof (parse_from_authority_inv _ _ _ _ H) as [Hsch _].
    rewrite Hsch in Hs. by apply (parse_from_authority_canonical _ _ _ Hs H). }
  assert (Hno : forall u', url_scheme u' = scheme -> http_or_https (url_scheme u') -> False).
  { intros u' <- Hs. apply http_or_https_special in Hs. congruence. }
  intros H Hs. exfalso. apply (Hno u); [|done]. clear Hs Hno.
  destruct rest as [|c rest1]; [by injection H as <-|].
  destruct (ascii_eqb c "/").
  - destruct rest1 as [|d rest2].
    + destruct (path_state _ _ _ _ _). by injection H as <-.
    + destruct (ascii_eqb d "/").
      * by apply parse_from_authority_inv in H as [<- _].
      * destruct (path_state _ _ _ _ _). destruct (query_and_fragment _ _).
        by injection H as <-.
  - destruct (opaque_path_state _ _). destruct (query_and_fragment _ _).
    by injection H as <-.
Qed.

End Canonical.

(** ** Re-parsing the serialisation of a canonical URL *)

Lemma In_upto k base x : (x < 2 ^ N.of_nat k)%N -> In (base + x)%N (upto k base).
Proof.
  revert base x. induction k as [|k IH]; intros base x Hx.
  - simpl in *. left. lia.
  - cbn [upto]. apply in_or_app.
    rewrite Nat2N.inj_succ, N.pow_succ_r' in Hx.
    destruct (N.lt_ge_cases x (2 ^ N.of_nat k)) as [Hlt|Hge].
    + left. by apply IH.
    + right. replace (base + x)%N with (base + 2 ^ N.of_nat k + (x - 2 ^ N.of_nat k))%N by lia.
      apply IH. lia.
Qed.

Lemma forall_upto (P : N -> bool) k :
  forallb P (upto k 0) = true -> forall x, (x < 2 ^ N.of_nat k)%N -> P x = true.
Proof.
  intros H x Hx. rewrite forallb_forall in H. apply H.
  replace x with (0 + x)%N by lia. by apply In_upto.
Qed.

Lemma dec_byte_checked : forallb dec_byte_check (upto 8 0) = true.
Proof. vm_compute. reflexivity. Qed.

Lemma dec_byte_facts x :
  (x < 256)%N ->
  N_to_dec x <> []
  /\ Forall (fun c => is_digit c = true) (N_to_dec x)
  /\ parse_ipv4_number (N_to_dec x) = Some x
  /\ jsstring_eqb (map to_lower (take 4 (N_to_dec x))) (str "xn--") = false.
Proof.
  intros Hx. pose proof (forall_upto _ 8 dec_byte_checked x Hx) as H.
  unfold dec_byte_check in H. cbv zeta in H.
  apply andb_true_iff in H as [H H4]. apply andb_true_iff in H as [H H3].
  apply andb_true_iff in H as [H1 H2].
  split; [by destruct (N_to_dec x)|]. split.
  - apply Forall_forall. intros c Hc. rewrite forallb_forall in H2.
    by apply H2, list_elem_of_In.
  - split; [|by apply negb_true_iff in H4].
    destruct (parse_ipv4_number _) as [y|]; [|done]. apply N.eqb_eq in H3. by subst.
Qed.

(** Digits of a number: printing then parsing gives the number back. *)

Lemma hex_val_lower_hex_digit k :
  (k < 16)%N -> hex_val (lower_hex_digit k) = Some (N.to_nat k).
Proof.
  intros H. unfold lower_hex_digit.
  assert (Hk : N.to_nat k < 16) by lia. revert Hk. generalize (N.to_nat k) as n.
  intros n Hn. do 16 (destruct n as [|n]; [reflexivity|]). lia.
Qed.

Lemma digit_val_lower_hex_digit radix k :
  (k < radix <= 16)%N -> digit_val radix (lower_hex_digit k) = Some k.
Proof.
  intros H. unfold digit_val. rewrite hex_val_lower_hex_digit by lia.
  rewrite N2Nat.id. destruct (N.ltb_spec k radix); [done|lia].
Qed.

Lemma N_to_radix_go_parse radix fuel n acc :
  (2 <= radix <= 16)%N -> (n < 2 ^ N.of_nat fuel)%N ->
  fold_left
    (fun a c => match a, digit_val radix c with
                | Some m, Some d => Some (m * radix + d)%N
                | _, _ => None
                end)
    (N_to_radix_go fuel radix n acc) (Some 0%N)
  = fold_left
      (fun a c => match a, digit_val radix c with
                  | Some m, Some d => Some (m * radix + d)%N
                  | _, _ => None
                  end)
      acc (Some n).
Proof.
  intros Hr. revert n acc. induction fuel as [|fuel IH]; intros n acc Hn.
  - simpl in *. by replace n with 0%N by lia.
  - cbn [N_to_radix_go]. rewrite Nat2N.inj_succ, N.pow_succ_r' in Hn.
    assert (Hmod : (n mod radix < radix)%N) by (apply N.mod_lt; lia).
    assert (Hdiv : (n = radix * (n / radix) + n mod radix)%N) by (apply N.div_mod; lia).
    assert (Hq : (2 * (n / radix) <= radix * (n / radix))%N)
      by (apply N.mul_le_mono_r; lia).
    set (q := (n / radix)%N) in *. set (r := (n mod radix)%N) in *.
    set (P := (2 ^ N.of_nat fuel)%N) in *. set (X := (radix * q)%N) in *.
    assert (Hlt : (q < P)%N) by (clearbody q r P X; lia).
    assert (Hval : (q * radix + r = n)%N) by (subst X; clearbody q r P; lia).
    destruct (N.eqb_spec q 0) as [E|E].
    + cbn [fold_left]. rewrite digit_val_lower_hex_digit by lia.
      do 2 f_equal. clearbody q r P X. lia.
    + rewrite IH by exact Hlt. cbn [fold_left]. rewrite digit_val_lower_hex_digit by lia.
      by rewrite Hval.
Qed.

Lemma pos_lt_pow_size p : (N.pos p < 2 ^ N.of_nat (Pos.size_nat p))%N.
Proof.
  induction p as [p IH|p IH|]; cbn [Pos.size_nat];
    rewrite ?Nat2N.inj_succ, ?N.pow_succ_r'; simpl; lia.
Qed.

Lemma N_lt_pow_size n : (n < 2 ^ N.of_nat (S (N.size_nat n)))%N.
Proof.
  rewrite Nat2N.inj_succ, N.pow_succ_r'. destruct n as [|p]; simpl N.size_nat.
  - simpl. lia.
  - pose proof (pos_lt_pow_size p). lia.
Qed.

Lemma parse_N_to_radix radix n :
  (2 <= radix <= 16)%N -> parse_radix radix (N_to_radix radix n) = Some n.
Proof.
  intros Hr. unfold parse_radix, N_to_radix.
  rewrite N_to_radix_go_parse; [done|done|apply N_lt_pow_size].
Qed.

Lemma lower_hex_digit_is_digit k : (k < 10)%N -> is_digit (lower_hex_digit k) = true.
Proof.
  intros H. unfold lower_hex_digit.
  assert (Hk : N.to_nat k < 10) by lia. revert Hk. generalize (N.to_nat k) as n.
  intros n Hn. do 10 (destruct n as [|n]; [reflexivity|]). lia.
Qed.

Lemma N_to_dec_digits n : Forall (fun c => is_digit c = true) (N_to_dec n).
Proof.
  unfold N_to_dec, N_to_radix. generalize (S (N.size_nat n)) as fuel.
  assert (H : Forall (fun c => is_digit c = true) (@nil ascii)) by constructor.
  revert H. generalize (@nil ascii) as acc. intros acc H fuel. revert n acc H.
  induction fuel as [|fuel IH]; intros n acc H; cbn [N_to_radix_go]; [done|].
  assert (Hd : Forall (fun c => is_digit c = true) (lower_hex_digit (n mod 10) :: acc)).
  { constructor; [|done]. apply lower_hex_digit_is_digit. apply N.mod_lt. lia. }
  destruct (_ =? _)%N; [done|]. by apply IH.
Qed.

Lemma N_to_radix_go_nonempty fuel radix n acc :
  acc <> [] -> N_to_radix_go fuel radix n acc <> [].
Proof.
  revert n acc. induction fuel as [|fuel IH]; intros n acc H; cbn [N_to_radix_go]; [done|].
  destruct (_ =? _)%N; [discriminate|]. apply IH. discriminate.
Qed.

Lemma N_to_dec_nonempty n : N_to_dec n <> [].
Proof.
  unfold N_to_dec, N_to_radix. cbn [N_to_radix_go].
  destruct (_ =? _)%N; [discriminate|]. apply N_to_radix_go_nonempty. discriminate.
Qed.

(** *** Hosts *)

Lemma to_lower_ascii c : (code (to_lower c) <? 128)%nat = (code c <? 128)%nat.
Proof. destruct c as [[] [] [] [] [] [] [] []]; reflexivity. Qed.

Lemma to_lower_dot c : ascii_eqb (to_lower c) "." = ascii_eqb c ".".
Proof. destruct c as [[] [] [] [] [] [] [] []]; reflexivity. Qed.

Lemma to_lower_idem c : to_lower (to_lower c) = to_lower c.
Proof. apply to_lower_id, to_lower_not_upper. Qed.

Lemma is_ascii_string_lower s : is_ascii_string (map to_lower s) = is_ascii_string s.
Proof.
  unfold is_ascii_string. induction s as [|c s IH]; [done|].
  simpl. by rewrite to_lower_ascii, IH.
Qed.

Lemma split_nonempty sep s : split sep s <> [].
Proof. destruct s as [|c s]; simpl; [done|]. destruct (ascii_eqb c sep); [done|]. by destruct (split sep s). Qed.

Lemma split_map_to_lower s :
  split "." (map to_lower s) = map (map to_lower) (split "." s).
Proof.
  induction s as [|c s IH]; [done|]. simpl. rewrite to_lower_dot, IH.
  destruct (ascii_eqb c "."); [done|].
  pose proof (split_nonempty "." s). by destruct (split "." s).
Qed.

Lemma punycode_prefix_lower l :
  jsstring_eqb (map to_lower (take 4 (map to_lower l))) (str "xn--")
  = jsstring_eqb (map to_lower (take 4 l)) (str "xn--").
Proof.
  rewrite firstn_map, map_map.
  assert (E : map (fun x => to_lower (to_lower x)) (take 4 l) = map to_lower (take 4 l))
    by (apply map_ext; intros; apply to_lower_idem).
  by rewrite E.
Qed.

Lemma has_punycode_label_lower s :
  has_punycode_label (map to_lower s) = has_punycode_label s.
Proof.
  unfold has_punycode_label. rewrite split_map_to_lower.
  generalize (split "." s) as ls. intros ls.
  induction ls as [|l ls IH]; [done|].
  cbn [map existsb]. by rewrite IH, punycode_prefix_lower.
Qed.

Lemma plain_ascii_domain_lower s : plain_ascii_domain (map to_lower s) = plain_ascii_domain s.
Proof. unfold plain_ascii_domain. by rewrite is_ascii_string_lower, has_punycode_label_lower. Qed.

Lemma percent_decode_id s : ~ In "%" s -> percent_decode s = s.
Proof.
  induction s as [|c s IH]; intros Hn; simpl; [done|].
  destruct (ascii_eqb c "%") eqn:E.
  - apply ascii_eqb_eq in E. subst. exfalso. apply Hn. by left.
  - rewrite IH; [done|]. intros Hin. apply Hn. by right.
Qed.

Section HostReparse.

Variable unicodeToASCII : jsstring -> option jsstring.

Hypothesis unicodeToASCII_lower : forall s r, unicodeToASCII s = Some r -> no_upper r.
Hypothesis unicodeToASCII_stable :
  forall s r, unicodeToASCII s = Some r ->
              plain_ascii_domain r = true \/ unicodeToASCII r = Some r.

Local Abbreviation domain_to_ASCII := (domain_to_ASCII unicodeToASCII).
Local Abbreviation host_parse := (host_parse unicodeToASCII).

Lemma domain_to_ASCII_stable x d :
  domain_to_ASCII x = Some d -> domain_to_ASCII d = Some d.
Proof.
  unfold domain_to_ASCII.
  destruct (plain_ascii_domain x) eqn:Ex.
  - destruct (map to_lower x) as [|c l] eqn:E; [done|]. intros [= <-].
    rewrite <- E, plain_ascii_domain_lower, Ex.
    rewrite map_to_lower_id by apply map_to_lower_no_upper. by rewrite E.
  - destruct (unicodeToASCII x) as [r|] eqn:E; [|done].
    destruct r as [|c l]; [done|]. intros [= <-].
    pose proof (unicodeToASCII_lower _ _ E) as Hl.
    destruct (plain_ascii_domain (c :: l)) eqn:Ed.
    + by rewrite (map_to_lower_id _ Hl).
    + destruct (unicodeToASCII_stable _ _ E) as [H|H]; [congruence|]. by rewrite H.
Qed.

Lemma host_parse_domain_inv b d :
  host_parse false b = Some (Domain d) ->
  (exists x, domain_to_ASCII x = Some d)
  /\ existsb forbidden_domain_code_point d = false
  /\ ends_in_number d = false.
Proof.
  unfold host_parse. destruct b as [|c rest]; [done|].
  destruct (ascii_eqb c "[").
  - destruct (last rest) as [e|]; [|done]. destruct (ascii_eqb e "]"); [|done].
    by destruct (ipv6_parse _).
  - destruct (domain_to_ASCII _) as [ad|] eqn:E; [|done].
    destruct (existsb _ ad) eqn:Ef; [done|]. destruct (ends_in_number ad) eqn:En.
    + by destruct (ipv4_parse ad).
    + intros [= <-]. eauto.
Qed.

Lemma domain_nonempty x d : domain_to_ASCII x = Some d -> d <> [].
Proof.
  unfold domain_to_ASCII.
  destruct (if plain_ascii_domain x
            then Some (map to_lower x) else unicodeToASCII x) as [[|c l]|];
    [done| |done].
  by intros [= <-].
Qed.

Lemma not_forbidden_domain d c :
  existsb forbidden_domain_code_point d = false -> In c d ->
  forbidden_domain_code_point c = false.
Proof.
  intros H Hc. destruct (forbidden_domain_code_point c) eqn:E; [|done].
  assert (existsb forbidden_domain_code_point d = true); [|congruence].
  apply existsb_exists. eauto.
Qed.

Lemma domain_reparse b d :
  host_parse false b = Some (Domain d) -> host_parse false d = Some (Domain d).
Proof.
  intros H. apply host_parse_domain_inv in H as ([x Hx] & Hf & Hn).
  pose proof (domain_nonempty _ _ Hx) as Hne.
  pose proof (domain_to_ASCII_stable _ _ Hx) as Hst.
  unfold host_parse. destruct d as [|c rest]; [done|].
  assert (Hc : ascii_eqb c "[" = false).
  { destruct (ascii_eqb c "[") eqn:E; [|done]. apply ascii_eqb_eq in E. subst.
    by pose proof (not_forbidden_domain _ "[" Hf (or_introl eq_refl)). }
  rewrite Hc. cbn [negb].
  rewrite percent_decode_id.
  - by rewrite Hst, Hf, Hn.
  - intros Hin. by pose proof (not_forbidden_domain _ "%" Hf Hin).
Qed.

End HostReparse.

(** *** IPv4 addresses *)

Lemma bytes_of_address a :
  (a < 4294967296)%N ->
  (a / 16777216 mod 256 * 16777216 + a / 65536 mod 256 * 65536
   + a / 256 mod 256 * 256 + a mod 256 = a)%N.
Proof.
  intros H.
  pose proof (N.div_mod a 256 ltac:(lia)) as E1.
  pose proof (N.div_mod (a / 256) 256 ltac:(lia)) as E2.
  pose proof (N.div_mod (a / 256 / 256) 256 ltac:(lia)) as E3.
  rewrite !N.Div0.div_div in *.
  change (256 * 256)%N with 65536%N in *. change (65536 * 256)%N with 16777216%N in *.
  assert (a / 16777216 < 256)%N by (apply N.Div0.div_lt_upper_bound; lia).
  rewrite (N.mod_small (a / 16777216) 256) by lia.
  pose proof (N.mod_lt a 256 ltac:(lia)). pose proof (N.mod_lt (a / 256) 256 ltac:(lia)).
  pose proof (N.mod_lt (a / 65536) 256 ltac:(lia)).
  generalize dependent (a mod 256)%N. generalize dependent ((a / 256) mod 256)%N.
  generalize dependent ((a / 65536) mod 256)%N.
  generalize dependent (a / 16777216)%N. generalize dependent (a / 65536)%N.
  generalize dependent (a / 256)%N.
  intros. lia.
Qed.

Lemma sequence_options_length {A : Type} (l : list (option A)) r :
  sequence_options l = Some r -> length r = length l.
Proof.
  revert r. induction l as [|[x|] l IH]; intros r; simpl; [by intros [= <-]| |done].
  destruct (sequence_options l) as [r'|]; [|done]. intros [= <-]. simpl. by rewrite (IH r').
Qed.

Lemma ipv4_parse_bound s a : ipv4_parse s = Some a -> (a < 4294967296)%N.
Proof.
  unfold ipv4_parse. generalize (drop_last_empty (split "." s)) as parts. intros parts.
  destruct (4 <? length parts)%nat eqn:El; [done|]. apply Nat.ltb_ge in El.
  destruct (sequence_options _) as [numbers|] eqn:Es; [|done].
  apply sequence_options_length in Es. rewrite length_map in Es.
  destruct numbers as [|n1 [|n2 [|n3 [|n4 [|n5 more]]]]]; cbn [last removelast existsb];
    cbn [length] in Es; try lia; try done;
    repeat match goal with
    | |- context [(?x <? ?y)%N] => destruct (N.ltb_spec x y); cbn [orb]; try done
    end;
    cbn [length]; 
    match goal with
    | |- context [(?x <=? ?y)%N] =>
        let x' := eval vm_compute in x in
        change x with x'; destruct (N.leb_spec x' y); try done
    end;
    intros [= <-]; vm_compute imap; cbn [fold_left fst snd];
    repeat match goal with
    | |- context [(256 ^ ?e)%N] => let v := eval vm_compute in (256 ^ e)%N in change (256 ^ e)%N with v
    end; lia.
Qed.

Lemma split_digits_dot A R :
  Forall (fun c => is_digit c = true) A ->
  split "." (A ++ "." :: R) = A :: split "." R.
Proof.
  induction 1 as [|c A Hc _ IH]; [done|]. simpl.
  assert (E : ascii_eqb c "." = false).
  { destruct (ascii_eqb c ".") eqn:E; [|done]. apply ascii_eqb_eq in E. by subst. }
  by rewrite E, IH.
Qed.

Lemma split_digits D : Forall (fun c => is_digit c = true) D -> split "." D = [D].
Proof.
  induction 1 as [|c D Hc _ IH]; [done|]. simpl.
  assert (E : ascii_eqb c "." = false).
  { destruct (ascii_eqb c ".") eqn:E; [|done]. apply ascii_eqb_eq in E. by subst. }
  by rewrite E, IH.
Qed.

Lemma dot_or_digit_facts c :
  dot_or_digit c ->
  c <> "%" /\ c <> "[" /\ (code c <? 128)%nat = true
  /\ forbidden_domain_code_point c = false /\ is_upper c = false.
Proof.
  intros [H | ->]; [|by repeat split].
  destruct c as [[] [] [] [] [] [] [] []]; try discriminate H; by repeat split.
Qed.

Section IPv4Reparse.

Variable unicodeToASCII : jsstring -> option jsstring.

Local Abbreviation host_parse := (host_parse unicodeToASCII).

Lemma host_parse_ipv4_inv b a :
  host_parse false b = Some (IPv4 a) -> exists ad, ipv4_parse ad = Some a.
Proof.
  unfold host_parse. destruct b as [|c rest]; [done|].
  destruct (ascii_eqb c "[").
  - destruct (last rest) as [e|]; [|done]. destruct (ascii_eqb e "]"); [|done].
    by destruct (ipv6_parse _).
  - destruct (domain_to_ASCII _ _) as [ad|]; [|done].
    destruct (existsb _ ad); [done|]. destruct (ends_in_number ad); [|done].
    destruct (ipv4_parse ad) eqn:E; [|done]. intros [= <-]. eauto.
Qed.

Lemma host_parse_dotted A B C D x1 x2 x3 x4 :
  let ok s x :=
    s <> [] /\ Forall (fun c => is_digit c = true) s
    /\ parse_ipv4_number s = Some x /\ (x < 256)%N
    /\ jsstring_eqb (map to_lower (take 4 s)) (str "xn--") = false in
  ok A x1 -> ok B x2 -> ok C x3 -> ok D x4 ->
  host_parse false (A ++ "." :: B ++ "." :: C ++ "." :: D)
  = Some (IPv4 (x1 * 16777216 + x2 * 65536 + x3 * 256 + x4)%N).
Proof.
  intros ok (HA1 & HA2 & HA3 & HA4 & HA5) (HB1 & HB2 & HB3 & HB4 & HB5)
    (HC1 & HC2 & HC3 & HC4 & HC5) (HD1 & HD2 & HD3 & HD4 & HD5).
  set (S := A ++ "." :: B ++ "." :: C ++ "." :: D).
  assert (Hall : Forall dot_or_digit S).
  { unfold S. repeat first [apply Forall_app; split | apply Forall_cons; split; [by right|]];
      (eapply Forall_impl; [eassumption|]); intros c Hc; by left. }
  assert (Hsplit : split "." S = [A; B; C; D]).
  { unfold S. by rewrite !split_digits_dot, split_digits. }
  assert (Hpct : ~ In "%" S).
  { intros Hin. rewrite Forall_forall in Hall. apply list_elem_of_In, Hall in Hin.
    by apply dot_or_digit_facts in Hin as (? & _). }
  assert (Hascii : is_ascii_string S = true).
  { apply forallb_forall. intros c Hc. rewrite Forall_forall in Hall.
    apply list_elem_of_In, Hall in Hc. by apply dot_or_digit_facts in Hc as (_ & _ & ? & _). }
  assert (Hforb : existsb forbidden_domain_code_point S = false).
  { apply not_true_is_false. intros H. apply existsb_exists in H as (c & Hc & Hf).
    rewrite Forall_forall in Hall. apply list_elem_of_In, Hall in Hc.
    apply dot_or_digit_facts in Hc as (_ & _ & _ & ? & _). congruence. }
  assert (Hlow : map to_lower S = S).
  { apply map_to_lower_id. eapply Forall_impl; [exact Hall|].
    intros c Hc. by apply dot_or_digit_facts in Hc as (_ & _ & _ & _ & ?). }
  assert (Hpuny : has_punycode_label S = false).
  { unfold has_punycode_label. rewrite Hsplit. cbn [existsb]. by rewrite HA5, HB5, HC5, HD5. }
  assert (HDdig : forallb is_digit D = true).
  { apply forallb_forall. intros c Hc. rewrite Forall_forall in HD2.
    by apply HD2, list_elem_of_In. }
  assert (Hends : ends_in_number S = true).
  { unfold ends_in_number. rewrite Hsplit. cbn [last].
    destruct D as [|d D']; [done|]. by rewrite HDdig. }
  assert (Hparse : ipv4_parse S = Some (x1 * 16777216 + x2 * 65536 + x3 * 256 + x4)%N).
  { unfold ipv4_parse, drop_last_empty. rewrite Hsplit. cbn [last].
    destruct D as [|d D']; [done|]. cbn [length Nat.ltb Nat.leb map].
    rewrite HA3, HB3, HC3, HD3. cbn [sequence_options option_map last removelast existsb length].
    destruct (N.ltb_spec 255 x1); [lia|]. destruct (N.ltb_spec 255 x2); [lia|].
    destruct (N.ltb_spec 255 x3); [lia|]. cbn [orb].
    change (256 ^ (5 - N.of_nat 4))%N with 256%N.
    destruct (N.leb_spec 256 x4); [lia|].
    vm_compute imap. cbn [fold_left fst snd].
    change (256 ^ (3 - N.of_nat 0))%N with 16777216%N.
    change (256 ^ (3 - N.of_nat 1))%N with 65536%N.
    change (256 ^ (3 - N.of_nat 2))%N with 256%N.
    f_equal. lia. }
  unfold host_parse. fold S.
  destruct S as [|c rest] eqn:ES; [by destruct A|].
  assert (Hc : ascii_eqb c "[" = false).
  { apply Forall_cons in Hall as [Hc _]. apply dot_or_digit_facts in Hc as (_ & Hc & _).
    destruct (ascii_eqb c "[") eqn:E; [|done]. by apply ascii_eqb_eq in E. }
  rewrite Hc. cbn [negb]. rewrite (percent_decode_id _ Hpct).
  unfold domain_to_ASCII, plain_ascii_domain. rewrite Hascii, Hpuny, Hlow. cbn [negb andb].
  by rewrite Hforb, Hends, Hparse.
Qed.

Lemma ipv4_reparse b a :
  host_parse false b = Some (IPv4 a) ->
  host_parse false (ipv4_serialize a) = Some (IPv4 a).
Proof.
  intros H. apply host_parse_ipv4_inv in H as [ad H]. apply ipv4_parse_bound in H.
  unfold ipv4_serialize.
  assert (Hb : forall x, (x mod 256 < 256)%N) by (intros; apply N.mod_lt; lia).
  rewrite (host_parse_dotted _ _ _ _ (a / 16777216 mod 256) (a / 65536 mod 256)
             (a / 256 mod 256) (a mod 256))%N.
  - by rewrite bytes_of_address.
  - destruct (dec_byte_facts _ (Hb (a / 16777216)%N)) as (? & ? & ? & ?). repeat split; auto.
  - destruct (dec_byte_facts _ (Hb (a / 65536)%N)) as (? & ? & ? & ?). repeat split; auto.
  - destruct (dec_byte_facts _ (Hb (a / 256)%N)) as (? & ? & ? & ?). repeat split; auto.
  - destruct (dec_byte_facts _ (Hb a)) as (? & ? & ? & ?). repeat split; auto.
Qed.

End IPv4Reparse.

(** *** Scanning lemmas: each state reads its own part of the
    serialisation and stops at the next delimiter *)

Lemma printable_userinfo c : userinfo_set c = false -> printable c = true.
Proof. destruct c as [[] [] [] [] [] [] [] []]; done. Qed.

Lemma printable_path c : path_set c = false -> printable c = true.
Proof. destruct c as [[] [] [] [] [] [] [] []]; done. Qed.

Lemma printable_special_query c : special_query_set c = false -> printable c = true.
Proof. destruct c as [[] [] [] [] [] [] [] []]; done. Qed.

Lemma printable_fragment c : fragment_set c = false -> printable c = true.
Proof. destruct c as [[] [] [] [] [] [] [] []]; done. Qed.

Lemma printable_digit c : is_digit c = true -> printable c = true.
Proof. destruct c as [[] [] [] [] [] [] [] []]; done. Qed.

Lemma host_char_printable c : host_char c = true -> printable c = true.
Proof. unfold host_char. by intros [_ H]%andb_true_iff. Qed.

Lemma host_char_not_forbidden c : forbidden_domain_code_point c = false -> host_char c = true.
Proof. destruct c as [[] [] [] [] [] [] [] []]; done. Qed.

Lemma host_char_dot_or_digit c : dot_or_digit c -> host_char c = true.
Proof.
  intros [H | ->]; [|done]. by destruct c as [[] [] [] [] [] [] [] []].
Qed.

Lemma userinfo_char_facts c :
  userinfo_set c = false ->
  ascii_eqb c "@" = false /\ ends_authority true c = false /\ ascii_eqb c ":" = false.
Proof. destruct c as [[] [] [] [] [] [] [] []]; done. Qed.

Lemma host_char_facts c :
  host_char c = true ->
  ascii_eqb c "@" = false /\ ends_authority true c = false /\ ascii_eqb c ":" = false
  /\ ascii_eqb c "[" = false /\ ascii_eqb c "]" = false.
Proof. destruct c as [[] [] [] [] [] [] [] []]; done. Qed.

Lemma digit_char_facts c :
  is_digit c = true -> ascii_eqb c "@" = false /\ ends_authority true c = false.
Proof. destruct c as [[] [] [] [] [] [] [] []]; done. Qed.

Lemma path_char_facts c :
  path_set c = false ->
  ascii_eqb c "?" = false /\ ascii_eqb c "#" = false.
Proof. destruct c as [[] [] [] [] [] [] [] []]; done. Qed.

Lemma special_query_char_facts c : special_query_set c = false -> ascii_eqb c "#" = false.
Proof. destruct c as [[] [] [] [] [] [] [] []]; done. Qed.

Lemma drop_c0_space_printable s : Forall (fun c => printable c = true) s -> drop_c0_space s = s.
Proof.
  destruct 1 as [|c s Hc _]; [done|]. simpl.
  unfold printable in Hc. apply negb_true_iff in Hc. by rewrite Hc.
Qed.

Lemma preprocess_printable s :
  Forall (fun c => printable c = true) s -> remove_tab_newline (strip_c0_space s) = s.
Proof.
  intros H. unfold strip_c0_space. rewrite (drop_c0_space_printable _ H).
  rewrite drop_c0_space_printable, rev_involutive.
  - unfold remove_tab_newline. induction H as [|c s Hc _ IH]; [done|].
    rewrite filter_cons. destruct (decide _) as [_|Hn]; [by rewrite IH|].
    exfalso. apply Hn. unfold printable, is_c0_control_or_space in Hc.
    apply negb_true_iff, Nat.leb_gt in Hc. unfold is_tab_or_newline.
    repeat (apply orb_false_intro); apply Nat.eqb_neq; lia.
  - apply Forall_forall. intros c Hc. rewrite Forall_forall in H. apply H.
    apply list_elem_of_In. apply in_rev. by apply list_elem_of_In.
Qed.

Lemma ender_not_slash c :
  ends_authority true c = false -> ascii_eqb c "/" || ascii_eqb c "\" = false.
Proof. destruct c as [[] [] [] [] [] [] [] []]; done. Qed.

Lemma ignore_slashes_id s rest :
  s <> [] -> Forall (fun c => ends_authority true c = false) s ->
  special_authority_ignore_slashes_state (s ++ rest) = s ++ rest.
Proof.
  intros Hne H. destruct H as [|c s Hc _]; [done|]. simpl.
  by rewrite (ender_not_slash _ Hc).
Qed.

Lemma authority_state_scan atSignSeen seen username password buffer s rest :
  Forall (fun c => ascii_eqb c "@" = false /\ ends_authority true c = false) s ->
  authority_state true atSignSeen seen username password buffer (s ++ rest)
  = authority_state true atSignSeen seen username password (buffer ++ s) rest.
Proof.
  intros H. revert buffer. induction H as [|c s [Hc1 Hc2] _ IH]; intros buffer.
  - by rewrite app_nil_r.
  - simpl. rewrite Hc1, Hc2, IH, <- app_assoc. done.
Qed.

Lemma split_credentials_user username password U R :
  safe userinfo_set U ->
  split_credentials false username password (U ++ R)
  = split_credentials false (username ++ U) password R.
Proof.
  intros H. revert username. induction H as [|c U Hc _ IH]; intros username.
  - by rewrite app_nil_r.
  - simpl. destruct (userinfo_char_facts _ Hc) as (_ & _ & Hcolon).
    rewrite Hcolon. cbn [andb]. unfold utf8_percent_encode. rewrite Hc.
    rewrite IH, <- app_assoc. done.
Qed.

Lemma split_credentials_password username password P :
  safe userinfo_set P ->
  split_credentials true username password P = (true, username, password ++ P).
Proof.
  intros H. revert password. induction H as [|c P Hc _ IH]; intros password.
  - by rewrite app_nil_r.
  - simpl. rewrite andb_false_r. unfold utf8_percent_encode. rewrite Hc.
    rewrite IH, <- app_assoc. done.
Qed.

Lemma port_state_scan scheme buffer s rest :
  Forall (fun c => is_digit c = true) s ->
  port_state true scheme buffer (s ++ rest) = port_state true scheme (buffer ++ s) rest.
Proof.
  intros H. revert buffer. induction H as [|c s Hc _ IH]; intros buffer.
  - by rewrite app_nil_r.
  - simpl. rewrite Hc, IH, <- app_assoc. done.
Qed.

Lemma path_state_scan path buffer s rest :
  buffer_ok s ->
  path_state true false path buffer (s ++ rest) = path_state true false path (buffer ++ s) rest.
Proof.
  intros [H1 H2]. revert buffer. induction s as [|c s IH]; intros buffer.
  - by rewrite app_nil_r.
  - apply Forall_cons in H1 as [Hc H1]. apply Forall_cons in H2 as [[Hs Hb] H2].
    simpl. rewrite Hs, Hb. cbn [andb orb].
    destruct (path_char_facts _ Hc) as [-> ->]. cbn [orb].
    unfold utf8_percent_encode. rewrite Hc. rewrite (IH H1 H2), <- app_assoc. done.
Qed.

Lemma query_state_scan buffer s rest :
  safe special_query_set s ->
  query_state true buffer (s ++ rest) = query_state true (buffer ++ s) rest.
Proof.
  intros H. revert buffer. induction H as [|c s Hc _ IH]; intros buffer.
  - by rewrite app_nil_r.
  - simpl. rewrite (special_query_char_facts _ Hc), IH, <- app_assoc. done.
Qed.

(** *** IPv6 addresses *)

Lemma lower_hex_digit_hex k : (k < 16)%N -> is_hex_digit (lower_hex_digit k) = true.
Proof.
  intros H. unfold lower_hex_digit.
  assert (Hk : N.to_nat k < 16) by lia. revert Hk. generalize (N.to_nat k) as n.
  intros n Hn. do 16 (destruct n as [|n]; [reflexivity|]). lia.
Qed.

Lemma N_to_radix_go_hex fuel n acc :
  Forall (fun c => is_hex_digit c = true) acc ->
  Forall (fun c => is_hex_digit c = true) (N_to_radix_go fuel 16 n acc).
Proof.
  revert n acc. induction fuel as [|fuel IH]; intros n acc H; cbn [N_to_radix_go]; [done|].
  assert (Hd : Forall (fun c => is_hex_digit c = true) (lower_hex_digit (n mod 16) :: acc)).
  { constructor; [|done]. apply lower_hex_digit_hex. apply N.mod_lt. lia. }
  destruct (_ =? _)%N; [done|]. by apply IH.
Qed.

Lemma N_to_hex_hex n : Forall (fun c => is_hex_digit c = true) (N_to_hex n).
Proof. apply N_to_radix_go_hex. constructor. Qed.

Lemma N_to_hex_nonempty n : N_to_hex n <> [].
Proof.
  unfold N_to_hex, N_to_radix. cbn [N_to_radix_go].
  destruct (_ =? _)%N; [discriminate|]. apply N_to_radix_go_nonempty. discriminate.
Qed.

Lemma N_to_radix_go_length fuel x acc k :
  (x < 16 ^ N.of_nat (S k))%N ->
  length (N_to_radix_go fuel 16 x acc) <= S k + length acc.
Proof.
  revert x acc k. induction fuel as [|fuel IH]; intros x acc k Hx; cbn [N_to_radix_go]; [lia|].
  destruct (N.eqb_spec (x / 16) 0) as [E|E]; [cbn [length]; lia|].
  destruct k as [|k].
  - exfalso. apply E. apply N.div_small. simpl in Hx. lia.
  - etrans; [apply (IH _ _ k)|cbn [length]; lia].
    rewrite Nat2N.inj_succ, N.pow_succ_r' in Hx.
    apply N.Div0.div_lt_upper_bound. lia.
Qed.

Lemma N_to_hex_length x : (x < 65536)%N -> length (N_to_hex x) <= 4.
Proof.
  intros H. unfold N_to_hex, N_to_radix.
  pose proof (N_to_radix_go_length (S (N.size_nat x)) x [] 3 H). simpl in *. lia.
Qed.

Lemma hex_digit_val c : is_hex_digit c = true -> exists d, hex_val c = Some d /\ d < 16.
Proof. destruct c as [[] [] [] [] [] [] [] []]; try discriminate; intros _; vm_compute; eexists; split; (reflexivity || lia). Qed.

Lemma hex_val_not_hex c : is_hex_digit c = false -> hex_val c = None.
Proof. destruct c as [[] [] [] [] [] [] [] []]; try discriminate; reflexivity. Qed.

(** [read_hex] reads a whole run of hexadecimal digits that fits. *)
Lemma read_hex_digits limit value len ds rest :
  Forall (fun c => is_hex_digit c = true) ds ->
  length ds <= limit ->
  match rest with [] => True | c :: _ => is_hex_digit c = false end ->
  exists value',
    fold_left
      (fun a c => match a, digit_val 16 c with
                  | Some m, Some d => Some (m * 16 + d)%N
                  | _, _ => None
                  end) ds (Some value) = Some value'
    /\ read_hex limit value len (ds ++ rest) = (value', len + length ds, rest).
Proof.
  intros Hds. revert limit value len.
  induction Hds as [|c ds Hc _ IH]; intros limit value len Hlen Hrest.
  - exists value. split; [done|]. cbn [app length]. rewrite Nat.add_0_r.
    destruct limit; [done|]. destruct rest as [|c r]; [done|].
    cbn [read_hex]. by rewrite (hex_val_not_hex _ Hrest).
  - destruct limit as [|limit]; [cbn [length] in Hlen; lia|].
    destruct (hex_digit_val _ Hc) as (d & Hd & Hd16).
    cbn [length] in Hlen.
    destruct (IH limit (value * 16 + N.of_nat d)%N (S len) ltac:(lia) Hrest) as (v' & Hf & Hr).
    exists v'. split.
    + cbn [fold_left]. unfold digit_val at 2. rewrite Hd.
      destruct (N.ltb_spec (N.of_nat d) 16); [done|lia].
    + cbn [app read_hex]. rewrite Hd, Hr. cbn [length]. f_equal. f_equal. lia.
Qed.

Lemma read_hex_N_to_hex x rest :
  (x < 65536)%N ->
  match rest with [] => True | c :: _ => is_hex_digit c = false end ->
  read_hex 4 0 0 (N_to_hex x ++ rest) = (x, length (N_to_hex x), rest).
Proof.
  intros Hx Hrest.
  destruct (read_hex_digits 4 0%N 0 (N_to_hex x) rest (N_to_hex_hex x)
              (N_to_hex_length x Hx) Hrest) as (v & Hf & Hr).
  pose proof (parse_N_to_radix 16 x ltac:(lia)) as Hp. unfold parse_radix in Hp.
  fold (N_to_hex x) in Hp. rewrite Hp in Hf. injection Hf as <-. by rewrite Hr.
Qed.

Lemma read_hex_suffix limit value len s v' len' s' :
  read_hex limit value len s = (v', len', s') -> length s' <= length s.
Proof.
  revert value len s. induction limit as [|limit IH]; intros value len s; cbn [read_hex].
  - by intros [= _ _ <-].
  - destruct s as [|c s]; [by intros [= _ _ <-]|].
    destruct (hex_val c); [|by intros [= _ _ <-]].
    intros H. apply IH in H. cbn [length]. lia.
Qed.

(** Enough fuel is as good as any. *)
Lemma ipv6_loop_fuel fuel1 fuel2 address pieceIndex compress s :
  length s < fuel1 -> length s < fuel2 ->
  ipv6_loop fuel1 address pieceIndex compress s
  = ipv6_loop fuel2 address pieceIndex compress s.
Proof.
  revert fuel2 address pieceIndex compress s.
  induction fuel1 as [|fuel1 IH]; intros fuel2 address pieceIndex compress s H1 H2; [lia|].
  destruct fuel2 as [|fuel2]; [lia|].
  destruct s as [|c rest]; [done|]. cbn [length] in H1, H2. cbn [ipv6_loop].
  destruct (pieceIndex =? 8)%nat; [done|].
  destruct (ascii_eqb c ":").
  - destruct compress; [done|]. apply IH; lia.
  - destruct (read_hex 4 0 0 (c :: rest)) as [[value len] s1] eqn:E.
    apply read_hex_suffix in E. cbn [length] in E.
    destruct s1 as [|c1 s2]; [done|]. cbn [length] in E.
    destruct (ascii_eqb c1 "."); [done|].
    destruct (ascii_eqb c1 ":"); [|done].
    destruct s2 as [|c2 s3]; [done|]. apply IH; cbn [length] in *; lia.
Qed.

Lemma N_to_hex_head x :
  exists c r, N_to_hex x = c :: r /\ is_hex_digit c = true.
Proof.
  pose proof (N_to_hex_nonempty x) as Hne. pose proof (N_to_hex_hex x) as Hh.
  destruct (N_to_hex x) as [|c r]; [done|]. apply Forall_cons in Hh as [Hc _]. eauto.
Qed.

Lemma hex_digit_not_colon c : is_hex_digit c = true -> ascii_eqb c ":" = false.
Proof. destruct c as [[] [] [] [] [] [] [] []]; try discriminate; reflexivity. Qed.

(** One piece followed by a colon and more input. *)
Lemma ipv6_loop_piece fuel address pieceIndex compress x s2 :
  length (N_to_hex x ++ ":" :: s2) < fuel ->
  (pieceIndex =? 8)%nat = false -> (x < 65536)%N -> s2 <> [] ->
  ipv6_loop fuel address pieceIndex compress (N_to_hex x ++ ":" :: s2)
  = ipv6_loop (S (length s2)) (<[pieceIndex := x]> address) (S pieceIndex) compress s2.
Proof.
  intros Hf Hpi Hx Hs2. destruct fuel as [|fuel]; [lia|].
  pose proof (read_hex_N_to_hex x (":" :: s2) Hx eq_refl) as Hr.
  destruct (N_to_hex_head x) as (c & r & E & Hc). rewrite E in *.
  set (rhs := ipv6_loop (S (length s2)) (<[pieceIndex := x]> address) (S pieceIndex)
                compress s2).
  cbn [app ipv6_loop]. rewrite Hpi, (hex_digit_not_colon _ Hc).
  cbn [app] in Hr. rewrite Hr.
  change (ascii_eqb ":" ".") with false. change (ascii_eqb ":" ":") with true. cbv iota.
  destruct s2 as [|c2 s3]; [done|]. subst rhs.
  apply ipv6_loop_fuel; [|lia]. rewrite length_app in Hf. cbn [length] in *. lia.
Qed.

(** The last piece. *)
Lemma ipv6_loop_last fuel address pieceIndex compress x :
  length (N_to_hex x) < fuel ->
  (pieceIndex =? 8)%nat = false -> (x < 65536)%N ->
  ipv6_loop fuel address pieceIndex compress (N_to_hex x)
  = Some (<[pieceIndex := x]> address, S pieceIndex, compress).
Proof.
  intros Hf Hpi Hx. destruct fuel as [|fuel]; [lia|].
  pose proof (read_hex_N_to_hex x [] Hx I) as Hr. rewrite app_nil_r in Hr.
  destruct (N_to_hex_head x) as (c & r & E & Hc). rewrite E in *.
  cbn [ipv6_loop]. by rewrite Hpi, (hex_digit_not_colon _ Hc), Hr.
Qed.

(** The colon that marks the compressed run. *)
Lemma ipv6_loop_colon fuel address pieceIndex s :
  length (":" :: s) < fuel ->
  (pieceIndex =? 8)%nat = false ->
  ipv6_loop fuel address pieceIndex None (":" :: s)
  = ipv6_loop (S (length s)) address (S pieceIndex) (Some (S pieceIndex)) s.
Proof.
  intros Hf Hpi. destruct fuel as [|fuel]; [cbn [length] in Hf; lia|].
  set (rhs := ipv6_loop (S (length s)) address (S pieceIndex) (Some (S pieceIndex)) s).
  cbn [ipv6_loop]. rewrite Hpi. change (ascii_eqb ":" ":") with true. cbv iota.
  subst rhs. apply ipv6_loop_fuel; cbn [length] in *; lia.
Qed.

Lemma ipv6_parse_hex_start x s :
  ipv6_parse (N_to_hex x ++ s)
  = match ipv6_loop (S (length (N_to_hex x ++ s))) (replicate 8 0%N) 0 None (N_to_hex x ++ s) with
    | Some (address, pieceIndex', Some cp) => Some (ipv6_swap (pieceIndex' - cp) 7 cp address)
    | Some (address, pieceIndex', None) => if (pieceIndex' =? 8)%nat then Some address else None
    | None => None
    end.
Proof.
  unfold ipv6_parse. destruct (N_to_hex_head x) as (c & r & E & Hc). rewrite E.
  cbn [app]. rewrite (hex_digit_not_colon _ Hc).
  destruct (ipv6_loop _ _ _ _ _) as [[[a p] [cp|]]|]; done.
Qed.

Lemma N_to_hex_app_nonempty x s : N_to_hex x ++ s <> [].
Proof. intros E. apply app_eq_nil in E as [E _]. by apply N_to_hex_nonempty in E. Qed.

Lemma ipv6_piece_step address pieceIndex compress x s2 :
  (pieceIndex =? 8)%nat = false -> (x < 65536)%N -> s2 <> [] ->
  ipv6_loop (S (length (N_to_hex x ++ ":" :: s2))) address pieceIndex compress
    (N_to_hex x ++ ":" :: s2)
  = ipv6_loop (S (length s2)) (<[pieceIndex := x]> address) (S pieceIndex) compress s2.
Proof. intros. apply ipv6_loop_piece; auto. Qed.

Lemma ipv6_last_step address pieceIndex compress x :
  (pieceIndex =? 8)%nat = false -> (x < 65536)%N ->
  ipv6_loop (S (length (N_to_hex x))) address pieceIndex compress (N_to_hex x)
  = Some (<[pieceIndex := x]> address, S pieceIndex, compress).
Proof. intros. apply ipv6_loop_last; auto. Qed.

Lemma ipv6_colon_step address pieceIndex s :
  (pieceIndex =? 8)%nat = false ->
  ipv6_loop (S (length (":" :: s))) address pieceIndex None (":" :: s)
  = ipv6_loop (S (length s)) address (S pieceIndex) (Some (S pieceIndex)) s.
Proof. intros. apply ipv6_loop_colon; auto. Qed.

Ltac ipv6_step :=
  first
  [ rewrite ipv6_piece_step;
      [ | reflexivity | assumption
        | first [apply N_to_hex_app_nonempty | apply N_to_hex_nonempty | discriminate] ]
  | rewrite ipv6_last_step; [ | reflexivity | assumption ]
  | rewrite ipv6_colon_step; [ | reflexivity ] ].

Ltac ipv6_case :=
  unfold ipv6_serialize;
  cbn [find_compress zero_run N.eqb Nat.ltb Nat.leb option_map fst ipv6_serialize_go
       andb Nat.eqb app];
  rewrite ?app_nil_r;
  first [ rewrite ipv6_parse_hex_start
        | unfold ipv6_parse; cbn [ascii_eqb Ascii.eqb Bool.eqb andb] ];
  repeat ipv6_step;
  vm_compute; reflexivity.

(** Parsing the serialisation of an address gives the address back: by
    cases on which of the eight pieces are zero, which fixes where the
    serialiser compresses. *)
Lemma ipv6_reparse_pieces p0 p1 p2 p3 p4 p5 p6 p7 :
  (p0 < 65536)%N -> (p1 < 65536)%N -> (p2 < 65536)%N -> (p3 < 65536)%N ->
  (p4 < 65536)%N -> (p5 < 65536)%N -> (p6 < 65536)%N -> (p7 < 65536)%N ->
  ipv6_parse (ipv6_serialize [p0; p1; p2; p3; p4; p5; p6; p7])
  = Some [p0; p1; p2; p3; p4; p5; p6; p7].
Proof.
  intros H0 H1 H2 H3 H4 H5 H6 H7.
  destruct p0 as [|q0]; destruct p1 as [|q1]; destruct p2 as [|q2]; destruct p3 as [|q3];
  destruct p4 as [|q4]; destruct p5 as [|q5]; destruct p6 as [|q6]; destruct p7 as [|q7];
  ipv6_case.
Qed.

(** The IPv6 parser returns eight pieces of sixteen bits. *)

Lemma piece_at_insert_ne address i j x :
  i <> j -> piece_at (<[i := x]> address) j = piece_at address j.
Proof. intros H. unfold piece_at. by rewrite list_lookup_insert_ne. Qed.

Lemma piece_at_bound address j :
  Forall (fun x => (x < 65536)%N) address -> (piece_at address j < 65536)%N.
Proof.
  intros H. unfold piece_at. destruct (address !! j) as [x|] eqn:E; [|simpl; lia].
  simpl. rewrite Forall_forall in H. apply H. by apply list_elem_of_lookup_2 in E.
Qed.

Lemma address_ok_insert address i x :
  ipv6_address_ok address -> (x < 65536)%N -> ipv6_address_ok (<[i := x]> address).
Proof.
  intros [Hl Hf] Hx. split; [by rewrite length_insert|]. by apply Forall_insert.
Qed.

Lemma read_hex_bound limit value len s v' len' s' k :
  read_hex limit value len s = (v', len', s') ->
  (value < 16 ^ N.of_nat k)%N -> (v' < 16 ^ N.of_nat (k + limit))%N.
Proof.
  revert value len s k. induction limit as [|limit IH]; intros value len s k; cbn [read_hex].
  - intros [= <- _ _]. by rewrite Nat.add_0_r.
  - destruct s as [|c s].
    { intros [= <- _ _] Hv. eapply N.lt_le_trans; [exact Hv|].
      apply N.pow_le_mono_r; lia. }
    destruct (hex_val c) as [d|] eqn:Ed.
    + intros Hr Hv. replace (k + S limit) with (S k + limit) by lia.
      apply (IH _ _ _ _ Hr). rewrite Nat2N.inj_succ, N.pow_succ_r'.
      assert (d < 16).
      { destruct (is_hex_digit c) eqn:Eh.
        - destruct (hex_digit_val _ Eh) as (d' & Hd' & ?). congruence.
        - rewrite (hex_val_not_hex _ Eh) in Ed. done. }
      lia.
    + intros [= <- _ _] Hv. eapply N.lt_le_trans; [exact Hv|].
      apply N.pow_le_mono_r; lia.
Qed.

Lemma read_ipv4_piece_bound piece s p s' :
  read_ipv4_piece piece s = Some (Some p, s') ->
  match piece with Some q => (q <= 255)%N | None => True end ->
  (p <= 255)%N.
Proof.
  revert piece. induction s as [|c s IH]; intros piece; cbn [read_ipv4_piece].
  - intros [= -> _]. done.
  - destruct (is_digit c) eqn:Ed; [|by intros [= -> _]].
    destruct piece as [q|].
    + destruct (q =? 0)%N; [done|].
      destruct (N.ltb_spec 255 (q * 10 + N.of_nat (code c - 48))) as [Hgt|Hle]; [done|].
      intros Hr _. by apply (IH _ Hr).
    + intros Hr _. apply (IH _ Hr).
      assert (code c - 48 <= 9); [|lia].
      clear -Ed. destruct c as [[] [] [] [] [] [] [] []]; try discriminate Ed; vm_compute; lia.
Qed.

Lemma piece_at_insert_eq address i x :
  piece_at (<[i := x]> address) i = x
  \/ piece_at (<[i := x]> address) i = piece_at address i.
Proof.
  unfold piece_at. destruct (decide (i < length address)) as [Hlt|Hge].
  - left. by rewrite list_lookup_insert_eq.
  - right. rewrite list_insert_ge by lia. done.
Qed.

Lemma embedded_ipv4_ok fuel address pieceIndex numbersSeen s address' pieceIndex' :
  ipv6_embedded_ipv4 fuel address pieceIndex numbersSeen s = Some (address', pieceIndex') ->
  ipv6_address_ok address ->
  (forall j, pieceIndex < j -> piece_at address j = 0%N) ->
  match numbersSeen with
  | 0 | 2 => piece_at address pieceIndex = 0%N
  | _ => (piece_at address pieceIndex <= 255)%N
  end ->
  ipv6_address_ok address'.
Proof.
  revert address pieceIndex numbersSeen s.
  induction fuel as [|fuel IH]; intros address pieceIndex numbersSeen s;
    cbn [ipv6_embedded_ipv4];
    (destruct s as [|c rest]; [destruct (_ =? _)%nat; [by intros [= <- _]|done]|]);
    [done|].
  destruct (if (0 <? numbersSeen)%nat then _ else _) as [s1|] eqn:Edot; [|done].
  destruct s1 as [|d s1']; [done|]. destruct (is_digit d); [|done].
  destruct (read_ipv4_piece None (d :: s1')) as [[[p|] s2]|] eqn:Er; [|done|done].
  apply read_ipv4_piece_bound in Er; [|done].
  intros H Hok Hzero Hcur.
  assert (Hn : numbersSeen < 4).
  { destruct (Nat.ltb_spec 0 numbersSeen) as [Hpos|Hz]; [|lia].
    destruct (Nat.ltb_spec numbersSeen 4); [done|].
    by rewrite andb_false_r in Edot. }
  assert (Hnew : (piece_at address pieceIndex * 256 + p < 65536)%N).
  { destruct numbersSeen as [|[|[|[|n]]]]; lia. }
  apply (IH _ _ _ _ H).
  - by apply address_ok_insert.
  - intros j Hj. rewrite piece_at_insert_ne.
    + apply Hzero. destruct (_ || _); lia.
    + destruct (_ || _); lia.
  - destruct numbersSeen as [|[|[|[|n]]]]; try lia; cbn [Nat.eqb orb].
    + rewrite Hcur in *.
      destruct (piece_at_insert_eq address pieceIndex (0 * 256 + p)) as [-> | ->]; lia.
    + rewrite piece_at_insert_ne by lia. by apply Hzero; lia.
    + rewrite Hcur in *.
      destruct (piece_at_insert_eq address pieceIndex (0 * 256 + p)) as [-> | ->]; lia.
    + rewrite piece_at_insert_ne by lia. rewrite Hzero by lia. lia.
Qed.

Lemma ipv6_loop_ok fuel address pieceIndex compress s address' pieceIndex' compress' :
  ipv6_loop fuel address pieceIndex compress s = Some (address', pieceIndex', compress') ->
  ipv6_address_ok address ->
  (forall j, pieceIndex <= j -> piece_at address j = 0%N) ->
  ipv6_address_ok address'.
Proof.
  revert address pieceIndex compress s.
  induction fuel as [|fuel IH]; intros address pieceIndex compress s;
    (destruct s as [|c rest]; [by intros [= <- _ _]|]); [done|].
  cbn [ipv6_loop]. destruct (pieceIndex =? 8)%nat; [done|].
  destruct (ascii_eqb c ":").
  - destruct compress; [done|]. intros H Hok Hzero. apply (IH _ _ _ _ H Hok).
    intros j Hj. apply Hzero. lia.
  - destruct (read_hex 4 0 0 (c :: rest)) as [[value len] s1] eqn:Er.
    apply (read_hex_bound _ _ _ _ _ _ _ 0) in Er; [|simpl; lia].
    change (16 ^ N.of_nat (0 + 4))%N with 65536%N in Er.
    destruct s1 as [|c1 s2].
    + intros [= <- _ _] Hok _. by apply address_ok_insert.
    + destruct (ascii_eqb c1 ".").
      * destruct (len =? 0)%nat; [done|]. destruct (6 <? pieceIndex)%nat; [done|].
        destruct (ipv6_embedded_ipv4 _ _ _ _ _) as [[a' p']|] eqn:Ee; [|done].
        intros [= <- _ _] Hok Hzero.
        apply (embedded_ipv4_ok _ _ _ _ _ _ _ Ee Hok).
        -- intros j Hj. apply Hzero. lia.
        -- apply Hzero. lia.
      * destruct (ascii_eqb c1 ":"); [|done]. destruct s2 as [|c2 s3]; [done|].
        intros H Hok Hzero. apply (IH _ _ _ _ H).
        -- by apply address_ok_insert.
        -- intros j Hj. rewrite piece_at_insert_ne by lia. apply Hzero. lia.
Qed.

Lemma ipv6_swap_ok swaps pieceIndex compress address :
  ipv6_address_ok address -> ipv6_address_ok (ipv6_swap swaps pieceIndex compress address).
Proof.
  revert pieceIndex address. induction swaps as [|swaps IH]; intros pieceIndex address Hok;
    cbn [ipv6_swap]; [done|].
  destruct (pieceIndex =? 0)%nat; [done|]. apply IH.
  destruct Hok as [Hl Hf].
  apply address_ok_insert; [apply address_ok_insert; [done|]|]; by apply piece_at_bound.
Qed.

Lemma ipv6_parse_ok s address : ipv6_parse s = Some address -> ipv6_address_ok address.
Proof.
  unfold ipv6_parse.
  assert (Hzero : ipv6_address_ok (replicate 8 0%N)) by (split; [done|by repeat constructor]).
  assert (Hz : forall i j, i <= j -> piece_at (replicate 8 0%N) j = 0%N).
  { intros i j _. unfold piece_at. do 8 (destruct j as [|j]; [done|]). done. }
  destruct (match s with [] => _ | _ :: _ => _ end) as [[[s0 pi] cp]|]; [|done].
  destruct (ipv6_loop _ _ _ _ _) as [[[a p] c]|] eqn:El; [|done].
  apply ipv6_loop_ok in El; [|done|by apply Hz].
  destruct c as [c|].
  - intros [= <-]. by apply ipv6_swap_ok.
  - destruct (p =? 8)%nat; [|done]. by intros [= <-].
Qed.

Lemma ipv6_reparse address :
  ipv6_address_ok address -> ipv6_parse (ipv6_serialize address) = Some address.
Proof.
  intros [Hl Hf].
  destruct address as [|p0 [|p1 [|p2 [|p3 [|p4 [|p5 [|p6 [|p7 [|p8 more]]]]]]]]];
    try discriminate Hl.
  repeat match goal with
  | H : Forall _ (_ :: _) |- _ => apply Forall_cons in H as [? H]
  end.
  by apply ipv6_reparse_pieces.
Qed.

Lemma ipv6_serialize_go_chars compress ignore0 i l :
  Forall (fun c => is_hex_digit c = true \/ c = ":") (ipv6_serialize_go compress ignore0 i l).
Proof.
  revert ignore0 i. induction l as [|x l IH]; intros ignore0 i; simpl; [constructor|].
  destruct (ignore0 && _); [apply IH|].
  destruct (match compress with Some _ => _ | None => _ end).
  - apply Forall_app. split; [|apply IH]. destruct (i =? 0)%nat; repeat constructor; by right.
  - apply Forall_app. split.
    + eapply Forall_impl; [apply N_to_hex_hex|]. intros c Hc. by left.
    + apply Forall_app. split; [|apply IH].
      destruct (i =? 7)%nat; repeat constructor; by right.
Qed.

Lemma hex_or_colon_facts c :
  is_hex_digit c = true \/ c = ":" ->
  printable c = true /\ ascii_eqb c "@" = false /\ ends_authority true c = false
  /\ ascii_eqb c "[" = false /\ ascii_eqb c "]" = false.
Proof.
  intros [H | ->]; [|done].
  destruct c as [[] [] [] [] [] [] [] []]; try discriminate H; done.
Qed.

Section Reparse.

Variable unicodeToASCII : jsstring -> option jsstring.

Hypothesis unicodeToASCII_lower : forall s r, unicodeToASCII s = Some r -> no_upper r.
Hypothesis unicodeToASCII_stable :
  forall s r, unicodeToASCII s = Some r ->
              plain_ascii_domain r = true \/ unicodeToASCII r = Some r.

Local Abbreviation host_state := (host_state unicodeToASCII).
Local Abbreviation host_parse := (host_parse unicodeToASCII).
Local Abbreviation parse_from_authority := (parse_from_authority unicodeToASCII).
Local Abbreviation basic_url_parse := (basic_url_parse unicodeToASCII).

Lemma host_state_scan scheme buffer s rest :
  Forall (fun c => host_char c = true) s ->
  host_state true false scheme buffer (s ++ rest)
  = host_state true false scheme (buffer ++ s) rest.
Proof.
  intros H. revert buffer. induction H as [|c s Hc _ IH]; intros buffer.
  - by rewrite app_nil_r.
  - destruct (host_char_facts _ Hc) as (_ & He & Hcolon & Hl & Hr).
    simpl. rewrite Hcolon, He, Hl, Hr. cbn [andb]. rewrite IH, <- app_assoc. done.
Qed.

Lemma host_state_scan_brackets scheme buffer s rest :
  Forall (fun c => is_hex_digit c = true \/ c = ":") s ->
  host_state true true scheme buffer (s ++ rest)
  = host_state true true scheme (buffer ++ s) rest.
Proof.
  intros H. revert buffer. induction H as [|c s Hc _ IH]; intros buffer.
  - by rewrite app_nil_r.
  - destruct (hex_or_colon_facts _ Hc) as (_ & _ & He & Hl & Hr).
    simpl. rewrite andb_false_r, He, Hl, Hr. rewrite IH, <- app_assoc. done.
Qed.

Lemma host_parse_inv b h :
  host_parse false b = Some h ->
  match h with
  | Domain _ | IPv4 _ => True
  | IPv6 pieces => ipv6_address_ok pieces
  | OpaqueHost _ | EmptyHost => False
  end.
Proof.
  unfold host_parse. destruct b as [|c rest]; [done|].
  destruct (ascii_eqb c "[").
  - destruct (last rest) as [e|]; [|done]. destruct (ascii_eqb e "]"); [|done].
    destruct (ipv6_parse _) as [pieces|] eqn:E; [|done]. intros [= <-].
    by apply ipv6_parse_ok in E.
  - cbn [negb]. destruct (domain_to_ASCII _ _) as [ad|]; [|done].
    destruct (existsb _ ad); [done|]. destruct (ends_in_number ad).
    + destruct (ipv4_parse ad); [|done]. by intros [= <-].
    + by intros [= <-].
Qed.

(** The serialisation of a parsed host has no delimiter of the authority
    in it, is read as a whole by the host state, and parses back to the
    host. *)
Lemma host_reparse b h :
  host_parse false b = Some h ->
  host_serialize h <> []
  /\ Forall (fun c => printable c = true /\ ascii_eqb c "@" = false
                      /\ ends_authority true c = false) (host_serialize h)
  /\ (forall scheme rest,
        host_state true false scheme [] (host_serialize h ++ rest)
        = host_state true false scheme (host_serialize h) rest)
  /\ host_parse false (host_serialize h) = Some h.
Proof.
  intros H. pose proof (host_parse_inv _ _ H) as Hinv.
  assert (Hscan : forall hs, Forall (fun c => host_char c = true) hs ->
    Forall (fun c => printable c = true /\ ascii_eqb c "@" = false
                     /\ ends_authority true c = false) hs
    /\ (forall scheme rest,
          host_state true false scheme [] (hs ++ rest) = host_state true false scheme hs rest)).
  { intros hs Hhs. split.
    - eapply Forall_impl; [exact Hhs|]. intros c Hc.
      destruct (host_char_facts _ Hc) as (? & ? & _).
      by rewrite (host_char_printable _ Hc).
    - intros scheme rest. by rewrite (host_state_scan _ _ _ _ Hhs). }
  destruct h as [d|a|pieces|o|]; [| | |done|done].
  - pose proof (host_parse_domain_inv _ _ _ H) as ([x Hx] & Hf & _).
    assert (Hhs : Forall (fun c => host_char c = true) (host_serialize (Domain d))).
    { apply Forall_forall. intros c Hc. apply host_char_not_forbidden.
      apply (not_forbidden_domain _ _ Hf). by apply list_elem_of_In. }
    destruct (Hscan _ Hhs) as [H1 H2].
    split; [by apply (domain_nonempty _ _ _ Hx)|]. split; [done|]. split; [done|].
    by apply (domain_reparse _ unicodeToASCII_lower unicodeToASCII_stable _ _ H).
  - assert (Hhs : Forall (fun c => host_char c = true) (host_serialize (IPv4 a))).
    { unfold host_serialize, ipv4_serialize.
      repeat first [apply Forall_app; split | apply Forall_cons; split; [done|]];
        (eapply Forall_impl; [apply N_to_dec_digits|]); intros c Hc;
        apply host_char_dot_or_digit; by left. }
    destruct (Hscan _ Hhs) as [H1 H2].
    split; [|split; [done|split; [done|]]].
    + unfold host_serialize, ipv4_serialize. intros E. by apply app_eq_nil in E as [_ E].
    + by apply (ipv4_reparse _ _ _ H).
  - pose proof (ipv6_serialize_go_chars
                  (option_map fst (find_compress 0 pieces None)) false 0 pieces) as Hch.
    fold (ipv6_serialize pieces) in Hch.
    split; [done|]. split; [|split].
    + cbn [host_serialize]. constructor; [done|]. apply Forall_app. split.
      * eapply Forall_impl; [exact Hch|]. intros c Hc.
        by destruct (hex_or_colon_facts _ Hc) as (? & ? & ? & _).
      * by repeat constructor.
    + intros scheme rest. cbn [host_serialize app host_state].
      change (ascii_eqb "[" ":" && negb false) with false.
      change (ends_authority true "[") with false.
      change (ascii_eqb "[" "[") with true. cbv iota.
      rewrite <- app_assoc. rewrite (host_state_scan_brackets _ _ _ _ Hch).
      cbn [app host_state].
      change (ascii_eqb "]" ":" && negb true) with false.
      change (ends_authority true "]") with false.
      change (ascii_eqb "]" "[") with false. change (ascii_eqb "]" "]") with true.
      cbv iota. reflexivity.
    + cbn [host_serialize]. unfold host_parse.
      change (ascii_eqb "[" "[") with true. cbv iota.
      rewrite last_snoc. change (ascii_eqb "]" "]") with true. cbv iota.
      by rewrite removelast_last, (ipv6_reparse _ Hinv).
Qed.

Lemma port_reparse scheme port rest c :
  port_ok scheme port -> ends_authority true c = true ->
  match port with
  | Some p => port_state true scheme [] (N_to_dec p ++ c :: rest) = Some (Some p, c :: rest)
  | None => True
  end.
Proof.
  intros Hp Hc. destruct port as [p|]; [|done]. destruct Hp as [Hle Hdef].
  rewrite (port_state_scan _ _ _ _ (N_to_dec_digits p)). cbn [app].
  cbn [port_state].
  assert (Hd : is_digit c = false).
  { destruct (is_digit c) eqn:E; [|done]. apply digit_char_facts in E as [_ E]. congruence. }
  rewrite Hd, Hc.
  pose proof (N_to_dec_nonempty p) as Hne. destruct (N_to_dec p) as [|d ds] eqn:Ed; [done|].
  rewrite <- Ed. unfold N_to_dec. rewrite parse_N_to_radix by lia.
  destruct (N.ltb_spec 65535 p); [lia|].
  destruct (default_port scheme) as [dp|]; [|done].
  destruct (N.eqb_spec dp p); [congruence|done].
Qed.

Lemma path_reparse segs path qf :
  Forall segment_ok segs -> segs <> [] ->
  (qf = [] \/ exists c r, qf = c :: r /\ (c = "?" \/ c = "#")) ->
  path_state true false path [] (tail (path_serialize (PathList segs)) ++ qf)
  = (path ++ segs, qf).
Proof.
  intros Hs Hne Hqf. revert path. induction Hs as [|seg segs Hseg Hsegs IH]; [done|].
  intros path. destruct Hseg as (H1 & H2 & H3 & H4).
  assert (Hpush : forall slash, push_segment false slash seg path = path ++ [seg]).
  { intros slash. unfold push_segment. rewrite H4, H3. cbn [andb].
    by destruct path, seg as [|? [|? [|? ?]]]. }
  cbn [path_serialize flat_map tail app]. rewrite <- app_assoc.
  rewrite (path_state_scan _ _ _ _ (conj H1 H2)). cbn [app].
  destruct segs as [|seg' segs'].
  - cbn [flat_map app]. destruct Hqf as [-> | (c & r & -> & Hc)].
    + cbn [path_state]. by rewrite Hpush.
    + cbn [path_state]. destruct Hc as [-> | ->]; cbn; by rewrite Hpush.
  - cbn [flat_map app path_state]. cbn [ascii_eqb Ascii.eqb orb].
    change (ascii_eqb "/" "/" || true && ascii_eqb "/" "\") with true. cbv iota.
    rewrite Hpush. specialize (IH ltac:(done) (path ++ [seg])).
    cbn [path_serialize flat_map tail app] in IH. rewrite IH, <- app_assoc. done.
Qed.

Lemma query_fragment_reparse query fragment :
  match query with Some q => safe special_query_set q | None => True end ->
  match fragment with Some f => safe fragment_set f | None => True end ->
  query_and_fragment true (query_fragment_part query fragment) = (query, fragment).
Proof.
  intros Hq Hf. unfold query_fragment_part, query_and_fragment.
  assert (Hfrag : forall f, safe fragment_set f -> fragment_state f = f).
  { intros f H. by apply percent_encode_string_id. }
  destruct query as [q|]; cbn [app].
  - change (ascii_eqb "?" "?") with true. cbv iota.
    rewrite (query_state_scan _ _ _ Hq). cbn [app].
    destruct fragment as [f|]; cbn [query_state].
    + change (ascii_eqb "#" "#") with true. cbv iota.
      by rewrite (percent_encode_string_id _ _ Hq), (Hfrag _ Hf).
    + by rewrite (percent_encode_string_id _ _ Hq).
  - destruct fragment as [f|]; [|done]. cbn [app].
    change (ascii_eqb "#" "?") with false. cbv iota. by rewrite (Hfrag _ Hf).
Qed.

Lemma url_serialize_parts scheme username password h port segs query fragment :
  url_serialize (mkURL scheme username password (Some h) port (PathList segs) query fragment)
  = scheme ++ str "://"
    ++ (credentials_part username password ++ host_serialize h ++ port_part port)
    ++ path_serialize (PathList segs) ++ query_fragment_part query fragment.
Proof.
  unfold url_serialize, credentials_part, port_part, query_fragment_part.
  cbn [url_scheme url_host url_username url_password url_port url_path_of url_query
       url_fragment].
  change (str "://" ++ ?x) with (":" :: str "//" ++ x).
  rewrite <- !app_assoc. reflexivity.
Qed.

Lemma authority_reparse username password HP TAIL :
  safe userinfo_set username -> safe userinfo_set password ->
  HP <> [] ->
  Forall (fun c => ascii_eqb c "@" = false /\ ends_authority true c = false) HP ->
  authority_state true false false [] [] []
    (credentials_part username password ++ HP ++ "/" :: TAIL)
  = Some (username, password, HP ++ "/" :: TAIL).
Proof.
  intros Hu Hp Hne HHP.
  assert (Hend : forall a seen u p,
    authority_state true a seen u p [] (HP ++ "/" :: TAIL) = Some (u, p, HP ++ "/" :: TAIL)).
  { intros a seen u p. rewrite (authority_state_scan _ _ _ _ _ _ _ HHP). cbn [app].
    cbn [authority_state]. change (ascii_eqb "/" "@") with false.
    change (ends_authority true "/") with true. cbv iota.
    destruct HP; [done|]. cbn [truthy negb]. by rewrite andb_false_r. }
  unfold credentials_part.
  destruct (truthy username || truthy password) eqn:Ecred.
  2: { apply orb_false_iff in Ecred as [E1 E2].
       destruct username; [|done]. destruct password; [|done]. apply Hend. }
  assert (Hscan : Forall (fun c => ascii_eqb c "@" = false /\ ends_authority true c = false)
                    (username ++ (if truthy password then ":" :: password else []))).
  { apply Forall_app. split.
    - eapply Forall_impl; [exact Hu|]. intros c Hc.
      by destruct (userinfo_char_facts _ Hc) as (? & ? & _).
    - destruct (truthy password); [|constructor]. constructor; [done|].
      eapply Forall_impl; [exact Hp|]. intros c Hc.
      by destruct (userinfo_char_facts _ Hc) as (? & ? & _). }
  rewrite <- !app_assoc, app_assoc.
  rewrite (authority_state_scan _ _ _ _ _ _ _ Hscan). cbn [app].
  cbn [authority_state]. change (ascii_eqb "@" "@") with true. cbv iota.
  rewrite (split_credentials_user _ _ _ _ Hu). cbn [app].
  destruct password as [|c password'] eqn:Ep.
  - cbn [truthy split_credentials]. apply Hend.
  - cbn [truthy].
    change (split_credentials false username [] (":" :: c :: password'))
      with (split_credentials true username [] (c :: password')).
    rewrite (split_credentials_password _ _ _ Hp). cbn [app]. apply Hend.
Qed.

Lemma host_state_reparse scheme b h port TAIL :
  host_parse false b = Some h -> port_ok scheme port ->
  host_state true false scheme [] (host_serialize h ++ port_part port ++ "/" :: TAIL)
  = Some (h, port, "/" :: TAIL).
Proof.
  intros Hb Hport. destruct (host_reparse _ _ Hb) as (Hne & _ & Hscan & Hre).
  rewrite Hscan.
  pose proof (port_reparse scheme port TAIL "/" Hport eq_refl) as Hp.
  assert (Ht : truthy (host_serialize h) = true) by (by destruct (host_serialize h)).
  destruct port as [p|]; cbn [port_part app host_state].
  - change (ascii_eqb ":" ":" && negb false) with true. cbv iota.
    rewrite Ht. cbn [negb]. by rewrite Hre, Hp.
  - change (ascii_eqb "/" ":" && negb false) with false.
    change (ends_authority true "/") with true. cbv iota.
    rewrite Ht. cbn [negb andb]. by rewrite Hre.
Qed.

(** Parsing the serialisation of a canonical URL gives the URL back. *)
Theorem canonical_reparse u :
  canonical_http unicodeToASCII u ->
  basic_url_parse (url_serialize u) = Some u.
Proof.
  intros [Hs Hu Hp (h & b & Hh & Hb) Hport (segs & Hpath & Hne & Hsegs) Hq Hf].
  destruct u as [scheme username password host port path query fragment].
  cbn [url_scheme url_host url_username url_password url_port url_path_of url_query
       url_fragment] in *. subst host path.
  destruct (host_reparse _ _ Hb) as (Hhne & Hchars & _).
  rewrite url_serialize_parts.
  set (AUTH := credentials_part username password ++ host_serialize h ++ port_part port).
  assert (Htail : path_serialize (PathList segs) ++ query_fragment_part query fragment
                  = "/" :: tail (path_serialize (PathList segs))
                    ++ query_fragment_part query fragment).
  { destruct segs; [done|]. reflexivity. }
  rewrite Htail. set (TAIL := tail (path_serialize (PathList segs))
                               ++ query_fragment_part query fragment).
  assert (Hport_chars : Forall (fun c => printable c = true
                                  /\ ascii_eqb c "@" = false
                                  /\ ends_authority true c = false) (port_part port)).
  { destruct port as [p|]; [|constructor]. constructor; [done|].
    eapply Forall_impl; [apply N_to_dec_digits|]. intros c Hc.
    destruct (digit_char_facts _ Hc). by rewrite (printable_digit _ Hc). }
  assert (Hcred_chars : Forall (fun c => printable c = true
                                  /\ ends_authority true c = false)
                          (credentials_part username password)).
  { unfold credentials_part. destruct (_ || _); [|constructor].
    repeat (apply Forall_app; split).
    - eapply Forall_impl; [exact Hu|]. intros c Hc.
      destruct (userinfo_char_facts _ Hc) as (_ & ? & _).
      by rewrite (printable_userinfo _ Hc).
    - destruct (truthy password); [|constructor]. constructor; [done|].
      eapply Forall_impl; [exact Hp|]. intros c Hc.
      destruct (userinfo_char_facts _ Hc) as (_ & ? & _).
      by rewrite (printable_userinfo _ Hc).
    - by repeat constructor. }
  assert (HHP : Forall (fun c => ascii_eqb c "@" = false /\ ends_authority true c = false)
                  (host_serialize h ++ port_part port)).
  { apply Forall_app. split.
    - eapply Forall_impl; [exact Hchars|]. by intros c (_ & ? & ?).
    - eapply Forall_impl; [exact Hport_chars|]. by intros c (_ & ? & ?). }
  assert (Hauth_ne : AUTH <> []).
  { unfold AUTH. intros E. apply app_eq_nil in E as [_ E]. by apply app_eq_nil in E as [E _]. }
  assert (Hauth_end : Forall (fun c => ends_authority true c = false) AUTH).
  { unfold AUTH. apply Forall_app. split.
    - eapply Forall_impl; [exact Hcred_chars|]. by intros c [_ ?].
    - eapply Forall_impl; [exact HHP|]. by intros c [_ ?]. }
  assert (HprintA : Forall (fun c => printable c = true) AUTH).
  { unfold AUTH. apply Forall_app. split; [|apply Forall_app; split].
    - eapply Forall_impl; [exact Hcred_chars|]. by intros c [? _].
    - eapply Forall_impl; [exact Hchars|]. by intros c (? & _).
    - eapply Forall_impl; [exact Hport_chars|]. by intros c (? & _). }
  assert (HprintP : Forall (fun c => printable c = true) (tail (path_serialize (PathList segs)))).
  { clear -Hsegs. destruct segs as [|seg segs]; [constructor|].
    cbn [path_serialize flat_map tail app].
    apply Forall_cons in Hsegs as [Hseg Hsegs]. apply Forall_app. split.
    - destruct Hseg as (H & _). eapply Forall_impl; [exact H|]. apply printable_path.
    - induction Hsegs as [|s ss Hs0 _ IH]; [constructor|].
      cbn [flat_map app]. constructor; [done|]. apply Forall_app. split; [|exact IH].
      destruct Hs0 as (H & _). eapply Forall_impl; [exact H|]. apply printable_path. }
  assert (HprintQ : Forall (fun c => printable c = true) (query_fragment_part query fragment)).
  { unfold query_fragment_part. apply Forall_app. split.
    - destruct query as [q|]; [|constructor]. constructor; [done|].
      eapply Forall_impl; [exact Hq|]. apply printable_special_query.
    - destruct fragment as [f|]; [|constructor]. constructor; [done|].
      eapply Forall_impl; [exact Hf|]. apply printable_fragment. }
  assert (Hprint : Forall (fun c => printable c = true)
                     (scheme ++ str "://" ++ AUTH ++ "/" :: TAIL)).
  { apply Forall_app. split; [destruct Hs as [-> | ->]; by repeat constructor|].
    apply Forall_app. split; [by repeat constructor|].
    apply Forall_app. split; [exact HprintA|].
    constructor; [done|]. unfold TAIL. by apply Forall_app. }
  unfold basic_url_parse. rewrite (preprocess_printable _ Hprint).
  assert (Hscheme : scheme_start_state (scheme ++ str "://" ++ AUTH ++ "/" :: TAIL)
                    = Some (scheme, str "//" ++ AUTH ++ "/" :: TAIL)).
  { by destruct Hs as [-> | ->]. }
  rewrite Hscheme, (http_or_https_not_file _ Hs), (http_or_https_special _ Hs).
  cbn [str String.list_ascii_of_string app special_authority_slashes_state].
  change (ascii_eqb "/" "/" && ascii_eqb "/" "/") with true. cbv iota.
  rewrite (ignore_slashes_id _ _ Hauth_ne Hauth_end).
  unfold parse_from_authority. rewrite (http_or_https_special _ Hs).
  unfold AUTH. rewrite <- !app_assoc.
  rewrite (app_assoc (host_serialize h)).
  rewrite (authority_reparse _ _ _ _ Hu Hp); [|by destruct (host_serialize h)|exact HHP].
  rewrite <- app_assoc.
  rewrite (host_state_reparse _ _ _ _ _ Hb Hport).
  cbn [path_start_state]. change (ascii_eqb "/" "/" || ascii_eqb "/" "\") with true.
  cbv iota. unfold TAIL.
  rewrite (path_reparse _ [] _ Hsegs Hne).
  - cbn [app]. by rewrite (query_fragment_reparse _ _ Hq Hf).
  - unfold query_fragment_part.
    destruct query as [q|]; [right; by eauto|].
    destruct fragment as [f|]; [right; by eauto|by left].
Qed.

End Reparse.

(** ** The claims *)

Section Claims.

Variable unicodeToASCII : jsstring -> option jsstring.

Local Abbreviation URL_new := (URL_new unicodeToASCII).
Local Abbreviation normalizeDest := (normalizeDest unicodeToASCII).
Local Abbreviation serve := (serve unicodeToASCII).

(** C1.  A present destination whose prepared form (one percent-decode,
    then scheme defaulting) does not parse as a URL with scheme [http] or
    [https], compared case-insensitively, is answered by 400 with the
    plain-text body "Invalid dest URL"; and whatever [normalizeDest]
    returns is the serialisation of a URL whose scheme is exactly [http]
    or [https]. *)
Theorem invalid_dest_rejected fetch env req s' :
  js_truthy (dest_of req) = true ->
  prepared (ToString (dest_of req)) s' ->
  (forall u, URL_new s' = Some u -> ~ is_http_scheme (url_scheme u)) ->
  sent (serve fetch env req) = [text_plain 400 "Invalid dest URL"]
  /\ resp_status (text_plain 400 "Invalid dest URL") = 400
  /\ resp_headers (text_plain 400 "Invalid dest URL") !! str "content-type"
     = Some (str "text/plain; charset=utf-8")
  /\ (forall v d,
        normalizeDest v = Some d ->
        exists u tail,
          d = URL_toString u /\ http_or_https (url_scheme u)
          /\ d = url_scheme u ++ str "://" ++ tail)
  /\ normalizeDest (JString (str "javascript:alert(1)")) = None
  /\ normalizeDest (JString (str "ftp://x")) = None
  /\ normalizeDest (JString (str "http://")) = None.
Proof.
  intros Hv Hp Hno.
  split; [|split; [done|split; [done|split; [|by vm_compute]]]].
  - apply (normalizeDest_None unicodeToASCII _ _ Hv Hp) in Hno.
    by rewrite (serve_invalid _ _ _ _ Hv Hno).
  - intros v d H. apply normalizeDest_Some in H as (s & u & _ & Hu & Hs & ->).
    destruct (basic_url_parse_http _ _ _ Hu Hs) as (h & b & Hh & _).
    destruct (url_serialize_prefix _ _ Hh) as [tail Ht]. eauto.
Qed.

(** C2.  A request without [dest], or with an empty [dest], is answered by
    400 "Missing dest parameter"; the whole effect of the run is this one
    response, whatever the environment, the tracker and the URL parser
    are: nothing is normalised, checked or fetched. *)
Theorem missing_dest_rejected fetch env req :
  dest_of req = Undefined \/ dest_of req = JString [] ->
  serve fetch env req
  = mkWorld 400 {[ str "content-type" := str "text/plain; charset=utf-8" ]}
      [text_plain 400 "Missing dest parameter"] [] [].
Proof.
  intros H. apply serve_missing. by destruct H as [-> | ->].
Qed.

(** C3.  [normalizeDest] decodes the raw value once (keeping it when
    decoding throws), prepends [https://] unless the string starts with a
    scheme followed by [://], parses, and returns the serialisation of the
    parsed URL; ["example.com/path"] becomes ["https://example.com/path"],
    an escape of an escape is decoded one level only, and the request
    [?dest=example.com&rid=abc123] without configuration is answered by
    302 with [Location: https://example.com/]. *)
Theorem normalization_steps v :
  js_truthy v = true ->
  (exists s1 s2,
     decoded_once (ToString v) s1 /\ scheme_defaulted s1 s2
     /\ ((exists u, URL_new s2 = Some u /\ is_http_scheme (url_scheme u)
                    /\ normalizeDest v = Some (URL_toString u))
         \/ ((forall u, URL_new s2 = Some u -> ~ is_http_scheme (url_scheme u))
             /\ normalizeDest v = None)))
  /\ normalizeDest (JString (str "example.com/path")) = Some (str "https://example.com/path")
  /\ normalizeDest (JString (str "example.com/%2561")) = Some (str "https://example.com/%61")
  /\ (forall fetch,
        sent (serve fetch ∅ (get_request "example.com" "abc123"))
        = [redirect_to (str "https://example.com/")]
        /\ resp_status (redirect_to (str "https://example.com/")) = 302
        /\ resp_headers (redirect_to (str "https://example.com/")) !! str "location"
           = Some (str "https://example.com/")
        /\ exists before after,
             resp_body (redirect_to (str "https://example.com/"))
             = before ++ str "href=" ++ "034" :: str "https://example.com/" ++ "034" :: after).
Proof.
  intros Hv. split; [|split; [|split]].
  - destruct (prepared_exists (ToString v)) as [s2 Hp].
    pose proof Hp as (s1 & Hd & Hs). exists s1, s2. split; [done|split; [done|]].
    destruct (normalizeDest v) as [d|] eqn:E.
    + left. apply normalizeDest_Some in E as (s' & u & Hp' & Hu & Hh & ->).
      rewrite (prepared_functional _ _ _ Hp Hp'). exists u. split; [done|split; [|done]].
      unfold is_http_scheme. destruct Hh as [-> | ->]; auto.
    + right. split; [|done]. by apply (normalizeDest_None unicodeToASCII _ _ Hv Hp).
  - vm_compute. reflexivity.
  - vm_compute. reflexivity.
  - intros fetch. split; [|split; [done|split]].
    + assert (Hn : normalizeDest (dest_of (get_request "example.com" "abc123"))
                   = Some (str "https://example.com/")) by (vm_compute; reflexivity).
      rewrite (serve_redirect _ _ _ _ _ (normalizeDest_truthy _ _ _ Hn) Hn
                 (normalizeDest_nonempty _ _ _ Hn)); [done|]. by left.
    + vm_compute. reflexivity.
    + exists (str "<html><body>Redirecting… If you are not redirected automatically, <a "),
             (str ">click here</a>.</body></html>").
      vm_compute. reflexivity.
Qed.

(** C5, as amended.  When [ALLOWED_DOMAINS] has a character that is not
    white space, the entries are the comma-separated pieces, trimmed,
    without the empty ones, and a destination is redirected exactly when
    its host name equals an entry or ends with a dot followed by an entry;
    otherwise the answer is 403 "Destination domain not allowed" in plain
    text.  With the list [behance.net], [sub.behance.net] is allowed and
    [evilbehance.net] is denied. *)
Theorem allowlist_decides fetch env req d u :
  truthy (trim (allowed_of env)) = true ->
  normalizeDest (dest_of req) = Some d ->
  URL_new d = Some u ->
  (forall e, In e (allowedList (allowed_of env))
             <-> e <> [] /\ exists piece, In piece (split "," (allowed_of env)) /\ e = trim piece)
  /\ (hostname_allowed (allowedList (allowed_of env)) (URL_hostname u)
      -> sent (serve fetch env req) = [redirect_to d])
  /\ (~ hostname_allowed (allowedList (allowed_of env)) (URL_hostname u)
      -> sent (serve fetch env req) = [text_plain 403 "Destination domain not allowed"])
  /\ hostname_allowed (allowedList (str "behance.net")) (str "sub.behance.net")
  /\ ~ hostname_allowed (allowedList (str "behance.net")) (str "evilbehance.net").
Proof.
  intros Ha Hn Hu.
  pose proof (normalizeDest_truthy _ _ _ Hn) as Hv.
  pose proof (normalizeDest_nonempty _ _ _ Hn) as Hd.
  split; [|split; [|split; [|split]]].
  - intros e. unfold allowedList. rewrite <- list_elem_of_In, list_elem_of_filter.
    rewrite list_elem_of_fmap. split.
    + intros [He (piece & -> & Hin)]. split; [by destruct (trim piece)|].
      exists piece. by rewrite <- list_elem_of_In.
    + intros [He (piece & Hin & ->)]. split; [by destruct (trim piece)|].
      exists piece. by rewrite list_elem_of_In.
  - intros Hok. rewrite (serve_redirect _ _ _ _ _ Hv Hn Hd); [done|]. right. eauto.
  - intros Hno. by rewrite (serve_denied _ _ _ _ _ _ Hv Hn Hd Ha Hu Hno).
  - apply allowlist_some_spec. vm_compute. reflexivity.
  - intros H. apply allowlist_some_spec in H. vm_compute in H. discriminate H.
Qed.

(** C6.  Without [ALLOWED_DOMAINS], or with the empty string, every
    destination that passes normalisation is redirected: the answer is the
    302 response, never 403. *)
Theorem no_allowlist_allows_all fetch env req d :
  normalizeDest (dest_of req) = Some d ->
  env !! "ALLOWED_DOMAINS"%stdpp = None \/ env !! "ALLOWED_DOMAINS"%stdpp = Some [] ->
  sent (serve fetch env req) = [redirect_to d]
  /\ resp_status (redirect_to d) = 302.
Proof.
  intros Hn He. split; [|done].
  pose proof (normalizeDest_truthy _ _ _ Hn) as Hv.
  pose proof (normalizeDest_nonempty _ _ _ Hn) as Hd.
  rewrite (serve_redirect _ _ _ _ _ Hv Hn Hd); [done|]. left.
  unfold allowed_of. by destruct He as [-> | ->].
Qed.

(** The notification is best effort.  Once a request has passed
    validation and the allowlist check, the answer is the 302 response
    with [Location] set to the normalised destination and an HTML body
    that holds the destination, as it is, between the quotes of an
    [href], whatever the tracker call does: resolve with any status,
    reject, be aborted by the timer, or throw.  Two runs that differ only
    in the tracker end in the same status, headers and body. *)
Lemma tracker_failure_swallowed fetch fetch' env req d :
  normalizeDest (dest_of req) = Some d ->
  (truthy (trim (allowed_of env)) = false
   \/ exists u, URL_new d = Some u
        /\ hostname_allowed (allowedList (allowed_of env)) (URL_hostname u)) ->
  sent (serve fetch env req) = [redirect_to d]
  /\ resp_status (redirect_to d) = 302
  /\ resp_headers (redirect_to d) !! str "location" = Some d
  /\ (exists before after,
        resp_body (redirect_to d)
        = before ++ str "<a href=" ++ "034" :: d ++ "034" :: str ">" ++ after)
  /\ sent (serve fetch' env req) = sent (serve fetch env req)
  /\ statusCode (serve fetch' env req) = statusCode (serve fetch env req)
  /\ headers (serve fetch' env req) = headers (serve fetch env req)
  /\ console (serve fetch env req) = [].
Proof.
  intros Hn Hok.
  pose proof (normalizeDest_truthy _ _ _ Hn) as Hv.
  pose proof (normalizeDest_nonempty _ _ _ Hn) as Hd.
  rewrite !(serve_redirect _ _ _ _ _ Hv Hn Hd Hok). cbn [sent statusCode headers console].
  split; [done|]. split; [done|]. split; [|split; [|done]].
  - unfold redirect_to. cbn [resp_headers].
    rewrite lookup_insert_ne by done. apply lookup_singleton_eq.
  - exists (str "<html><body>Redirecting… If you are not redirected automatically, "),
           (str "click here</a>.</body></html>").
    unfold redirect_to, redirect_body. cbn [resp_body].
    change (str "<html><body>Redirecting… If you are not redirected automatically, <a href=")
      with (str "<html><body>Redirecting… If you are not redirected automatically, "
            ++ str "<a href=").
    rewrite <- !app_assoc. reflexivity.
Qed.

(** C8.  Without [TRACKER_URL], or with the empty string, no request
    leaves the handler, whatever the request is, and a request that passes
    validation and the allowlist check still gets the 302 response. *)
Theorem no_tracker_no_outbound fetch env req :
  env !! "TRACKER_URL"%stdpp = None \/ env !! "TRACKER_URL"%stdpp = Some [] ->
  outbound (serve fetch env req) = []
  /\ (forall d,
        normalizeDest (dest_of req) = Some d ->
        (truthy (trim (allowed_of env)) = false
         \/ exists u, URL_new d = Some u
              /\ hostname_allowed (allowedList (allowed_of env)) (URL_hostname u)) ->
        sent (serve fetch env req) = [redirect_to d]).
Proof.
  intros Ht.
  assert (Htr : truthy (tracker_of env) = false).
  { unfold tracker_of. by destruct Ht as [-> | ->]. }
  split.
  - destruct (js_truthy (dest_of req)) eqn:Hv; [|by rewrite serve_missing].
    destruct (normalizeDest (dest_of req)) as [d|] eqn:Hn; [|by rewrite serve_invalid].
    pose proof (normalizeDest_nonempty _ _ _ Hn) as Hd.
    destruct (truthy (trim (allowed_of env))) eqn:Ha.
    + destruct (URL_new d) as [u|] eqn:Hu; [|by rewrite (serve_error _ _ _ _ _ Hv Hn Hd Ha Hu)].
      destruct (existsb (host_matches (URL_hostname u)) (allowedList (allowed_of env))) eqn:Hok.
      * apply allowlist_some_spec in Hok.
        rewrite (serve_redirect _ _ _ _ _ Hv Hn Hd); [|right; eauto].
        cbn [outbound]. unfold expected_outbound. by rewrite Htr.
      * assert (Hno : ~ hostname_allowed (allowedList (allowed_of env)) (URL_hostname u)).
        { intros H. apply allowlist_some_spec in H. congruence. }
        by rewrite (serve_denied _ _ _ _ _ _ Hv Hn Hd Ha Hu Hno).
    + rewrite (serve_redirect _ _ _ _ _ Hv Hn Hd); [|by left].
      cbn [outbound]. unfold expected_outbound. by rewrite Htr.
  - intros d Hn Hok.
    pose proof (normalizeDest_truthy _ _ _ Hn) as Hv.
    pose proof (normalizeDest_nonempty _ _ _ Hn) as Hd.
    by rewrite (serve_redirect _ _ _ _ _ Hv Hn Hd Hok).
Qed.

(** C9.  Every run emits exactly one response, and it is the first case
    that applies of: 400 "Missing dest parameter", 400 "Invalid dest URL",
    403 "Destination domain not allowed", the 302 redirect, and 500
    "Server error" when the handler body throws (the destination cannot be
    parsed again for the allowlist check).  The tracker cannot add or
    remove a response, whatever it does. *)
Theorem exactly_one_response fetch env req :
  exists r,
    sent (serve fetch env req) = [r]
    /\ ((js_truthy (dest_of req) = false /\ r = text_plain 400 "Missing dest parameter")
        \/ (js_truthy (dest_of req) = true /\ normalizeDest (dest_of req) = None
            /\ r = text_plain 400 "Invalid dest URL")
        \/ (exists d,
              js_truthy (dest_of req) = true /\ normalizeDest (dest_of req) = Some d
              /\ ((truthy (trim (allowed_of env)) = true
                   /\ (exists u, URL_new d = Some u
                         /\ ~ hostname_allowed (allowedList (allowed_of env)) (URL_hostname u))
                   /\ r = text_plain 403 "Destination domain not allowed")
                  \/ ((truthy (trim (allowed_of env)) = false
                       \/ exists u, URL_new d = Some u
                            /\ hostname_allowed (allowedList (allowed_of env)) (URL_hostname u))
                      /\ r = redirect_to d)
                  \/ (truthy (trim (allowed_of env)) = true /\ URL_new d = None
                      /\ r = text_plain 500 "Server error")))).
Proof.
  destruct (js_truthy (dest_of req)) eqn:Hv.
  2: { eexists. rewrite (serve_missing _ _ _ _ Hv). split; [done|]. by left. }
  destruct (normalizeDest (dest_of req)) as [d|] eqn:Hn.
  2: { eexists. rewrite (serve_invalid _ _ _ _ Hv Hn). split; [done|]. right. by left. }
  pose proof (normalizeDest_nonempty _ _ _ Hn) as Hd.
  destruct (truthy (trim (allowed_of env))) eqn:Ha.
  - destruct (URL_new d) as [u|] eqn:Hu.
    + destruct (existsb (host_matches (URL_hostname u)) (allowedList (allowed_of env))) eqn:Hok.
      * apply allowlist_some_spec in Hok. eexists.
        rewrite (serve_redirect _ _ _ _ _ Hv Hn Hd); [|right; eauto].
        split; [done|]. right. right. exists d. split; [done|split; [done|]].
        right. left. split; [|done]. right. eauto.
      * assert (Hno : ~ hostname_allowed (allowedList (allowed_of env)) (URL_hostname u)).
        { intros H. apply allowlist_some_spec in H. congruence. }
        eexists. rewrite (serve_denied _ _ _ _ _ _ Hv Hn Hd Ha Hu Hno).
        split; [done|]. right. right. exists d. split; [done|split; [done|]].
        left. split; [done|]. split; [|done]. eauto.
    + eexists. rewrite (serve_error _ _ _ _ _ Hv Hn Hd Ha Hu).
      split; [done|]. right. right. exists d. split; [done|split; [done|]].
      right. right. done.
  - eexists. rewrite (serve_redirect _ _ _ _ _ Hv Hn Hd); [|by left].
    split; [done|]. right. right. exists d. split; [done|split; [done|]].
    right. left. split; [by left|done].
Qed.

End Claims.

Lemma invalid_dest_rejected_witness :
  sent (serve ascii_only (fun _ => Resolves 200) ∅ (get_request "javascript:alert(1)" ""))
  = [text_plain 400 "Invalid dest URL"].
Proof.
  refine (proj1 (invalid_dest_rejected ascii_only (fun _ => Resolves 200) ∅
            (get_request "javascript:alert(1)" "") (str "https://javascript:alert(1)") _ _ _)).
  - vm_compute. reflexivity.
  - apply prepared_iff. vm_compute. reflexivity.
  - intros u Hu. vm_compute in Hu. discriminate Hu.
Defined.

Lemma missing_dest_rejected_witness :
  sent (serve ascii_only (fun _ => Resolves 200) ∅ (mkRequest None))
  = [text_plain 400 "Missing dest parameter"].
Proof.
  rewrite (missing_dest_rejected ascii_only (fun _ => Resolves 200) ∅ (mkRequest None)).
  - reflexivity.
  - left. vm_compute. reflexivity.
Defined.

Section Idempotence.

Variable unicodeToASCII : jsstring -> option jsstring.

Hypothesis unicodeToASCII_lower : forall s r, unicodeToASCII s = Some r -> no_upper r.
Hypothesis unicodeToASCII_stable :
  forall s r, unicodeToASCII s = Some r ->
              plain_ascii_domain r = true \/ unicodeToASCII r = Some r.

(** C4, as amended.  Normalising a normalised destination gives it back
    when the destination has no percent sign, or has one but cannot be
    percent-decoded; a destination that carries a decodable escape is
    decoded a second time and may change. *)
Theorem normalization_idempotent_without_escapes v d :
  normalizeDest unicodeToASCII v = Some d ->
  ~ In "%" d \/ decodeURIComponent d = None ->
  normalizeDest unicodeToASCII (JString d) = Some d.
Proof.
  intros H Hpct.
  pose proof (normalizeDest_nonempty _ _ _ H) as Hne.
  pose proof (normalizeDest_prefix _ _ _ H) as (scheme & tail & Hsch & Hp).
  apply normalizeDest_Some in H as (s' & u & _ & Hu & Hs & Hd).
  pose proof (basic_url_parse_canonical _ _ _ Hu Hs) as Hcan.
  pose proof (canonical_reparse _ unicodeToASCII_lower unicodeToASCII_stable _ Hcan)
    as Hre.
  assert (Hprep : prepared (ToString (JString d)) d).
  { apply prepared_iff. cbn [ToString]. cbv zeta.
    assert (Hdec : default d (decodeURIComponent d) = d).
    { destruct Hpct as [Hpct | ->]; [|done].
      unfold decodeURIComponent. by rewrite (decode_go_no_percent _ Hpct). }
    rewrite Hdec.
    assert (Hre' : RegExp_test scheme_prefix_re d = true)
      by (rewrite Hp; by apply scheme_prefix_test_http).
    by rewrite Hre'. }
  rewrite (normalizeDest_unfold _ (JString d) d Hne Hprep).
  unfold URL_new. rewrite Hd at 1. unfold URL_toString. rewrite Hre.
  assert (Ht : RegExp_test http_protocol_re (URL_protocol u) = true).
  { apply protocol_test_spec. unfold is_http_scheme. destruct Hs as [-> | ->]; auto. }
  by rewrite Ht, Hd.
Qed.

End Idempotence.

Lemma normalization_idempotent_without_escapes_witness :
  normalizeDest ascii_only (JString (str "example.com/path"))
  = Some (str "https://example.com/path")
  /\ normalizeDest ascii_only (JString (str "https://example.com/path"))
     = Some (str "https://example.com/path").
Proof.
  assert (H1 : normalizeDest ascii_only (JString (str "example.com/path"))
               = Some (str "https://example.com/path")) by (vm_compute; reflexivity).
  split; [exact H1|].
  apply (normalization_idempotent_without_escapes ascii_only) with (v := JString (str "example.com/path")).
  - intros s r H. discriminate H.
  - intros s r H. discriminate H.
  - exact H1.
  - left. intros H. vm_compute in H. intuition discriminate.
Defined.

Section NoServerError.

Variable unicodeToASCII : jsstring -> option jsstring.

Hypothesis unicodeToASCII_lower : forall s r, unicodeToASCII s = Some r -> no_upper r.
Hypothesis unicodeToASCII_stable :
  forall s r, unicodeToASCII s = Some r ->
              plain_ascii_domain r = true \/ unicodeToASCII r = Some r.

(** The allowlist check parses the normalised destination again; this
    second parse cannot throw, so the handler body has no exception left
    to hand to the outer [catch]. *)
Lemma normalized_dest_reparses v d :
  normalizeDest unicodeToASCII v = Some d ->
  exists u, URL_new unicodeToASCII d = Some u /\ URL_toString u = d.
Proof.
  intros H. apply normalizeDest_Some in H as (s' & u & _ & Hu & Hs & ->).
  exists u. split; [|done].
  apply (canonical_reparse _ unicodeToASCII_lower unicodeToASCII_stable).
  by apply (basic_url_parse_canonical _ _ _ Hu Hs).
Qed.

End NoServerError.

Section CaseSensitivity.

Variable unicodeToASCII : jsstring -> option jsstring.

Hypothesis unicodeToASCII_lower : forall s r, unicodeToASCII s = Some r -> no_upper r.

(** C10.  The host name of a normalised destination has no upper-case
    letter, and the allowlist compares it with the entries as they are
    written; so an entry with an upper-case letter matches no destination,
    neither as the host itself nor as a parent domain, and putting it in
    the list allows nothing more. *)
Theorem uppercase_entry_never_matches v d u e :
  normalizeDest unicodeToASCII v = Some d ->
  URL_new unicodeToASCII d = Some u ->
  (exists c, In c e /\ is_upper c = true) ->
  no_upper (URL_hostname u)
  /\ host_matches (URL_hostname u) e = false
  /\ (forall before after,
        hostname_allowed (before ++ e :: after) (URL_hostname u)
        <-> hostname_allowed (before ++ after) (URL_hostname u)).
Proof.
  intros Hn Hu (c & Hc & Hup).
  assert (Hlow : no_upper (URL_hostname u)).
  { apply (http_hostname_no_upper _ unicodeToASCII_lower _ _ Hu).
    by apply (normalizeDest_reparse _ _ _ _ Hn Hu). }
  assert (Hno : ~ (URL_hostname u = e \/ is_subdomain_of (URL_hostname u) e)).
  { intros H.
    assert (Hin : In c (URL_hostname u)).
    { destruct H as [-> | [p ->]]; [done|].
      apply in_or_app. right. by right. }
    unfold no_upper in Hlow. rewrite Forall_forall in Hlow.
    apply list_elem_of_In, Hlow in Hin. congruence. }
  split; [done|]. split.
  - apply not_true_is_false. intros H. by apply host_matches_spec in H.
  - intros before after. unfold hostname_allowed. split; intros (a & Ha & H); exists a.
    + split; [|done]. apply in_app_or in Ha as [Ha | [<- | Ha]].
      * apply in_or_app. by left.
      * done.
      * apply in_or_app. by right.
    + split; [|done]. apply in_app_or in Ha as [Ha | Ha]; apply in_or_app.
      * by left.
      * right. by right.
Qed.

End CaseSensitivity.

(** ** Evaluations at concrete requests *)

Lemma normalization_steps_witness :
  js_truthy (JString (str "example.com/path")) = true
  /\ normalizeDest ascii_only (JString (str "example.com/path"))
     = Some (str "https://example.com/path").
Proof.
  split; [reflexivity|].
  exact (proj1 (proj2 (normalization_steps ascii_only (JString (str "example.com/path"))
                         eq_refl))).
Defined.

(** C4 fails as stated: the normalised form of
    [https://example.com/a%2523b] is [https://example.com/a%23b], and
    normalising that gives [https://example.com/a#b]. *)
Lemma normalization_not_idempotent :
  normalizeDest ascii_only (JString (str "https://example.com/a%2523b"))
  = Some (str "https://example.com/a%23b")
  /\ normalizeDest ascii_only (JString (str "https://example.com/a%23b"))
     = Some (str "https://example.com/a#b")
  /\ ~ (forall raw d,
          normalizeDest ascii_only (JString raw) = Some d ->
          normalizeDest ascii_only (JString d) = Some d).
Proof.
  assert (H1 : normalizeDest ascii_only (JString (str "https://example.com/a%2523b"))
               = Some (str "https://example.com/a%23b")) by (vm_compute; reflexivity).
  assert (H2 : normalizeDest ascii_only (JString (str "https://example.com/a%23b"))
               = Some (str "https://example.com/a#b")) by (vm_compute; reflexivity).
  split; [done|]. split; [done|].
  intros H. specialize (H _ _ H1). rewrite H2 in H. discriminate H.
Qed.

(** C5 fails as stated for a list that is not empty but blank: with
    [ALLOWED_DOMAINS] a single space there is no entry, yet the check is
    skipped and the destination is redirected. *)
Lemma blank_allowlist_allows_all :
  allowed_of (allow_env " ") <> []
  /\ allowedList (allowed_of (allow_env " ")) = []
  /\ sent (serve ascii_only (fun _ => Resolves 200) (allow_env " ")
             (get_request "https://example.com/" ""))
     = [redirect_to (str "https://example.com/")]
  /\ ~ (forall env req d u,
          allowed_of env <> [] ->
          normalizeDest ascii_only (dest_of req) = Some d ->
          URL_new ascii_only d = Some u ->
          (sent (serve ascii_only (fun _ => Resolves 200) env req) = [redirect_to d]
           <-> hostname_allowed (allowedList (allowed_of env)) (URL_hostname u))).
Proof.
  assert (Hs : sent (serve ascii_only (fun _ => Resolves 200) (allow_env " ")
                       (get_request "https://example.com/" ""))
               = [redirect_to (str "https://example.com/")]).
  { assert (Hn : normalizeDest ascii_only (dest_of (get_request "https://example.com/" ""))
                 = Some (str "https://example.com/")) by (vm_compute; reflexivity).
    rewrite (serve_redirect _ _ _ _ _ (normalizeDest_truthy _ _ _ Hn) Hn
               (normalizeDest_nonempty _ _ _ Hn)); [done|].
    left. vm_compute. reflexivity. }
  split; [discriminate|]. split; [vm_compute; reflexivity|]. split; [exact Hs|].
  intros H.
  destruct (URL_new ascii_only (str "https://example.com/")) as [u|] eqn:Hu;
    [|vm_compute in Hu; discriminate Hu].
  specialize (H (allow_env " ") (get_request "https://example.com/" "")
                (str "https://example.com/") u).
  destruct H as [H _]; [discriminate|vm_compute; reflexivity|exact Hu|].
  destruct (H Hs) as (e & He & _). vm_compute in He. exact He.
Qed.

Lemma allowlist_decides_witness :
  truthy (trim (allowed_of (allow_env "behance.net"))) = true
  /\ sent (serve ascii_only (fun _ => Resolves 200) (allow_env "behance.net")
             (get_request "https://evilbehance.net/x" ""))
     = [text_plain 403 "Destination domain not allowed"]
  /\ sent (serve ascii_only (fun _ => Resolves 200) (allow_env "behance.net")
             (get_request "https://sub.behance.net/x" ""))
     = [redirect_to (str "https://sub.behance.net/x")].
Proof.
  split; [vm_compute; reflexivity|]. split.
  - assert (Hn : normalizeDest ascii_only (dest_of (get_request "https://evilbehance.net/x" ""))
                 = Some (str "https://evilbehance.net/x")) by (vm_compute; reflexivity).
    destruct (URL_new ascii_only (str "https://evilbehance.net/x")) as [u|] eqn:Hu;
      [|vm_compute in Hu; discriminate Hu].
    assert (Ha : truthy (trim (allowed_of (allow_env "behance.net"))) = true)
      by (vm_compute; reflexivity).
    pose proof (allowlist_decides ascii_only (fun _ => Resolves 200) _ _ _ _ Ha Hn Hu)
      as (_ & _ & Hdeny & _).
    apply Hdeny. intros H. apply allowlist_some_spec in H.
    vm_compute in Hu. injection Hu as <-. vm_compute in H. discriminate H.
  - assert (Hn : normalizeDest ascii_only (dest_of (get_request "https://sub.behance.net/x" ""))
                 = Some (str "https://sub.behance.net/x")) by (vm_compute; reflexivity).
    destruct (URL_new ascii_only (str "https://sub.behance.net/x")) as [u|] eqn:Hu;
      [|vm_compute in Hu; discriminate Hu].
    assert (Ha : truthy (trim (allowed_of (allow_env "behance.net"))) = true)
      by (vm_compute; reflexivity).
    pose proof (allowlist_decides ascii_only (fun _ => Resolves 200) _ _ _ _ Ha Hn Hu)
      as (_ & Hallow & _).
    apply Hallow. apply allowlist_some_spec.
    vm_compute in Hu. injection Hu as <-. vm_compute. reflexivity.
Defined.

Lemma no_allowlist_allows_all_witness :
  (∅ : gmap string jsstring) !! "ALLOWED_DOMAINS"%stdpp = None
  /\ sent (serve ascii_only (fun _ => Resolves 200) ∅ (get_request "example.com" "abc123"))
     = [redirect_to (str "https://example.com/")].
Proof.
  split; [reflexivity|].
  apply (no_allowlist_allows_all ascii_only (fun _ => Resolves 200) ∅
           (get_request "example.com" "abc123")).
  - vm_compute. reflexivity.
  - left. reflexivity.
Defined.

Lemma no_tracker_no_outbound_witness :
  (allow_env "behance.net") !! "TRACKER_URL"%stdpp = None
  /\ outbound (serve ascii_only (fun _ => Resolves 200) (allow_env "behance.net")
                 (get_request "https://sub.behance.net/x" "abc123")) = [].
Proof.
  split; [vm_compute; reflexivity|].
  apply (no_tracker_no_outbound ascii_only (fun _ => Resolves 200) (allow_env "behance.net")
           (get_request "https://sub.behance.net/x" "abc123")).
  left. vm_compute. reflexivity.
Defined.

Lemma uppercase_entry_never_matches_witness :
  host_matches (str "behance.net") (str "Behance.net") = false
  /\ exists u, URL_new ascii_only (str "https://behance.net/") = Some u
       /\ host_matches (URL_hostname u) (str "Behance.net") = false.
Proof.
  split; [vm_compute; reflexivity|].
  assert (Hn : normalizeDest ascii_only (JString (str "https://BEHANCE.net"))
               = Some (str "https://behance.net/")) by (vm_compute; reflexivity).
  destruct (URL_new ascii_only (str "https://behance.net/")) as [u|] eqn:Hu;
    [|vm_compute in Hu; discriminate Hu].
  exists u. split; [reflexivity|].
  assert (Hl : forall s r, ascii_only s = Some r -> no_upper r)
    by (intros s r H; discriminate H).
  apply (uppercase_entry_never_matches ascii_only Hl _ _ u (str "Behance.net") Hn Hu).
  exists "B". split; [by left|reflexivity].
Defined.
(** ** Further properties of the handler *)

Section HandlerRuns.

Variable unicodeToASCII : jsstring -> option jsstring.

Local Abbreviation URL_new := (URL_new unicodeToASCII).
Local Abbreviation normalizeDest := (normalizeDest unicodeToASCII).
Local Abbreviation serve := (serve unicodeToASCII).

(** The five ways a run can end, with the whole final state of each. *)
Lemma serve_cases fetch env req :
  (js_truthy (dest_of req) = false
   /\ serve fetch env req
      = mkWorld 400 {[ str "content-type" := str "text/plain; charset=utf-8" ]}
          [text_plain 400 "Missing dest parameter"] [] [])
  \/ (js_truthy (dest_of req) = true /\ normalizeDest (dest_of req) = None
      /\ serve fetch env req
         = mkWorld 400 {[ str "content-type" := str "text/plain; charset=utf-8" ]}
             [text_plain 400 "Invalid dest URL"] [] [])
  \/ exists d,
       js_truthy (dest_of req) = true /\ normalizeDest (dest_of req) = Some d
       /\ ((truthy (trim (allowed_of env)) = true
            /\ (exists u, URL_new d = Some u
                  /\ ~ hostname_allowed (allowedList (allowed_of env)) (URL_hostname u))
            /\ serve fetch env req
               = mkWorld 403 {[ str "content-type" := str "text/plain; charset=utf-8" ]}
                   [text_plain 403 "Destination domain not allowed"] [] [])
           \/ ((truthy (trim (allowed_of env)) = false
                \/ exists u, URL_new d = Some u
                     /\ hostname_allowed (allowedList (allowed_of env)) (URL_hostname u))
               /\ serve fetch env req
                  = mkWorld 302
                      (<[ str "content-type" := str "text/html; charset=utf-8" ]>
                         {[ str "location" := d ]})
                      [redirect_to d] (expected_outbound fetch env req d) [])
           \/ (truthy (trim (allowed_of env)) = true /\ URL_new d = None
               /\ serve fetch env req
                  = mkWorld 500 {[ str "content-type" := str "text/plain; charset=utf-8" ]}
                      [text_plain 500 "Server error"] [] [str "redirect error"])).
Proof.
  destruct (js_truthy (dest_of req)) eqn:Hv.
  2: { left. split; [done|]. by apply serve_missing. }
  destruct (normalizeDest (dest_of req)) as [d|] eqn:Hn.
  2: { right. left. split; [done|]. split; [done|]. by apply serve_invalid. }
  right. right. exists d. split; [done|]. split; [done|].
  pose proof (normalizeDest_nonempty _ _ _ Hn) as Hd.
  destruct (truthy (trim (allowed_of env))) eqn:Ha.
  - destruct (URL_new d) as [u|] eqn:Hu.
    + destruct (existsb (host_matches (URL_hostname u)) (allowedList (allowed_of env))) eqn:Hok.
      * apply allowlist_some_spec in Hok. right. left. split; [right; eauto|].
        apply serve_redirect; [done..|]. right. eauto.
      * assert (Hno : ~ hostname_allowed (allowedList (allowed_of env)) (URL_hostname u)).
        { intros H. apply allowlist_some_spec in H. congruence. }
        left. split; [done|]. split; [eauto|].
        apply (serve_denied _ _ _ _ _ _ Hv Hn Hd Ha Hu Hno).
    + right. right. split; [done|]. split; [done|].
      apply (serve_error _ _ _ _ _ Hv Hn Hd Ha Hu).
  - right. left. split; [by left|]. apply serve_redirect; [done..|]. by left.
Qed.

(** X1.  The tracker is contacted at most once in a run, and only in a run
    that answers with the redirect: a request answered by 400, 403 or 500
    notifies nobody.  When it is contacted, the request goes to the
    tracker URL built from [TRACKER_URL], [rid] and the normalised
    destination. *)
Theorem tracker_called_only_on_redirect fetch env req :
  outbound (serve fetch env req) = []
  \/ exists d,
       normalizeDest (dest_of req) = Some d
       /\ truthy (tracker_of env) = true
       /\ sent (serve fetch env req) = [redirect_to d]
       /\ outbound (serve fetch env req) = [tracker_url (tracker_of env) (rid_of req) d].
Proof.
  destruct (serve_cases fetch env req)
    as [[_ ->] | [(_ & _ & ->) | (d & _ & Hn & [(_ & _ & ->) | [(_ & ->) | (_ & _ & ->)]])]];
    try (by left).
  cbn [outbound sent]. unfold expected_outbound.
  destruct (truthy (tracker_of env)) eqn:Ht; [|by left].
  destruct (fetch _) eqn:Hf; try (by left); right; exists d; done.
Qed.

(** X2.  With [TRACKER_URL] set and [fetch] callable, a request that is
    redirected and whose [rid] and destination are well-formed strings
    (no lone surrogate, on which [encodeURIComponent] throws) sends
    exactly one request, to [TRACKER_URL] followed by [?] (or by [&] when
    [TRACKER_URL] already has a [?]) and
    [action=track&rid=<rid>&dest=<dest>], both values encoded by
    [encodeURIComponent]; a missing or empty [rid] is sent as the empty
    value. *)
Theorem tracker_request_sent fetch env req d :
  normalizeDest (dest_of req) = Some d ->
  (truthy (trim (allowed_of env)) = false
   \/ exists u, URL_new d = Some u
        /\ hostname_allowed (allowedList (allowed_of env)) (URL_hostname u)) ->
  tracker_of env <> [] ->
  fetch (tracker_url (tracker_of env) (rid_of req) d) <> NotCallable ->
  utf8_well_formed (ToString (rid_of req)) = true ->
  utf8_well_formed d = true ->
  (exists sep,
     outbound (serve fetch env req)
     = [tracker_of env ++ sep :: str "action=track&rid="
          ++ encodeURIComponent (ToString (rid_of req))
          ++ str "&dest=" ++ encodeURIComponent d]
     /\ (sep = "?" /\ ~ In "?" (tracker_of env) \/ sep = "&" /\ In "?" (tracker_of env)))
  /\ (js_truthy (default Undefined (default ∅ (req_query req) !! "rid"%stdpp)) = false ->
      ToString (rid_of req) = []).
Proof.
  intros Hn Hok Ht Hf _ _. split.
  - pose proof (normalizeDest_truthy _ _ _ Hn) as Hv.
    pose proof (normalizeDest_nonempty _ _ _ Hn) as Hd.
    rewrite (serve_redirect _ _ _ _ _ Hv Hn Hd Hok). cbn [outbound].
    unfold expected_outbound.
    assert (Htr : truthy (tracker_of env) = true) by (by destruct (tracker_of env)).
    rewrite Htr.
    assert (Hurl : exists sep,
               tracker_url (tracker_of env) (rid_of req) d
               = tracker_of env ++ sep :: str "action=track&rid="
                   ++ encodeURIComponent (ToString (rid_of req))
                   ++ str "&dest=" ++ encodeURIComponent d
               /\ (sep = "?" /\ ~ In "?" (tracker_of env)
                   \/ sep = "&" /\ In "?" (tracker_of env))).
    { unfold tracker_url.
      assert (Hrid : ToString (if js_truthy (rid_of req) then rid_of req else JString [])
                     = ToString (rid_of req)).
      { unfold rid_of.
        destruct (default ∅ (req_query req) !! "rid"%stdpp) as [[|[|c r]|l]|]; reflexivity. }
      rewrite Hrid. unfold indexOf_is_minus1.
      destruct (existsb (ascii_eqb "?") (tracker_of env)) eqn:Eq; cbn [negb].
      - exists "&". split; [reflexivity|]. right. split; [done|].
        apply existsb_exists in Eq as (c & Hc & E). by apply ascii_eqb_eq in E as <-.
      - exists "?". split; [reflexivity|]. left. split; [done|]. intros Hin.
        assert (existsb (ascii_eqb "?") (tracker_of env) = true); [|congruence].
        apply existsb_exists. exists "?". split; [done|]. by apply ascii_eqb_eq. }
    destruct Hurl as (sep & Hurl & Hsep). exists sep. split; [|done].
    rewrite <- Hurl. by destruct (fetch _).
  - unfold rid_of. destruct (default ∅ (req_query req) !! "rid"%stdpp) as [[|s|l]|]; try done.
    cbn. by destruct s.
Qed.

(** X7.  The response that is emitted carries the final status and the final
    headers of [res]: nothing is set after [res.end].  A redirect has the
    HTML content type and a [Location] header holding the normalised
    destination; every other response is plain text and has no
    [Location]. *)
Theorem response_matches_final_state fetch env req :
  Forall (fun r =>
            resp_status r = statusCode (serve fetch env req)
            /\ resp_headers r = headers (serve fetch env req)
            /\ ((resp_status r = 302
                 /\ resp_headers r !! str "content-type"
                    = Some (str "text/html; charset=utf-8")
                 /\ exists d, resp_headers r !! str "location" = Some d
                      /\ normalizeDest (dest_of req) = Some d)
                \/ (resp_status r <> 302
                    /\ resp_headers r !! str "content-type"
                       = Some (str "text/plain; charset=utf-8")
                    /\ resp_headers r !! str "location" = None)))
         (sent (serve fetch env req)).
Proof.
  destruct (serve_cases fetch env req)
    as [[_ ->] | [(_ & _ & ->) | (d & _ & Hn & [(_ & _ & ->) | [(_ & ->) | (_ & _ & ->)]])]];
    cbn [sent statusCode headers]; apply Forall_singleton;
    (split; [reflexivity|split; [reflexivity|]]);
    try (right; split; [done|split; reflexivity]).
  left. split; [reflexivity|]. split.
  - unfold redirect_to. cbn [resp_headers]. apply lookup_insert_eq.
  - exists d. split; [|done]. unfold redirect_to. cbn [resp_headers].
    rewrite lookup_insert_ne by done. apply lookup_singleton_eq.
Qed.

(** X10.  The response depends on the request through [dest] only and on the
    environment through [ALLOWED_DOMAINS] only: [rid], [TRACKER_URL] and
    the behaviour of [fetch] change neither the status, the headers, the
    body nor the error log. *)
Theorem response_depends_on_dest_and_allowlist fetch fetch' env env' req req' :
  dest_of req = dest_of req' ->
  allowed_of env = allowed_of env' ->
  sent (serve fetch env req) = sent (serve fetch' env' req')
  /\ statusCode (serve fetch env req) = statusCode (serve fetch' env' req')
  /\ headers (serve fetch env req) = headers (serve fetch' env' req')
  /\ console (serve fetch env req) = console (serve fetch' env' req').
Proof.
  intros Hd Ha.
  destruct (serve_cases fetch env req)
    as [[Hv ->] | [(Hv & Hn & ->) | (d & Hv & Hn & [(Ht & (u & Hu & Hno) & ->)
                                   | [(Hok & ->) | (Ht & Hu & ->)]])]];
    rewrite ?Hd, ?Ha in *.
  - by rewrite (serve_missing _ fetch' env' req' Hv).
  - by rewrite (serve_invalid _ fetch' env' req' Hv Hn).
  - pose proof (normalizeDest_nonempty _ _ _ Hn) as Hne.
    by rewrite (serve_denied _ fetch' env' req' d u Hv Hn Hne Ht Hu Hno).
  - pose proof (normalizeDest_nonempty _ _ _ Hn) as Hne.
    by rewrite (serve_redirect _ fetch' env' req' d Hv Hn Hne Hok).
  - pose proof (normalizeDest_nonempty _ _ _ Hn) as Hne.
    by rewrite (serve_error _ fetch' env' req' d Hv Hn Hne Ht Hu).
Qed.

(** X11.  A repeated [dest] parameter reaches the handler as an array; it is
    normalised as the comma-joined string, and when that string is empty
    the value is invalid.  Such a request is never answered by "Missing
    dest parameter", because an array is truthy. *)
Theorem repeated_dest_is_joined l :
  normalizeDest (JArray l)
  = (if truthy (join_comma l) then normalizeDest (JString (join_comma l)) else None)
  /\ forall fetch env,
       sent (serve fetch env (repeated_dest_request l))
       <> [text_plain 400 "Missing dest parameter"].
Proof.
  split.
  - unfold normalizeDest. cbn [js_truthy ToString negb].
    destruct (join_comma l) as [|c s] eqn:E; [|reflexivity].
    vm_compute. reflexivity.
  - intros fetch env.
    assert (Hd : dest_of (repeated_dest_request l) = JArray l).
    { vm_compute. reflexivity. }
    destruct (serve_cases fetch env (repeated_dest_request l))
      as [[Hv _] | [(_ & _ & ->) | (d & _ & _ & [(_ & _ & ->) | [(_ & ->) | (_ & _ & ->)]])]];
      cbn [sent].
    + by rewrite Hd in Hv.
    + intros H. apply (f_equal (map resp_body)) in H. discriminate H.
    + intros H. apply (f_equal (map resp_status)) in H. discriminate H.
    + intros H. apply (f_equal (map resp_status)) in H. discriminate H.
    + intros H. apply (f_equal (map resp_status)) in H. discriminate H.
Qed.

End HandlerRuns.
(** ** [encodeURIComponent] and [decodeURIComponent] *)

Lemma hex_octet_upper_hex c :
  hex_octet (upper_hex_digit (code c / 16)) (upper_hex_digit (code c mod 16)) = Some (code c).
Proof. destruct c as [[] [] [] [] [] [] [] []]; vm_compute; reflexivity. Qed.

Lemma ascii_of_code c : ascii_of_nat (code c) = c.
Proof. apply ascii_nat_embedding. Qed.

Lemma unreserved_ascii c : uri_unreserved c = true -> (code c <? 128)%nat = true /\ ascii_eqb c "%" = false.
Proof. destruct c as [[] [] [] [] [] [] [] []]; vm_compute; intros H; done. Qed.

Lemma encoded_char_confined c :
  forallb (fun x => negb (query_delimiter x) && (uri_unreserved x || ascii_eqb x "%"))
    (if uri_unreserved c then [c] else percent_encode_byte c) = true.
Proof. destruct c as [[] [] [] [] [] [] [] []]; vm_compute; reflexivity. Qed.

Lemma encodeURIComponent_cons c s :
  encodeURIComponent (c :: s)
  = (if uri_unreserved c then [c] else percent_encode_byte c) ++ encodeURIComponent s.
Proof. reflexivity. Qed.

Lemma encodeURIComponent_confined s :
  Forall (fun x => query_delimiter x = false /\ (uri_unreserved x = true \/ x = "%"))
    (encodeURIComponent s).
Proof.
  induction s as [|c s IH]; [constructor|].
  rewrite encodeURIComponent_cons. apply Forall_app. split; [|done].
  pose proof (encoded_char_confined c) as H. rewrite forallb_forall in H.
  apply Forall_forall. intros x Hx. apply list_elem_of_In, H in Hx.
  apply andb_true_iff in Hx as [H1 H2]. apply negb_true_iff in H1.
  split; [done|]. apply orb_true_iff in H2 as [H2 | H2]; [by left|].
  right. by apply ascii_eqb_eq.
Qed.

(** One escape read by [Decode]. *)
Lemma decode_go_escape pending need c rest :
  decode_go pending need (percent_encode_byte c ++ rest)
  = match need with
    | 0 =>
        if (code c <? 128)%nat then
          option_map (cons c) (decode_go [] 0 rest)
        else
          let n := leading_ones (code c) in
          if (n =? 1)%nat || (4 <? n)%nat then None
          else decode_go [code c] (n - 1) rest
    | S k =>
        let octets := pending ++ [code c] in
        match k with
        | 0 =>
            if valid_utf8_multibyte octets
            then option_map (app (map ascii_of_nat octets)) (decode_go [] 0 rest)
            else None
        | S _ => decode_go octets k rest
        end
    end.
Proof.
  unfold percent_encode_byte. cbn [app decode_go].
  change (ascii_eqb "%" "%") with true. cbv iota.
  rewrite hex_octet_upper_hex. by rewrite ascii_of_code.
Qed.

Lemma decode_go_literal c rest :
  ascii_eqb c "%" = false ->
  decode_go [] 0 (c :: rest) = option_map (cons c) (decode_go [] 0 rest).
Proof. intros H. cbn [decode_go]. by rewrite H. Qed.

Lemma between_spec lo hi n : between lo hi n = true <-> lo <= n <= hi.
Proof. unfold between. rewrite andb_true_iff, !Nat.leb_le. lia. Qed.

Ltac bool_props H :=
  repeat first
    [ rewrite andb_true_iff in H | rewrite orb_true_iff in H
    | rewrite between_spec in H | rewrite Nat.eqb_eq in H ].

Lemma valid_two a b :
  valid_utf8_multibyte [a; b] = true -> 194 <= a <= 223 /\ 128 <= b.
Proof. cbn [valid_utf8_multibyte]. intros H. bool_props H. lia. Qed.

Lemma valid_three a b c :
  valid_utf8_multibyte [a; b; c] = true -> 224 <= a <= 239 /\ 128 <= b /\ 128 <= c.
Proof. cbn [valid_utf8_multibyte]. intros H. bool_props H. lia. Qed.

Lemma valid_four a b c d :
  valid_utf8_multibyte [a; b; c; d] = true ->
  240 <= a <= 244 /\ 128 <= b /\ 128 <= c /\ 128 <= d.
Proof. cbn [valid_utf8_multibyte]. intros H. bool_props H. lia. Qed.

Lemma encode_high c rest :
  128 <= code c ->
  encodeURIComponent (c :: rest) = percent_encode_byte c ++ encodeURIComponent rest.
Proof.
  intros H. rewrite encodeURIComponent_cons.
  destruct (uri_unreserved c) eqn:E; [|done].
  apply unreserved_ascii in E as [E _]. apply Nat.ltb_lt in E. lia.
Qed.

Lemma decode_lead n rest :
  128 <= code n ->
  decode_go [] 0 (percent_encode_byte n ++ rest)
  = if (leading_ones (code n) =? 1)%nat || (4 <? leading_ones (code n))%nat then None
    else decode_go [code n] (leading_ones (code n) - 1) rest.
Proof.
  intros H. rewrite decode_go_escape.
  assert (E : (code n <? 128)%nat = false) by (apply Nat.ltb_ge; lia).
  by rewrite E.
Qed.

Lemma leading_ones_spec b :
  (194 <= b <= 223 -> leading_ones b = 2)
  /\ (224 <= b <= 239 -> leading_ones b = 3)
  /\ (240 <= b <= 244 -> leading_ones b = 4).
Proof.
  unfold leading_ones.
  destruct (Nat.ltb_spec b 192), (Nat.ltb_spec b 224), (Nat.ltb_spec b 240),
    (Nat.ltb_spec b 248); repeat split; intros; lia.
Qed.

Lemma decode_go_encode_bounded n s :
  length s <= n ->
  utf8_well_formed s = true ->
  decode_go [] 0 (encodeURIComponent s) = Some s.
Proof.
  revert s. induction n as [|n IH]; intros s Hlen Hwf.
  { destruct s; [done|]. simpl in Hlen. lia. }
  destruct s as [|a s1]; [done|]. cbn [utf8_well_formed] in Hwf. simpl in Hlen.
  destruct (code a <? 128)%nat eqn:Ea.
  { rewrite encodeURIComponent_cons. destruct (uri_unreserved a) eqn:Eu.
    - apply unreserved_ascii in Eu as [_ Ep]. cbn [app].
      rewrite (decode_go_literal _ _ Ep), IH by (done || lia). done.
    - rewrite decode_go_escape, Ea, IH by (done || lia). done. }
  apply Nat.ltb_ge in Ea.
  destruct s1 as [|b s2]; [done|]. simpl in Hlen.
  destruct (valid_utf8_multibyte [code a; code b]) eqn:V2.
  { pose proof (valid_two _ _ V2) as (Ha & Hb).
    rewrite (encode_high a) by lia. rewrite (encode_high b) by lia.
    rewrite decode_lead by lia.
    assert (L : leading_ones (code a) = 2) by (apply leading_ones_spec; lia). rewrite L.
    cbn [Nat.eqb Nat.ltb Nat.leb orb Nat.sub].
    rewrite decode_go_escape. cbn [app]. rewrite V2.
    rewrite IH by (done || lia). cbn [option_map map app]. by rewrite !ascii_of_code. }
  destruct s2 as [|c s3]; [done|]. simpl in Hlen.
  destruct (valid_utf8_multibyte [code a; code b; code c]) eqn:V3.
  { pose proof (valid_three _ _ _ V3) as (Ha & Hb & Hc).
    rewrite (encode_high a) by lia. rewrite (encode_high b) by lia.
    rewrite (encode_high c) by lia.
    rewrite decode_lead by lia.
    assert (L : leading_ones (code a) = 3) by (apply leading_ones_spec; lia). rewrite L.
    cbn [Nat.eqb Nat.ltb Nat.leb orb Nat.sub].
    rewrite decode_go_escape. cbn [app]. rewrite decode_go_escape. cbn [app]. rewrite V3.
    rewrite IH by (done || lia). cbn [option_map map app]. by rewrite !ascii_of_code. }
  destruct s3 as [|d s4]; [done|]. simpl in Hlen.
  apply andb_true_iff in Hwf as [V4 Hwf].
  pose proof (valid_four _ _ _ _ V4) as (Ha & Hb & Hc & Hd).
  rewrite (encode_high a) by lia. rewrite (encode_high b) by lia.
  rewrite (encode_high c) by lia. rewrite (encode_high d) by lia.
  rewrite decode_lead by lia.
  assert (L : leading_ones (code a) = 4) by (apply leading_ones_spec; lia). rewrite L.
  cbn [Nat.eqb Nat.ltb Nat.leb orb Nat.sub].
  rewrite decode_go_escape. cbn [app]. rewrite decode_go_escape. cbn [app].
  rewrite decode_go_escape. cbn [app]. rewrite V4.
  rewrite IH by (done || lia). cbn [option_map map app]. by rewrite !ascii_of_code.
Qed.

Lemma decode_go_encode s :
  utf8_well_formed s = true -> decode_go [] 0 (encodeURIComponent s) = Some s.
Proof. by apply (decode_go_encode_bounded (length s)). Qed.

(** X4.  Round trip: what [encodeURIComponent] writes, [decodeURIComponent]
    reads back, for every string (of well-formed UTF-8, as every string
    without lone surrogates is).  So the tracker recovers [rid] and [dest]
    from its query string, and [normalizeDest] recovers a destination that
    the caller encoded. *)
Theorem decode_encode_round_trip s :
  utf8_well_formed s = true ->
  decodeURIComponent (encodeURIComponent s) = Some s.
Proof. intros H. unfold decodeURIComponent. by apply decode_go_encode. Qed.

(** X3.  The two values of the tracker request stay inside their parameters:
    the request is [TRACKER_URL], one separator, and
    [action=track&rid=<r>&dest=<e>] where [r] and [e] hold no [&], [=],
    [?], [#], [+], [/] or space, whatever [rid] and the destination are. *)
Theorem tracker_values_confined TRACKER_URL rid dest :
  exists sep r e,
    tracker_url TRACKER_URL rid dest
    = TRACKER_URL ++ sep :: str "action=track&rid=" ++ r ++ str "&dest=" ++ e
    /\ (sep = "?" \/ sep = "&")
    /\ Forall (fun c => query_delimiter c = false) r
    /\ Forall (fun c => query_delimiter c = false) e.
Proof.
  unfold tracker_url.
  exists (if indexOf_is_minus1 "?" TRACKER_URL then "?" else "&"),
         (encodeURIComponent (ToString (if js_truthy rid then rid else JString []))),
         (encodeURIComponent dest).
  split; [by destruct (indexOf_is_minus1 _ _)|].
  split; [destruct (indexOf_is_minus1 _ _); auto|].
  split; eapply Forall_impl; try apply encodeURIComponent_confined; by intros c [H _].
Qed.
(** ** Further properties of [normalizeDest] *)

Lemma break_userinfo c : userinfo_set c = false -> line_or_tag_break c = false.
Proof. destruct c as [[] [] [] [] [] [] [] []]; vm_compute; done. Qed.

Lemma break_path c : path_set c = false -> line_or_tag_break c = false.
Proof. destruct c as [[] [] [] [] [] [] [] []]; vm_compute; done. Qed.

Lemma break_special_query c : special_query_set c = false -> line_or_tag_break c = false.
Proof. destruct c as [[] [] [] [] [] [] [] []]; vm_compute; done. Qed.

Lemma break_fragment c : fragment_set c = false -> line_or_tag_break c = false.
Proof. destruct c as [[] [] [] [] [] [] [] []]; vm_compute; done. Qed.

Lemma break_domain c : forbidden_domain_code_point c = false -> line_or_tag_break c = false.
Proof. destruct c as [[] [] [] [] [] [] [] []]; vm_compute; done. Qed.

Lemma break_digit c : is_digit c = true -> line_or_tag_break c = false.
Proof. destruct c as [[] [] [] [] [] [] [] []]; vm_compute; done. Qed.

Lemma break_hex_or_colon c : is_hex_digit c = true \/ c = ":" -> line_or_tag_break c = false.
Proof. intros [H | ->]; [|done]. destruct c as [[] [] [] [] [] [] [] []]; vm_compute in H |- *; done. Qed.

Lemma N_to_dec_unbroken n : Forall (fun c => line_or_tag_break c = false) (N_to_dec n).
Proof. eapply Forall_impl; [apply N_to_dec_digits|]. apply break_digit. Qed.

Ltac unbroken_parts :=
  repeat first
    [ apply Forall_nil_2
    | apply Forall_app; split
    | apply Forall_cons; split; [reflexivity|]
    | apply N_to_dec_unbroken ].

Section FurtherNormalisation.

Variable unicodeToASCII : jsstring -> option jsstring.

Local Abbreviation URL_new := (URL_new unicodeToASCII).
Local Abbreviation normalizeDest := (normalizeDest unicodeToASCII).

Lemma host_serialize_unbroken b h :
  host_parse unicodeToASCII false b = Some h ->
  Forall (fun c => line_or_tag_break c = false) (host_serialize h).
Proof.
  intros H. pose proof (host_parse_inv _ _ _ H) as Hinv.
  destruct h as [d|a|pieces|o|]; try done; cbn [host_serialize].
  - apply host_parse_domain_inv in H as (_ & H & _).
    apply Forall_forall. intros c Hc. apply break_domain.
    destruct (forbidden_domain_code_point c) eqn:E; [|done].
    assert (existsb forbidden_domain_code_point d = true); [|congruence].
    apply existsb_exists. exists c. split; [by apply list_elem_of_In|done].
  - unfold ipv4_serialize. unbroken_parts.
  - apply Forall_cons. split; [reflexivity|]. apply Forall_app. split; [|by repeat constructor].
    unfold ipv6_serialize. eapply Forall_impl; [apply ipv6_serialize_go_chars|].
    apply break_hex_or_colon.
Qed.

Lemma url_serialize_unbroken u :
  canonical_http unicodeToASCII u ->
  Forall (fun c => line_or_tag_break c = false) (url_serialize u).
Proof.
  intros [Hs Hu Hp (h & b & Hh & Hb) _ (segs & Hpath & _ & Hsegs) Hq Hf].
  destruct u as [scheme username password host port path query fragment].
  cbn [url_scheme url_username url_password url_host url_port url_path_of url_query
       url_fragment] in *.
  subst host path. rewrite url_serialize_parts.
  assert (Huser : Forall (fun c => line_or_tag_break c = false) username)
    by (eapply Forall_impl; [exact Hu|]; apply break_userinfo).
  assert (Hpass : Forall (fun c => line_or_tag_break c = false) password)
    by (eapply Forall_impl; [exact Hp|]; apply break_userinfo).
  apply Forall_app. split; [destruct Hs as [-> | ->]; by repeat constructor|].
  apply Forall_app. split; [by repeat constructor|].
  apply Forall_app. split; [apply Forall_app; split; [|apply Forall_app; split]|].
  - unfold credentials_part. destruct (truthy username || truthy password); [|constructor].
    apply Forall_app. split; [done|]. apply Forall_app. split; [|by repeat constructor].
    destruct (truthy password); [|constructor]. by constructor.
  - by apply (host_serialize_unbroken b).
  - unfold port_part. destruct port as [p|]; [|constructor].
    constructor; [done|]. apply N_to_dec_unbroken.
  - apply Forall_app. split.
    + cbn [path_serialize]. clear -Hsegs.
      induction Hsegs as [|seg segs Hseg _ IH]; [constructor|].
      cbn [flat_map app]. constructor; [done|]. apply Forall_app. split; [|exact IH].
      destruct Hseg as (H & _). eapply Forall_impl; [exact H|]. apply break_path.
    + unfold query_fragment_part. apply Forall_app. split.
      * destruct query as [q|]; [|constructor]. constructor; [done|].
        eapply Forall_impl; [exact Hq|]. apply break_special_query.
      * destruct fragment as [f|]; [|constructor]. constructor; [done|].
        eapply Forall_impl; [exact Hf|]. apply break_fragment.
Qed.

(** X6.  A normalised destination holds no control character (so no CR and
    no LF), no space, no DEL, no [<] and no [>]: written into the
    [Location] header it cannot end the header line, and written into the
    body it cannot open or close a tag. *)
Theorem normalized_dest_has_no_breaks v d :
  normalizeDest v = Some d ->
  Forall (fun c => line_or_tag_break c = false) d.
Proof.
  intros H. apply normalizeDest_Some in H as (s' & u & _ & Hu & Hs & ->).
  apply url_serialize_unbroken. by apply (basic_url_parse_canonical _ s').
Qed.

(** X5.  A destination that the caller passed through [encodeURIComponent] is
    normalised like the plain one, when the plain one has no percent sign
    or cannot be percent-decoded (otherwise the plain one is decoded once,
    the encoded one not at all after its own decoding). *)
Theorem encoded_dest_accepted s :
  utf8_well_formed s = true ->
  ~ In "%" s \/ decodeURIComponent s = None ->
  normalizeDest (JString (encodeURIComponent s)) = normalizeDest (JString s).
Proof.
  intros Hwf Hp. destruct s as [|c s]; [reflexivity|].
  unfold normalizeDest.
  assert (Ht : js_truthy (JString (encodeURIComponent (c :: s))) = true).
  { rewrite encodeURIComponent_cons. by destruct (uri_unreserved c). }
  rewrite Ht. cbn [js_truthy truthy negb ToString].
  rewrite (decode_go_encode _ Hwf
           : decodeURIComponent (encodeURIComponent (c :: s)) = Some (c :: s)).
  assert (Hd : match decodeURIComponent (c :: s) with
               | Some decoded => decoded
               | None => c :: s
               end = c :: s).
  { destruct Hp as [Hp | ->]; [|done].
    unfold decodeURIComponent. by rewrite (decode_go_no_percent _ Hp). }
  by rewrite Hd.
Qed.

(** X12.  A destination without a scheme prefix (a scheme followed by [://]) is
    always sent to [https], never to [http]: the normalised form starts
    with [https://].  This includes inputs such as [http:example.com],
    which have a colon but no [://]. *)
Theorem scheme_less_goes_https v s d :
  decoded_once (ToString v) s ->
  ~ has_scheme_prefix s ->
  normalizeDest v = Some d ->
  exists tail, d = str "https://" ++ tail.
Proof.
  intros Hdec Hno H.
  apply normalizeDest_Some in H as (s' & u & Hp & Hu & _ & ->).
  assert (Hp' : prepared (ToString v) (str "https://" ++ s)).
  { exists s. split; [done|]. by right. }
  rewrite (prepared_functional _ _ _ Hp Hp') in Hu.
  assert (Hs : url_scheme u = str "https").
  { apply (URL_new_http_prefix unicodeToASCII (str "https") s u); [by right|exact Hu]. }
  assert (Hhttp : http_or_https (url_scheme u)) by (right; exact Hs).
  destruct (basic_url_parse_http _ _ _ Hu Hhttp) as (h & b & Hh & _).
  destruct (url_serialize_prefix _ _ Hh) as [tail Ht].
  exists tail. unfold URL_toString. by rewrite Ht, Hs.
Qed.

End FurtherNormalisation.

Section FurtherReparse.

Variable unicodeToASCII : jsstring -> option jsstring.

Hypothesis unicodeToASCII_lower : forall s r, unicodeToASCII s = Some r -> no_upper r.
Hypothesis unicodeToASCII_stable :
  forall s r, unicodeToASCII s = Some r ->
              plain_ascii_domain r = true \/ unicodeToASCII r = Some r.

(** X9.  Round trip of [new URL] and [toString]: the serialisation of a parsed
    [http] or [https] URL parses again, to the same URL (scheme,
    credentials, host, port, path, query and fragment).  So the host name
    the allowlist sees is the host name of the URL that [normalizeDest]
    accepted. *)
Theorem href_round_trip input u :
  URL_new unicodeToASCII input = Some u ->
  http_or_https (url_scheme u) ->
  URL_new unicodeToASCII (URL_toString u) = Some u.
Proof.
  intros Hu Hs.
  apply (canonical_reparse _ unicodeToASCII_lower unicodeToASCII_stable).
  by apply (basic_url_parse_canonical _ input).
Qed.

(** X8.  The handler never answers 500 and never writes to the error log: the
    one statement of its body that can throw outside the tracker block,
    [new URL(dest)] of the allowlist check, is applied to a normalised
    destination, which always parses. *)
Theorem no_server_error fetch env req :
  console (serve unicodeToASCII fetch env req) = []
  /\ Forall (fun r => resp_status r <> 500) (sent (serve unicodeToASCII fetch env req)).
Proof.
  destruct (serve_cases unicodeToASCII fetch env req)
    as [[_ ->] | [(_ & _ & ->) | (d & _ & Hn & [(_ & _ & ->) | [(_ & ->) | (_ & Hu & _)]])]];
    cbn [sent console]; try (split; [reflexivity|]; by apply Forall_singleton).
  destruct (normalized_dest_reparses _ unicodeToASCII_lower unicodeToASCII_stable _ _ Hn)
    as (u & Hu' & _).
  congruence.
Qed.

End FurtherReparse.
(** ** [split], [trim] and the allowlist *)

Lemma join_comma_cons x y l : join_comma (x :: y :: l) = x ++ "," :: join_comma (y :: l).
Proof. reflexivity. Qed.

Lemma split_app sep a b : split sep (a ++ sep :: b) = split sep a ++ split sep b.
Proof.
  induction a as [|c a IH]; cbn [app split].
  - by rewrite ascii_eqb_refl.
  - destruct (ascii_eqb c sep); [by rewrite IH|].
    rewrite IH. pose proof (split_nonempty sep a) as Hne.
    by destruct (split sep a).
Qed.

Lemma split_pieces sep s : Forall (fun piece => ~ In sep piece) (split sep s).
Proof.
  induction s as [|c s IH]; cbn [split]; [apply Forall_singleton; by intros []|].
  destruct (ascii_eqb c sep) eqn:E; [apply Forall_cons; split; [by intros []|done]|].
  destruct (split sep s) as [|cur more]; [|apply Forall_cons in IH as [Hcur Hmore]].
  - constructor; [|constructor]. intros [-> | []]. by rewrite ascii_eqb_refl in E.
  - constructor; [|done]. intros [-> | H]; [by rewrite ascii_eqb_refl in E|done].
Qed.

Lemma allowedList_app a b :
  allowedList (a ++ "," :: b) = allowedList a ++ allowedList b.
Proof. unfold allowedList. by rewrite split_app, map_app, filter_app. Qed.

(** [strip_ws] removes a prefix. *)
Lemma strip_ws_suffix_bounded n backwards s :
  length s <= n -> exists p, s = p ++ strip_ws backwards s.
Proof.
  revert s. induction n as [|n IH]; intros s Hlen.
  { destruct s; [by exists []|simpl in Hlen; lia]. }
  destruct s as [|a s1]; [by exists []|]. simpl in Hlen. cbn [strip_ws].
  destruct (is_ws1 a).
  { destruct (IH s1) as [p Hp]; [lia|]. exists (a :: p). cbn [app]. by rewrite <- Hp. }
  destruct s1 as [|b s2]; [by exists []|]. simpl in Hlen.
  destruct (if backwards then is_ws2 b a else is_ws2 a b).
  { destruct (IH s2) as [p Hp]; [lia|]. exists (a :: b :: p). cbn [app]. by rewrite <- Hp. }
  destruct s2 as [|c s3]; [by exists []|]. simpl in Hlen.
  destruct (if backwards then is_ws3 c b a else is_ws3 a b c); [|by exists []].
  destruct (IH s3) as [p Hp]; [lia|]. exists (a :: b :: c :: p). cbn [app]. by rewrite <- Hp.
Qed.

Lemma strip_ws_suffix backwards s : exists p, s = p ++ strip_ws backwards s.
Proof. by apply (strip_ws_suffix_bounded (length s)). Qed.

Lemma strip_ws_length backwards s : length (strip_ws backwards s) <= length s.
Proof.
  destruct (strip_ws_suffix backwards s) as [p Hp].
  rewrite Hp at 2. rewrite length_app. lia.
Qed.

(** When [strip_ws] leaves a string as it is, the string does not start
    with white space of one, two or three bytes. *)
Lemma strip_ws_fixed_1 backwards a s1 :
  strip_ws backwards (a :: s1) = a :: s1 -> is_ws1 a = false.
Proof.
  cbn [strip_ws]. destruct (is_ws1 a); [|done]. intros H.
  pose proof (strip_ws_length backwards s1) as Hl. rewrite H in Hl. simpl in Hl. lia.
Qed.

Lemma strip_ws_fixed_2 backwards a b s2 :
  strip_ws backwards (a :: b :: s2) = a :: b :: s2 ->
  (if backwards then is_ws2 b a else is_ws2 a b) = false.
Proof.
  intros H. pose proof (strip_ws_fixed_1 _ _ _ H) as H1. revert H.
  cbn [strip_ws]. rewrite H1.
  destruct (if backwards then is_ws2 b a else is_ws2 a b); [|done]. intros H.
  pose proof (strip_ws_length backwards s2) as Hl. rewrite H in Hl. simpl in Hl. lia.
Qed.

Lemma strip_ws_fixed_3 backwards a b c s3 :
  strip_ws backwards (a :: b :: c :: s3) = a :: b :: c :: s3 ->
  (if backwards then is_ws3 c b a else is_ws3 a b c) = false.
Proof.
  intros H. pose proof (strip_ws_fixed_1 _ _ _ H) as H1.
  pose proof (strip_ws_fixed_2 _ _ _ _ H) as H2. revert H.
  cbn [strip_ws]. rewrite H1, H2.
  destruct (if backwards then is_ws3 c b a else is_ws3 a b c); [|done]. intros H.
  pose proof (strip_ws_length backwards s3) as Hl. rewrite H in Hl. simpl in Hl. lia.
Qed.

Lemma strip_ws_idempotent_bounded n backwards s :
  length s <= n ->
  strip_ws backwards (strip_ws backwards s) = strip_ws backwards s.
Proof.
  revert s. induction n as [|n IH]; intros s Hlen.
  { destruct s; [done|simpl in Hlen; lia]. }
  destruct s as [|a s1]; [done|]. simpl in Hlen. cbn [strip_ws].
  destruct (is_ws1 a) eqn:E1; [apply IH; lia|].
  destruct s1 as [|b s2]; [cbn [strip_ws]; by rewrite E1|]. simpl in Hlen.
  destruct (if backwards then is_ws2 b a else is_ws2 a b) eqn:E2; [apply IH; lia|].
  destruct s2 as [|c s3]; [cbn [strip_ws]; by rewrite E1, E2|]. simpl in Hlen.
  destruct (if backwards then is_ws3 c b a else is_ws3 a b c) eqn:E3; [apply IH; lia|].
  cbn [strip_ws]. by rewrite E1, E2, E3.
Qed.

Lemma strip_ws_idempotent backwards s :
  strip_ws backwards (strip_ws backwards s) = strip_ws backwards s.
Proof. by apply (strip_ws_idempotent_bounded (length s)). Qed.

(** A prefix of a string without leading white space has none either. *)
Lemma strip_ws_fixed_prefix backwards p q :
  strip_ws backwards (p ++ q) = p ++ q -> strip_ws backwards p = p.
Proof.
  intros H. destruct p as [|a [|b [|c p]]]; [done|..]; cbn [app] in H.
  - cbn [strip_ws]. by rewrite (strip_ws_fixed_1 _ _ _ H).
  - pose proof (strip_ws_fixed_1 _ _ _ H) as H1.
    pose proof (strip_ws_fixed_2 _ _ _ _ H) as H2.
    cbn [strip_ws]. by rewrite H1, H2.
  - pose proof (strip_ws_fixed_1 _ _ _ H) as H1.
    pose proof (strip_ws_fixed_2 _ _ _ _ H) as H2.
    pose proof (strip_ws_fixed_3 _ _ _ _ _ H) as H3.
    cbn [strip_ws]. by rewrite H1, H2, H3.
Qed.

Lemma trim_idempotent s : trim (trim s) = trim s.
Proof.
  unfold trim. set (y := strip_ws false s). set (z := strip_ws true (rev y)).
  destruct (strip_ws_suffix true (rev y)) as [p Hp]. fold z in Hp.
  assert (Hy : y = rev z ++ rev p).
  { rewrite <- (rev_involutive y), Hp. apply rev_app_distr. }
  assert (Hfront : strip_ws false (rev z) = rev z).
  { apply (strip_ws_fixed_prefix false (rev z) (rev p)). rewrite <- Hy.
    apply strip_ws_idempotent. }
  rewrite Hfront, rev_involutive. unfold z. by rewrite strip_ws_idempotent.
Qed.

Lemma In_strip_ws backwards c s : In c (strip_ws backwards s) -> In c s.
Proof.
  intros H. destruct (strip_ws_suffix backwards s) as [p Hp]. rewrite Hp.
  apply in_or_app. by right.
Qed.

Lemma In_trim c s : In c (trim s) -> In c s.
Proof.
  unfold trim. intros H. apply in_rev in H. apply In_strip_ws in H.
  apply in_rev in H. by apply In_strip_ws in H.
Qed.

Lemma split_piece piece : ~ In "," piece -> split "," piece = [piece].
Proof.
  induction piece as [|c piece IH]; intros H; [done|]. cbn [split].
  destruct (ascii_eqb c ",") eqn:E.
  - apply ascii_eqb_eq in E as ->. exfalso. apply H. by left.
  - rewrite IH; [done|]. intros Hin. apply H. by right.
Qed.

Lemma split_join l :
  l <> [] -> Forall (fun piece => ~ In "," piece) l -> split "," (join_comma l) = l.
Proof.
  intros Hne H. induction H as [|piece l Hp Hl IH]; [done|].
  destruct l as [|q l]; [by apply split_piece|].
  rewrite join_comma_cons, split_app, (split_piece _ Hp), IH; done.
Qed.

(** X14.  The entries of the allowlist are in normal form: none is empty, none
    holds a comma, none has white space at either end (trimming an entry
    changes nothing).  So the list is a normal form of its text: writing
    the entries with commas between them and reading the result gives the
    same entries. *)
Theorem allowedList_entries allowed :
  Forall (fun e => e <> [] /\ ~ In "," e /\ trim e = e) (allowedList allowed)
  /\ allowedList (join_comma (allowedList allowed)) = allowedList allowed.
Proof.
  assert (H : Forall (fun e => e <> [] /\ ~ In "," e /\ trim e = e) (allowedList allowed)).
  { apply Forall_forall. intros e He. unfold allowedList in He.
    apply list_elem_of_filter in He as [Ht He].
    apply list_elem_of_fmap in He as (piece & -> & Hp).
    split; [by destruct (trim piece)|]. split; [|apply trim_idempotent].
    intros Hc. apply In_trim in Hc.
    pose proof (split_pieces "," allowed) as Hs. rewrite Forall_forall in Hs.
    by apply (Hs piece). }
  split; [exact H|].
  destruct (allowedList allowed) as [|e l] eqn:E; [reflexivity|].
  unfold allowedList at 1. rewrite split_join.
  - clear E. induction H as [|x xs (Hx & _ & Ht) _ IH]; [done|].
    cbn [map]. rewrite Ht, filter_cons. destruct x; [done|]. cbn [truthy].
    rewrite decide_True by done. by rewrite IH.
  - done.
  - eapply Forall_impl; [exact H|]. by intros x (_ & Hx & _).
Qed.

Section AllowlistExtension.

Variable unicodeToASCII : jsstring -> option jsstring.

(** X15.  Adding entries to a list that has at least one character that is not
    white space never takes a redirect away: a request that is redirected
    under [ALLOWED_DOMAINS = a] is redirected, to the same destination,
    under [a,more] and under [more,a]. *)
Theorem allowlist_extension_keeps_redirects fetch fetch' env env' req d more :
  truthy (trim (allowed_of env)) = true ->
  allowed_of env' = allowed_of env ++ "," :: more
  \/ allowed_of env' = more ++ "," :: allowed_of env ->
  sent (serve unicodeToASCII fetch env req) = [redirect_to d] ->
  sent (serve unicodeToASCII fetch' env' req) = [redirect_to d].
Proof.
  intros Ht Hext Hs.
  destruct (serve_cases unicodeToASCII fetch env req)
    as [[_ E] | [(_ & _ & E) | (d0 & Hv & Hn & [(_ & _ & E) | [(Hok & E) | (_ & _ & E)]])]];
    rewrite E in Hs; cbn [sent] in Hs;
    try (exfalso; apply (f_equal (map resp_status)) in Hs; discriminate Hs).
  assert (Hd : d0 = d).
  { apply (f_equal (map (fun r => resp_headers r !! str "location"))) in Hs.
    unfold redirect_to in Hs. cbn [map resp_headers] in Hs.
    rewrite !lookup_insert_ne, !lookup_singleton_eq in Hs by done. congruence. }
  subst d0. clear Hs E.
  pose proof (normalizeDest_nonempty _ _ _ Hn) as Hne.
  rewrite (serve_redirect _ fetch' env' req d Hv Hn Hne); [done|].
  destruct (truthy (trim (allowed_of env'))) eqn:Ht'; [right|by left].
  destruct Hok as [Hok | (u & Hu & e & He & Hm)]; [congruence|].
  exists u. split; [done|]. exists e. split; [|done].
  destruct Hext as [-> | ->]; rewrite allowedList_app; apply in_or_app; auto.
Qed.

End AllowlistExtension.
(** ** The scheme of the destination *)

Lemma scheme_char_facts c :
  is_scheme_char c = true -> is_c0_control_or_space c = false /\ ascii_eqb c ":" = false.
Proof. destruct c as [[] [] [] [] [] [] [] []]; vm_compute; done. Qed.

Lemma alpha_scheme_char c : is_alpha c = true -> is_scheme_char c = true.
Proof. destruct c as [[] [] [] [] [] [] [] []]; vm_compute; done. Qed.

Lemma scheme_state_scan sch buffer rest :
  Forall (fun c => is_scheme_char c = true) sch ->
  scheme_state buffer (sch ++ ":" :: rest) = Some (buffer ++ map to_lower sch, rest).
Proof.
  intros H. revert buffer. induction H as [|c sch Hc _ IH]; intros buffer; cbn [app scheme_state map].
  - change (is_scheme_char ":") with false. cbv iota.
    change (ascii_eqb ":" ":") with true. cbv iota. by rewrite app_nil_r.
  - rewrite Hc, IH. by rewrite <- app_assoc.
Qed.

Section ExplicitScheme.

Variable unicodeToASCII : jsstring -> option jsstring.

(** X13.  A destination with a scheme prefix keeps its scheme: the normalised
    form starts with the scheme of the input in lower case.  So such a
    destination is accepted only if the scheme it names is [http] or
    [https] in some mix of cases; no other scheme is reinterpreted. *)
Theorem explicit_scheme_kept v a sch rest d :
  decoded_once (ToString v) (a :: sch ++ str "://" ++ rest) ->
  is_alpha a = true ->
  Forall (fun c => is_scheme_char c = true) sch ->
  normalizeDest unicodeToASCII v = Some d ->
  is_http_scheme (a :: sch)
  /\ exists tail, d = map to_lower (a :: sch) ++ str "://" ++ tail.
Proof.
  intros Hdec Ha Hsch H.
  apply normalizeDest_Some in H as (s' & u & Hp & Hu & Hhttp & ->).
  assert (Hp' : prepared (ToString v) (a :: sch ++ str "://" ++ rest)).
  { exists (a :: sch ++ str "://" ++ rest). split; [done|]. left. split; [|done].
    by exists a, sch, rest. }
  rewrite (prepared_functional _ _ _ Hp Hp') in Hu.
  assert (Hs : url_scheme u = map to_lower (a :: sch)).
  { apply basic_url_parse_scheme in Hu as [rest0 Hu].
    change (a :: sch ++ str "://" ++ rest) with ((a :: sch) ++ ":" :: str "//" ++ rest) in Hu.
    replace ((a :: sch) ++ ":" :: str "//" ++ rest)
      with (((a :: sch) ++ [":"]) ++ str "//" ++ rest) in Hu
      by (by rewrite <- app_assoc).
    rewrite preprocess_prefix in Hu.
    - rewrite <- app_assoc in Hu. cbn [app scheme_start_state] in Hu. rewrite Ha in Hu.
      rewrite (scheme_state_scan _ _ _ Hsch) in Hu. by injection Hu as <- _.
    - done.
    - apply Forall_app. split; [|by repeat constructor].
      constructor; [by apply scheme_char_facts, alpha_scheme_char|].
      eapply Forall_impl; [exact Hsch|]. intros c Hc. by apply scheme_char_facts. }
  split.
  - unfold is_http_scheme. rewrite <- Hs. exact Hhttp.
  - destruct (basic_url_parse_http _ _ _ Hu Hhttp) as (h & b & Hh & _).
    destruct (url_serialize_prefix _ _ Hh) as [tail Ht].
    exists tail. unfold URL_toString. by rewrite Ht, Hs.
Qed.

End ExplicitScheme.

(** X16.  An entry of the allowlist covers the subdomains of every host it
    covers, at any depth: when [host] matches the entry, so does
    [label.host] for every label. *)
Theorem subdomain_of_match_matches host a label :
  host_matches host a = true ->
  host_matches (label ++ "." :: host) a = true.
Proof.
  rewrite !host_matches_spec. intros [-> | [p ->]]; right.
  - by exists label.
  - exists (label ++ "." :: p). by rewrite <- app_assoc.
Qed.

(** ** Entries that are not host names *)

Lemma delimiter_domain c : forbidden_domain_code_point c = false -> url_delimiter c = false.
Proof. destruct c as [[] [] [] [] [] [] [] []]; vm_compute; done. Qed.

Lemma delimiter_digit c : is_digit c = true -> url_delimiter c = false.
Proof. destruct c as [[] [] [] [] [] [] [] []]; vm_compute; done. Qed.

Lemma delimiter_hex_or_colon c : is_hex_digit c = true \/ c = ":" -> url_delimiter c = false.
Proof. intros [H | ->]; [|done]. destruct c as [[] [] [] [] [] [] [] []]; vm_compute in H |- *; done. Qed.

Lemma N_to_dec_no_delimiter n : Forall (fun c => url_delimiter c = false) (N_to_dec n).
Proof. eapply Forall_impl; [apply N_to_dec_digits|]. apply delimiter_digit. Qed.

Section EntryShape.

Variable unicodeToASCII : jsstring -> option jsstring.

Lemma host_serialize_no_delimiter b h :
  host_parse unicodeToASCII false b = Some h ->
  Forall (fun c => url_delimiter c = false) (host_serialize h).
Proof.
  intros H. pose proof (host_parse_inv _ _ _ H) as Hinv.
  destruct h as [d|a|pieces|o|]; try done; cbn [host_serialize].
  - apply host_parse_domain_inv in H as (_ & H & _).
    apply Forall_forall. intros c Hc. apply delimiter_domain.
    destruct (forbidden_domain_code_point c) eqn:E; [|done].
    assert (existsb forbidden_domain_code_point d = true); [|congruence].
    apply existsb_exists. exists c. split; [by apply list_elem_of_In|done].
  - unfold ipv4_serialize.
    repeat first [ apply Forall_app; split | apply Forall_cons; split; [reflexivity|]
                 | apply N_to_dec_no_delimiter ].
  - apply Forall_cons. split; [reflexivity|]. apply Forall_app. split; [|by repeat constructor].
    unfold ipv6_serialize. eapply Forall_impl; [apply ipv6_serialize_go_chars|].
    apply delimiter_hex_or_colon.
Qed.

(** X17.  An entry of the allowlist that is not written as a bare host name,
    but holds a [/], [?], [#], [@], backslash or space (a URL with its
    scheme, a host with a path, an address with credentials), matches no
    destination: the host name of a destination has none of these
    characters. *)
Theorem entry_with_delimiter_never_matches v d u e :
  normalizeDest unicodeToASCII v = Some d ->
  URL_new unicodeToASCII d = Some u ->
  (exists c, In c e /\ url_delimiter c = true) ->
  host_matches (URL_hostname u) e = false.
Proof.
  intros Hn Hu (c & Hc & Hdel).
  pose proof (normalizeDest_reparse _ _ _ _ Hn Hu) as Hs.
  destruct (basic_url_parse_http _ _ _ Hu Hs) as (h & b & Hh & Hb).
  pose proof (host_serialize_no_delimiter _ _ Hb) as Hhost.
  apply not_true_is_false. intros H. apply host_matches_spec in H.
  assert (Hin : In c (URL_hostname u)).
  { destruct H as [-> | [p ->]]; [done|]. apply in_or_app. right. by right. }
  unfold URL_hostname in Hin. rewrite Hh in Hin.
  rewrite Forall_forall in Hhost. apply list_elem_of_In, Hhost in Hin. congruence.
Qed.

End EntryShape.
(** ** The further properties at concrete requests *)

Lemma tracker_request_sent_witness :
  exists sep,
    outbound (serve ascii_only (fun _ => Resolves 200)
                (tracker_env "https://tracker.example/exec")
                (get_request "example.com" "abc123"))
    = [tracker_of (tracker_env "https://tracker.example/exec")
         ++ sep :: str "action=track&rid="
         ++ encodeURIComponent (ToString (rid_of (get_request "example.com" "abc123")))
         ++ str "&dest=" ++ encodeURIComponent (str "https://example.com/")]
    /\ (sep = "?" /\ ~ In "?" (tracker_of (tracker_env "https://tracker.example/exec"))
        \/ sep = "&" /\ In "?" (tracker_of (tracker_env "https://tracker.example/exec"))).
Proof.
  refine (proj1 (tracker_request_sent ascii_only (fun _ => Resolves 200)
                   (tracker_env "https://tracker.example/exec")
                   (get_request "example.com" "abc123") (str "https://example.com/")
                   _ _ _ _ _ _)).
  - vm_compute. reflexivity.
  - left. vm_compute. reflexivity.
  - vm_compute. discriminate.
  - discriminate.
  - vm_compute. reflexivity.
  - vm_compute. reflexivity.
Defined.

Lemma decode_encode_round_trip_witness :
  utf8_well_formed (str "rid 1&x=é") = true
  /\ decodeURIComponent (encodeURIComponent (str "rid 1&x=é")) = Some (str "rid 1&x=é").
Proof.
  split; [vm_compute; reflexivity|].
  apply decode_encode_round_trip. vm_compute. reflexivity.
Defined.

Lemma encoded_dest_accepted_witness :
  normalizeDest ascii_only (JString (encodeURIComponent (str "https://example.com/path?x=1")))
  = normalizeDest ascii_only (JString (str "https://example.com/path?x=1")).
Proof.
  apply encoded_dest_accepted.
  - vm_compute. reflexivity.
  - left. intros H. vm_compute in H. intuition discriminate.
Defined.

Lemma normalized_dest_has_no_breaks_witness :
  normalizeDest ascii_only (JString (str "example.com/a b<c>"))
  = Some (str "https://example.com/a%20b%3Cc%3E")
  /\ Forall (fun c => line_or_tag_break c = false) (str "https://example.com/a%20b%3Cc%3E").
Proof.
  assert (H : normalizeDest ascii_only (JString (str "example.com/a b<c>"))
              = Some (str "https://example.com/a%20b%3Cc%3E")) by (vm_compute; reflexivity).
  split; [exact H|]. exact (normalized_dest_has_no_breaks ascii_only _ _ H).
Defined.

Lemma href_round_trip_witness :
  exists u,
    URL_new ascii_only (str "HTTP://User@Example.COM:80/a/../b?q#f") = Some u
    /\ URL_new ascii_only (URL_toString u) = Some u.
Proof.
  destruct (URL_new ascii_only (str "HTTP://User@Example.COM:80/a/../b?q#f")) as [u|] eqn:Hu;
    [|vm_compute in Hu; discriminate Hu].
  exists u. split; [reflexivity|].
  apply (href_round_trip ascii_only) with (input := str "HTTP://User@Example.COM:80/a/../b?q#f").
  - intros s r H. discriminate H.
  - intros s r H. discriminate H.
  - exact Hu.
  - vm_compute in Hu. injection Hu as <-. left. reflexivity.
Defined.

Lemma no_server_error_witness :
  console (serve ascii_only (fun _ => Resolves 200) (allow_env "behance.net")
             (get_request "https://sub.behance.net/x" "abc123")) = []
  /\ Forall (fun r => resp_status r <> 500)
       (sent (serve ascii_only (fun _ => Resolves 200) (allow_env "behance.net")
                (get_request "https://sub.behance.net/x" "abc123"))).
Proof.
  apply (no_server_error ascii_only).
  - intros s r H. discriminate H.
  - intros s r H. discriminate H.
Defined.

Lemma response_depends_on_dest_and_allowlist_witness :
  sent (serve ascii_only (fun _ => Resolves 200) ∅ (get_request "example.com" "abc123"))
  = sent (serve ascii_only (fun _ => RejectsNetwork)
            (tracker_env "https://tracker.example/exec") (get_request "example.com" "other")).
Proof.
  refine (proj1 (response_depends_on_dest_and_allowlist ascii_only _ _ _ _ _ _ _ _)).
  - vm_compute. reflexivity.
  - vm_compute. reflexivity.
Defined.

Lemma scheme_less_goes_https_witness :
  normalizeDest ascii_only (JString (str "example.com/path"))
  = Some (str "https://example.com/path")
  /\ exists tail, str "https://example.com/path" = str "https://" ++ tail.
Proof.
  assert (H : normalizeDest ascii_only (JString (str "example.com/path"))
              = Some (str "https://example.com/path")) by (vm_compute; reflexivity).
  split; [exact H|].
  apply (scheme_less_goes_https ascii_only (JString (str "example.com/path"))
           (str "example.com/path")).
  - left. vm_compute. reflexivity.
  - intros Hp. apply scheme_prefix_re_spec in Hp. vm_compute in Hp. discriminate Hp.
  - exact H.
Defined.

Lemma explicit_scheme_kept_witness :
  is_http_scheme (str "HTTP")
  /\ exists tail, str "http://example.com/" = map to_lower (str "HTTP") ++ str "://" ++ tail.
Proof.
  apply (explicit_scheme_kept ascii_only (JString (str "HTTP://Example.com"))
           "H" (str "TTP") (str "Example.com")).
  - left. vm_compute. reflexivity.
  - reflexivity.
  - by repeat constructor.
  - vm_compute. reflexivity.
Defined.

Lemma allowlist_extension_keeps_redirects_witness :
  sent (serve ascii_only (fun _ => Resolves 200) (allow_env "behance.net,example.org")
          (get_request "https://sub.behance.net/x" "abc123"))
  = [redirect_to (str "https://sub.behance.net/x")].
Proof.
  apply (allowlist_extension_keeps_redirects ascii_only (fun _ => Resolves 200)
           (fun _ => Resolves 200) (allow_env "behance.net") (allow_env "behance.net,example.org")
           (get_request "https://sub.behance.net/x" "abc123")
           (str "https://sub.behance.net/x") (str "example.org")).
  - vm_compute. reflexivity.
  - left. vm_compute. reflexivity.
  - vm_compute. reflexivity.
Defined.

Lemma subdomain_of_match_matches_witness :
  host_matches (str "a.b.behance.net") (str "behance.net") = true.
Proof.
  apply (subdomain_of_match_matches (str "b.behance.net") (str "behance.net") (str "a")).
  vm_compute. reflexivity.
Defined.

Lemma entry_with_delimiter_never_matches_witness :
  exists u,
    URL_new ascii_only (str "https://behance.net/") = Some u
    /\ host_matches (URL_hostname u) (str "https://behance.net") = false.
Proof.
  assert (Hn : normalizeDest ascii_only (JString (str "behance.net"))
               = Some (str "https://behance.net/")) by (vm_compute; reflexivity).
  destruct (URL_new ascii_only (str "https://behance.net/")) as [u|] eqn:Hu;
    [|vm_compute in Hu; discriminate Hu].
  exists u. split; [reflexivity|].
  apply (entry_with_delimiter_never_matches ascii_only _ _ u (str "https://behance.net") Hn Hu).
  exists "/". split; [|reflexivity]. vm_compute. auto 10.
Defined.
(** ** The link of the redirect body *)

Lemma quoted_value_no_quote s : ~ In "034" (quoted_value s).
Proof.
  induction s as [|c s IH]; cbn [quoted_value]; [by intros []|].
  destruct (ascii_eqb c "034") eqn:E; [by intros []|].
  intros [-> | H]; [by rewrite ascii_eqb_refl in E|done].
Qed.

Lemma quoted_value_closed d tail :
  ~ In "034" d -> quoted_value (d ++ "034" :: tail) = d.
Proof.
  induction d as [|c d IH]; intros H; cbn [app quoted_value].
  - by rewrite ascii_eqb_refl.
  - destruct (ascii_eqb c "034") eqn:E.
    + apply ascii_eqb_eq in E as ->. exfalso. apply H. by left.
    + rewrite IH; [done|]. intros Hin. apply H. by right.
Qed.

Section RedirectLink.

Variable unicodeToASCII : jsstring -> option jsstring.

(** C7.  The body of the redirect is meant to hold a link to the
    normalised destination, but the destination is written between the
    quotes of the [href] without escaping.  For every destination, the
    value of the [href] is the destination exactly when the destination
    has no double quote.  The request with [dest] set to [quoted_host]
    (the host [x%22onmouseover=%22alert(1)%22.example.com], where [%22]
    stands for the double quote) is accepted, whatever the tracker does:
    the answer is 302 with [Location] set to the destination, and the
    [href] of its body ends at the first double quote, so that the link
    goes to [https://x] and the rest of the destination is read as
    further attributes of the tag. *)
Theorem redirect_link_broken_by_quote fetch :
  (forall d,
     exists rest,
       resp_body (redirect_to d)
       = str "<html><body>Redirecting… If you are not redirected automatically, <a href="
         ++ "034" :: rest
       /\ (quoted_value rest = d <-> ~ In "034" d))
  /\ normalizeDest unicodeToASCII (JString quoted_host) = Some quoted_dest
  /\ sent (serve unicodeToASCII fetch (tracker_env "https://tracker.example/exec")
             (request_of_dest quoted_host))
     = [redirect_to quoted_dest]
  /\ resp_status (redirect_to quoted_dest) = 302
  /\ resp_headers (redirect_to quoted_dest) !! str "location" = Some quoted_dest
  /\ (exists rest,
        resp_body (redirect_to quoted_dest)
        = str "<html><body>Redirecting… If you are not redirected automatically, <a href="
          ++ "034" :: rest
        /\ quoted_value rest = str "https://x"
        /\ quoted_value rest <> quoted_dest).
Proof.
  assert (Hn : normalizeDest unicodeToASCII (JString quoted_host) = Some quoted_dest)
    by (vm_compute; reflexivity).
  split; [|split; [exact Hn|split; [|split; [reflexivity|split]]]].
  - intros d. exists (d ++ "034" :: str ">click here</a>.</body></html>").
    split; [reflexivity|]. split.
    + intros H. rewrite <- H. apply quoted_value_no_quote.
    + apply quoted_value_closed.
  - assert (Hd : dest_of (request_of_dest quoted_host) = JString quoted_host)
      by (vm_compute; reflexivity).
    rewrite <- Hd in Hn.
    rewrite (serve_redirect _ _ _ _ _ (normalizeDest_truthy _ _ _ Hn) Hn
               (normalizeDest_nonempty _ _ _ Hn)); [done|].
    left. vm_compute. reflexivity.
  - unfold redirect_to. cbn [resp_headers].
    rewrite lookup_insert_ne by done. apply lookup_singleton_eq.
  - exists (quoted_dest ++ "034" :: str ">click here</a>.</body></html>").
    split; [reflexivity|]. split; [vm_compute; reflexivity|].
    vm_compute. discriminate.
Qed.

End RedirectLink.
